(** * The turn pipeline of the multi-agent chat front end

    A shallow embedding of [ChatService] (chat.service.ts, the revision
    with the remote backend), [ModelContextService]
    (model-context.service.ts) and the part of [LlmClientService]
    (llm-client.service.ts) that [ChatService] calls, followed by the
    properties of the turn pipeline and of the protocol timeline store.

    Conventions of the embedding:
    - a JavaScript string is the list of its UTF-16 code units;
    - a JavaScript number is a binary64 float; quantities the code computes
      from string lengths and constants (token estimates) are integers far
      below 2^53, where binary64 arithmetic is exact, and are computed in
      [Z] and injected with [Z2num] where they are stored as numbers;
    - [Record<string, V>] objects used as dictionaries are finite maps of
      their own properties; a read or a write under a name that the
      object inherits from [Object.prototype] is modelled as such
      ([readSlot], [assignNumber]);
    - the services are singletons with mutable fields: their state is the
      record [World], threaded through a state monad;
    - what the host provides (identifier generator, clock, timers, the
      HTTP exchange, the build-time configuration) is the record [Host]. *)

From Stdlib Require Import ZArith NArith List Bool Ascii String DecimalString Floats Lia
  Sorted Permutation.
From stdpp Require Import base option list gmap fin_maps.
Import ListNotations.

Set Warnings "-inexact-float,-register-all".
Local Open Scope N_scope.

(* ===================================================================== *)
(** * JavaScript strings *)
(* ===================================================================== *)

Module Js.

(** A string value: the sequence of its 16-bit code units. *)
Definition jsstring := list N.

(** An ASCII literal as a string value (one code unit per character). *)
Fixpoint u (s : String.string) : jsstring :=
  match s with
  | EmptyString => []
  | String c r => N_of_ascii c :: u r
  end.

Definition inRange (lo hi c : N) : bool := (lo <=? c) && (c <=? hi).

(** [WhiteSpace] and [LineTerminator] of ECMAScript: the class [\s] of
    regular expressions and the characters removed by [trim]. *)
Definition isWhiteSpace (c : N) : bool :=
  inRange 9 13 c || (c =? 32) || (c =? 160) || (c =? 5760)
  || inRange 8192 8202 c || (c =? 8232) || (c =? 8233) || (c =? 8239)
  || (c =? 8287) || (c =? 12288) || (c =? 65279).

(** The class [\w] of a regular expression without the [u] and [i] flags. *)
Definition isWordChar (c : N) : bool :=
  inRange 97 122 c || inRange 65 90 c || inRange 48 57 c || (c =? 95).

Definition SP : N := 32.

(** [s.replace(/\s+/g, ' ')]: every maximal run of white space becomes one
    space. [inRun] tells that the previous unit was white space. *)
Fixpoint replaceWsRuns (inRun : bool) (s : jsstring) : jsstring :=
  match s with
  | [] => []
  | c :: r =>
      if isWhiteSpace c
      then (if inRun then replaceWsRuns true r else SP :: replaceWsRuns true r)
      else c :: replaceWsRuns false r
  end.

Definition collapseWhitespace (s : jsstring) : jsstring := replaceWsRuns false s.

Fixpoint trimStart (s : jsstring) : jsstring :=
  match s with
  | [] => []
  | c :: r => if isWhiteSpace c then trimStart r else s
  end.

Fixpoint trimEnd (s : jsstring) : jsstring :=
  match s with
  | [] => []
  | c :: r =>
      match trimEnd r with
      | [] => if isWhiteSpace c then [] else [c]
      | r' => c :: r'
      end
  end.

(** [s.trim()] *)
Definition trim (s : jsstring) : jsstring := trimEnd (trimStart s).

(** [s.slice(0, n)] for [n >= 0]. *)
Definition slice0 (n : nat) (s : jsstring) : jsstring := firstn n s.

(** [String.prototype.toLowerCase] on one code unit. The case pairs of
    Basic Latin and Latin-1 are tabulated, and so are the five code points
    outside these blocks whose lower case lies inside them (U+0130, U+0178,
    U+1E9E, U+212A, U+212B). Every other case pair of the Unicode table
    maps a letter above U+00FF to letters above U+00FF and is left out:
    such units are returned unchanged. *)
Definition lowerUnit (c : N) : list N :=
  if inRange 65 90 c then [c + 32]
  else if inRange 192 222 c && negb (c =? 215) then [c + 32]
  else if c =? 304 then [105; 775]
  else if c =? 376 then [255]
  else if c =? 7838 then [223]
  else if c =? 8490 then [107]
  else if c =? 8491 then [229]
  else [c].

Definition toLowerCase (s : jsstring) : jsstring := flat_map lowerUnit s.

(** [s.split(' ')]: the pieces between single spaces; never empty. *)
Fixpoint splitSpace (s : jsstring) : list jsstring :=
  match s with
  | [] => [[]]
  | c :: r =>
      if c =? SP then [] :: splitSpace r
      else match splitSpace r with
           | [] => [[c]]
           | w :: ws => (c :: w) :: ws
           end
  end.

(** [a.join(' ')] *)
Fixpoint joinSpace (ws : list jsstring) : jsstring :=
  match ws with
  | [] => []
  | [w] => w
  | w :: rest => w ++ SP :: joinSpace rest
  end.

(** [a.join('\n')] *)
Fixpoint joinLines (ws : list jsstring) : jsstring :=
  match ws with
  | [] => []
  | [w] => w
  | w :: rest => w ++ 10 :: joinLines rest
  end.

(** [prefix] matched at the head of [s]: the rest of [s] after it. *)
Fixpoint stripPrefix (prefix s : jsstring) : option jsstring :=
  match prefix, s with
  | [], _ => Some s
  | _ :: _, [] => None
  | p :: ps, c :: r => if p =? c then stripPrefix ps r else None
  end.

(** The white-space separated tokens of a string: its maximal runs of
    units that are not white space. *)
Fixpoint tokens (s : jsstring) : list jsstring :=
  match s with
  | [] => []
  | c :: r =>
      if isWhiteSpace c then tokens r
      else match r with
           | [] => [[c]]
           | d :: _ =>
               if isWhiteSpace d then [c] :: tokens r
               else match tokens r with
                    | [] => [[c]]
                    | w :: ws => (c :: w) :: ws
                    end
           end
  end.

End Js.

Import Js.

(* ===================================================================== *)
(** * JavaScript numbers and loosely typed values *)
(* ===================================================================== *)

Definition number := float.

(** An integer as a number (exact below 2^53). *)
Definition Z2num (z : Z) : number :=
  if (z <? 0)%Z
  then PrimFloat.opp (PrimFloat.of_uint63 (Uint63.of_Z (- z)))
  else PrimFloat.of_uint63 (Uint63.of_Z z).

(** The global functions [isNaN] and [isFinite] on a number. *)
Definition isNaN (n : number) : bool := PrimFloat.is_nan n.
Definition isFinite (n : number) : bool :=
  negb (PrimFloat.is_nan n || PrimFloat.is_infinity n).

(** A number in a boolean position: [0], [-0] and [NaN] are falsy. *)
Definition truthyNum (n : number) : bool :=
  negb (PrimFloat.is_nan n || PrimFloat.is_zero n).

(** [+x.toFixed(2)]: [toFixed] takes the integer [n] closest to [|x| * 100]
    (the larger one at a tie) from the exact value [m * 2^e] of [x], prints
    [n / 100] with two decimals, and unary plus reads that decimal back as
    the nearest number, which is the correctly rounded quotient of [n] by
    [100] while [n < 2^53], that is for [|x|] below 9 * 10^13; the scores
    this is applied to lie between 0 and 1. A value that is not finite
    prints as its name and reads back as itself. *)
Definition toFixed2 (x : number) : number :=
  match Prim2SF x with
  | S754_finite s m e =>
      let n := if (0 <=? e)%Z
               then (100 * Z.pos m * 2 ^ e)%Z
               else ((200 * Z.pos m + 2 ^ (- e)) / 2 ^ (1 - e))%Z in
      let r := PrimFloat.div (Z2num n) (Z2num 100) in
      if s then PrimFloat.opp r else r
  | S754_zero _ => PrimFloat.zero
  | _ => x
  end.

(** A value of unknown type as JSON delivers it. An object or an array is
    kept as the string its conversion to a primitive yields (what
    [ToPrimitive] returns for it, e.g. [[object Object]]), which is all
    that a numeric coercion looks at. *)
Inductive JsVal : Type :=
| JUndefined
| JNull
| JBool (b : bool)
| JNum (n : number)
| JStr (s : jsstring)
| JObject (primitive : jsstring).

(* ===================================================================== *)
(** * The models (chat.models.ts, context.models.ts) *)
(* ===================================================================== *)

Inductive Role := user | agent | system.

Inductive AgentStatus := idle | thinking | retrieving | responding | error | offline.

Record AgentState := { status : AgentStatus; state_note : option jsstring }.

Record AgentSummary := {
  ag_id : jsstring;
  ag_name : jsstring;
  ag_description : jsstring;
  ag_icon : jsstring;
  ag_expertise : list jsstring;
  ag_state : AgentState
}.

Record RagChunk := {
  rc_id : jsstring;
  rc_source : jsstring;
  rc_title : option jsstring;
  rc_snippet : jsstring;
  rc_score : option number;
  rc_url : option jsstring
}.

Record RagContext := {
  rag_query : jsstring;
  rag_chunks : list RagChunk;
  rag_usedAt : jsstring
}.

Record TokenUsage := {
  tok_prompt : option number;
  tok_completion : option number;
  tok_total : option number
}.

(** [ModelCallInfo] of context.models.ts and [LlmCallInfo] of
    chat.models.ts have the same shape. *)
Record ModelCallInfo := {
  mci_model : jsstring;
  mci_params : option (gmap jsstring number);
  mci_tokens : option TokenUsage;
  mci_latencyMs : option number
}.

Record Message := {
  msg_id : jsstring;
  msg_role : Role;
  msg_content : jsstring;
  msg_timestamp : jsstring;
  msg_agentId : option jsstring;
  msg_context : option RagContext;
  msg_llm : option ModelCallInfo;
  msg_protocolTurnId : option jsstring
}.

Record Conversation := {
  conv_id : jsstring;
  conv_title : jsstring;
  conv_createdAt : jsstring;
  conv_updatedAt : jsstring;
  conv_agentId : jsstring;
  conv_messages : list Message
}.

Record ProtocolActor := {
  actor_id : jsstring;
  actor_name : jsstring;
  actor_icon : option jsstring
}.

(** [ProtocolInput] and [ProtocolOutput]: a text and structured fields. *)
Record ProtocolIO := {
  io_text : option jsstring;
  io_fields : option (gmap jsstring JsVal)
}.

Record RetrievalItem := {
  ri_id : jsstring;
  ri_source : jsstring;
  ri_title : option jsstring;
  ri_snippet : jsstring;
  ri_score : option number;
  ri_url : option jsstring
}.

Record RetrievalBatch := {
  rb_query : jsstring;
  rb_items : list RetrievalItem
}.

Inductive ContextItemType :=
  cw_system | cw_instruction | cw_history | cw_retrieval | cw_tool | cw_scratchpad.

Record ContextWindowItem := {
  cw_id : jsstring;
  cw_type : ContextItemType;
  cw_text : jsstring;
  cw_tokens : option Z;
  cw_origin : option jsstring
}.

(** A protocol step. [ps_type] is declared as one of nine literals, but a
    step taken over from the backend carries whatever string it sent, so
    the field is a string here. *)
Record ProtocolStep := {
  ps_id : jsstring;
  ps_at : jsstring;
  ps_type : jsstring;
  ps_actor : ProtocolActor;
  ps_input : option ProtocolIO;
  ps_output : option ProtocolIO;
  ps_retrieval : option RetrievalBatch;
  ps_contextWindow : option (list ContextWindowItem);
  ps_model : option ModelCallInfo;
  ps_note : option jsstring
}.

Record ModelContextProtocol := {
  turnId : jsstring;
  steps : list ProtocolStep
}.

(** The nine step types. *)
Definition plan : jsstring := u "plan".
Definition retrieve : jsstring := u "retrieve".
Definition rerank : jsstring := u "rerank".
Definition pack : jsstring := u "pack".
Definition generate : jsstring := u "generate".
Definition reflect : jsstring := u "reflect".
Definition tool : jsstring := u "tool".
Definition route : jsstring := u "route".
Definition error_ : jsstring := u "error".

(* ===================================================================== *)
(** * The backend interface (llm-client.service.ts) *)
(* ===================================================================== *)

Record LlmTokenUsage := {
  lt_prompt : JsVal;
  lt_completion : JsVal;
  lt_total : JsVal
}.

(** [LlmModelInfo] as it arrives: the numeric fields are not checked. *)
Record LlmModelInfo := {
  lm_model : jsstring;
  lm_params : option (gmap jsstring JsVal);
  lm_tokens : option LlmTokenUsage;
  lm_latencyMs : JsVal
}.

(** A protocol step as the backend sends it: every field may be missing.
    The payload fields are taken over as they are and have the types of
    [ProtocolStep]. *)
Record BackendStep := {
  bs_id : option jsstring;
  bs_at : option jsstring;
  bs_type : option jsstring;
  bs_actor : option ProtocolActor;
  bs_input : option ProtocolIO;
  bs_output : option ProtocolIO;
  bs_retrieval : option RetrievalBatch;
  bs_contextWindow : option (list ContextWindowItem);
  bs_model : option ModelCallInfo;
  bs_note : option jsstring
}.

Record LlmChatCompletionResponse := {
  res_content : jsstring;
  res_context : option RagContext;
  res_llm : option LlmModelInfo;
  res_protocol : list BackendStep
}.

(** The body of the HTTP response before [LlmClientService] fills in the
    required fields. *)
Record HttpBody := {
  body_content : option jsstring;
  body_context : option RagContext;
  body_llm : option LlmModelInfo;
  body_protocol : option (list BackendStep)
}.

Record LlmChatCompletionRequest := {
  req_messages : list (jsstring * jsstring);
  req_agentId : option jsstring;
  req_params : gmap jsstring JsVal;
  req_rag_enable : bool;
  req_rag_k : Z
}.

(** A failure of the exchange (time-out, network error, error status):
    the [message] of the error object, if it has one, and what [String]
    makes of it. *)
Record TransportError := {
  err_message : option jsstring;
  err_string : jsstring
}.

Inductive HttpOutcome :=
| HttpFailed (e : TransportError)
| HttpResponded (body : option HttpBody).

(* ===================================================================== *)
(** * Host and service state *)
(* ===================================================================== *)

(** What the host provides. *)
Record Host := {
  (** the n-th identifier that [crypto.randomUUID] (or the fallback on
      [Math.random]) hands out *)
  uuidOf : nat -> jsstring;
  (** which is a UUID: [crypto.randomUUID] returns the canonical form
      and the fallback fills the pattern
      [xxxxxxxx-xxxx-4xxx-yxxx-xxxxxxxxxxxx], so it has a hyphen *)
  uuidOf_hyphen : forall n, In 45%N (uuidOf n);
  (** the n-th reading of the clock, in milliseconds *)
  timeAt : nat -> Z;
  (** [Date.prototype.toISOString] *)
  toISOString : Z -> jsstring;
  (** [StringToNumber] of ECMAScript *)
  StringToNumber : jsstring -> number;
  (** whether [globalThis.setTimeout] is a function *)
  hasSetTimeout : bool;
  (** [environment.LLM_API_URL] *)
  LLM_API_URL : jsstring;
  (** what the HTTP exchange for a request yields *)
  httpPost : LlmChatCompletionRequest -> HttpOutcome
}.

(** The mutable fields of the two singleton services, and how often the
    identifier generator and the clock have been used. *)
Record World := {
  protocols : gmap jsstring ModelContextProtocol;
  agents : list AgentSummary;
  conversations : list Conversation;
  activeConversationId : jsstring;
  activeAgentId : jsstring;
  uuidCount : nat;
  clockCount : nat
}.

Definition setProtocols (p : gmap jsstring ModelContextProtocol) (w : World) : World :=
  {| protocols := p; agents := agents w; conversations := conversations w;
     activeConversationId := activeConversationId w;
     activeAgentId := activeAgentId w;
     uuidCount := uuidCount w; clockCount := clockCount w |}.

Definition setAgents (a : list AgentSummary) (w : World) : World :=
  {| protocols := protocols w; agents := a; conversations := conversations w;
     activeConversationId := activeConversationId w;
     activeAgentId := activeAgentId w;
     uuidCount := uuidCount w; clockCount := clockCount w |}.

Definition setConversations (c : list Conversation) (w : World) : World :=
  {| protocols := protocols w; agents := agents w; conversations := c;
     activeConversationId := activeConversationId w;
     activeAgentId := activeAgentId w;
     uuidCount := uuidCount w; clockCount := clockCount w |}.

Definition setActiveConversationId (i : jsstring) (w : World) : World :=
  {| protocols := protocols w; agents := agents w; conversations := conversations w;
     activeConversationId := i;
     activeAgentId := activeAgentId w;
     uuidCount := uuidCount w; clockCount := clockCount w |}.

Definition setActiveAgentId (i : jsstring) (w : World) : World :=
  {| protocols := protocols w; agents := agents w; conversations := conversations w;
     activeConversationId := activeConversationId w;
     activeAgentId := i;
     uuidCount := uuidCount w; clockCount := clockCount w |}.

Definition setUuidCount (n : nat) (w : World) : World :=
  {| protocols := protocols w; agents := agents w; conversations := conversations w;
     activeConversationId := activeConversationId w;
     activeAgentId := activeAgentId w;
     uuidCount := n; clockCount := clockCount w |}.

Definition setClockCount (n : nat) (w : World) : World :=
  {| protocols := protocols w; agents := agents w; conversations := conversations w;
     activeConversationId := activeConversationId w;
     activeAgentId := activeAgentId w;
     uuidCount := uuidCount w; clockCount := n |}.

(** The state monad of the services. *)
Definition M (A : Type) : Type := World -> A * World.

Definition ret {A} (a : A) : M A := fun w => (a, w).
Definition bind {A B} (m : M A) (k : A -> M B) : M B :=
  fun w => let (a, w') := m w in k a w'.
Definition modify (f : World -> World) : M unit := fun w => (tt, f w).
Definition gets {A} (f : World -> A) : M A := fun w => (f w, w).

Declare Scope chat_scope.
Delimit Scope chat_scope with chat.
Notation "x <- m ;; k" := (bind m (fun x => k))
  (at level 62, m at next level, right associativity) : chat_scope.
Notation "m ;;; k" := (bind m (fun _ => k))
  (at level 62, right associativity) : chat_scope.
Local Open Scope chat_scope.

(** What a subscriber of the observable returned by [sendMessage] is
    told. *)
Inductive Notification :=
| Next (m : Message)
| ErrorN (e : TransportError)
| Complete.

(** What a turn has left with the event loop: nothing, a timer callback,
    or the pending HTTP exchange. A callback runs to its end, tells the
    subscriber what it emits and leaves the next pending task. *)
Inductive Pending : Type :=
| Nothing
| Timer (ms : Z) (callback : World -> (list Notification * Pending) * World)
| Http (req : LlmChatCompletionRequest)
       (onResult : HttpOutcome -> World -> (list Notification * Pending) * World).

(** A cold observable: what subscribing to it does. *)
Definition Observable : Type := M (list Notification * Pending).

(* ===================================================================== *)
(** * ModelContextService (model-context.service.ts) *)
(* ===================================================================== *)

(** The store is an object literal used as a map from turn identifiers
    to timelines: [protocols] holds its own properties. A read [curr[k]]
    also finds what the object inherits from [Object.prototype]. *)

(** The names of the properties of [Object.prototype]. *)
Definition objectPrototypeNames : list jsstring :=
  [u "constructor"; u "hasOwnProperty"; u "isPrototypeOf";
   u "propertyIsEnumerable"; u "toLocaleString"; u "toString"; u "valueOf";
   u "__proto__"; u "__defineGetter__"; u "__defineSetter__";
   u "__lookupGetter__"; u "__lookupSetter__"].

Definition inheritedKey (k : jsstring) : bool :=
  bool_decide (In k objectPrototypeNames).

(** What [curr[k]] yields: the timeline stored under [k], else the
    function (or, for [__proto__], the prototype) inherited under that
    name, else [undefined]. *)
Inductive Slot :=
| Own (p : ModelContextProtocol)
| Inherited
| Undefined.

Definition readSlot (curr : gmap jsstring ModelContextProtocol) (k : jsstring) : Slot :=
  match curr !! k with
  | Some p => Own p
  | None => if inheritedKey k then Inherited else Undefined
  end.

(** How a call ends. *)
Inductive Thrown := TypeError.

Inductive Completion (A : Type) :=
| Returned (a : A)
| Threw (e : Thrown).

Arguments Returned {A} a.
Arguments Threw {A} e.

(** [addProtocol]: create an empty timeline for the turn if [curr[turnId]]
    is falsy; a timeline and an inherited function are truthy. *)
Definition addProtocol (tid : jsstring) : M unit :=
  curr <- gets protocols ;;
  match readSlot curr tid with
  | Undefined => modify (setProtocols (<[tid := {| turnId := tid; steps := [] |}]> curr))
  | Own _ | Inherited => ret tt
  end.

(** [appendStep]: [curr] is the object that [addProtocol] has just
    extended in place, so the timeline is there when its steps are
    replaced by the longer array. Under an inherited name there is no
    timeline and none is created: [steps] of the inherited value is
    [undefined], and spreading it throws before anything is written (the
    last branch is the [TypeError] of reading [steps] of [undefined],
    which cannot be reached). *)
Definition appendStep (tid : jsstring) (step : ProtocolStep) : M (Completion unit) :=
  curr0 <- gets protocols ;;
  (match readSlot curr0 tid with
   | Undefined => addProtocol tid
   | Own _ | Inherited => ret tt
   end) ;;;
  curr <- gets protocols ;;
  match readSlot curr tid with
  | Own p =>
      modify (setProtocols
                (<[tid := {| turnId := turnId p; steps := steps p ++ [step] |}]> curr)) ;;;
      ret (Returned tt)
  | Inherited => ret (Threw TypeError)
  | Undefined => ret (Threw TypeError)
  end.

(** [get]: what the store object has under the name. *)
Definition get (tid : jsstring) : M Slot :=
  gets (fun w => readSlot (protocols w) tid).

(** A turn identifier under which the store can file a timeline: not the
    name of a property of [Object.prototype]. *)
Class Plain (tid : jsstring) : Prop :=
  plain : inheritedKey tid = false.

(* ===================================================================== *)
(** * ChatService (chat.service.ts) *)
(* ===================================================================== *)

Definition QUOTE : N := 34.
Definition LF : N := 10.
Definition BULLET : N := 8226.
Definition ELLIPSIS : N := 8230.

(** [a || b] on strings: the empty string and [undefined] are falsy. *)
Definition strOr (a : option jsstring) (b : jsstring) : jsstring :=
  match a with
  | Some (c :: r) => c :: r
  | _ => b
  end.

(** [a ?? b] *)
Definition nullish {A} (a : option A) (b : A) : A :=
  match a with
  | Some x => x
  | None => b
  end.

Definition eqStr (a b : jsstring) : bool := bool_decide (a = b).

(** The decimal digits of a length or a count. *)
Definition natToString (n : nat) : jsstring :=
  u (NilZero.string_of_uint (Nat.to_uint n)).

(** ** Input normalisation of [sendMessage] *)

Definition sanitize (content : jsstring) : jsstring :=
  let raw := content in
  let cleaned := trim (collapseWhitespace raw) in
  slice0 4000 cleaned.

(** ** [rewriteQueryForRetrieval] *)

Definition fillers : list jsstring :=
  [u "please"; u "kindly"; u "can you"; u "could you"; u "would you";
   u "thanks"; u "thank you"].

Definition isWordOpt (c : option N) : bool :=
  match c with
  | Some x => isWordChar x
  | None => false
  end.

(** The assertion [\b] between two neighbours ([None] at either end of
    the string). *)
Definition wordBoundary (before after : option N) : bool :=
  xorb (isWordOpt before) (isWordOpt after).

(** The alternatives of the group, tried in order at the head of [s]:
    the length of the first one that matches and is followed by [\b]. *)
Fixpoint matchAlternative (alts : list jsstring) (s : jsstring) : option nat :=
  match alts with
  | [] => None
  | alt :: more =>
      match stripPrefix alt s with
      | Some rest =>
          if wordBoundary (last alt) (head rest)
          then Some (length alt)
          else matchAlternative more s
      | None => matchAlternative more s
      end
  end.

(** [/\b(please|...|thank you)\b/] tried at the head of [s], [prev] being
    the unit before it. *)
Definition matchFiller (prev : option N) (s : jsstring) : option nat :=
  if wordBoundary prev (head s) then matchAlternative fillers s else None.

(** [.replace(/\b(...)\b/g, '')]: scan from left to right; a match is
    dropped and the scan goes on behind it. [skip] counts the units of
    the current match still to drop. *)
Fixpoint removeFillers (skip : nat) (prev : option N) (s : jsstring) : jsstring :=
  match s with
  | [] => []
  | c :: r =>
      match skip with
      | S k => removeFillers k (Some c) r
      | O =>
          match matchFiller prev s with
          | Some len => removeFillers (Nat.pred len) (Some c) r
          | None => c :: removeFillers O (Some c) r
          end
      end
  end.

(** The class [[a-z0-9\s-]]. *)
Definition isQueryChar (c : N) : bool :=
  inRange 97 122 c || inRange 48 57 c || isWhiteSpace c || (c =? 45).

(** [.replace(/[^a-z0-9\s-]/g, ' ')] *)
Definition blankOthers (s : jsstring) : jsstring :=
  map (fun c => if isQueryChar c then c else SP) s.

Definition rewriteQueryForRetrieval (text : jsstring) : jsstring :=
  let cleaned :=
    trim (collapseWhitespace (blankOthers (removeFillers O None (toLowerCase text)))) in
  joinSpace (firstn 10 (splitSpace cleaned)).

(** ** Retrieval: ranking of the raw chunks *)

Definition chunkKey (c : RagChunk) : jsstring :=
  toLowerCase (strOr (rc_title c) (strOr (Some (rc_source c)) [])).

(** [.filter(c => ...)] with the set [seen] of the keys met so far. *)
Fixpoint dedupFilter (seen : gset jsstring) (cs : list RagChunk) : list RagChunk :=
  match cs with
  | [] => []
  | c :: r =>
      let key := chunkKey c in
      if bool_decide (key ∈ seen) then dedupFilter seen r
      else c :: dedupFilter ({[key]} ∪ seen) r
  end.

Definition scoreOr0 (c : RagChunk) : number := nullish (rc_score c) PrimFloat.zero.

(** The comparator [(a, b) => (b.score ?? 0) - (a.score ?? 0)]. *)
Definition byScoreDesc (a b : RagChunk) : number :=
  PrimFloat.sub (scoreOr0 b) (scoreOr0 a).

(** [Array.prototype.sort] is stable: an element moves behind a later one
    only when the comparator is positive (a [NaN] counts as [+0]). *)
Fixpoint insertSorted {A} (cmp : A -> A -> number) (x : A) (l : list A) : list A :=
  match l with
  | [] => [x]
  | y :: r =>
      if PrimFloat.ltb PrimFloat.zero (cmp x y) then y :: insertSorted cmp x r
      else x :: y :: r
  end.

Definition sortBy {A} (cmp : A -> A -> number) (l : list A) : list A :=
  fold_right (insertSorted cmp) [] l.

(** Deduplicate by title or source and re-rank by score. *)
Definition rankChunks (chunksRaw : list RagChunk) : list RagChunk :=
  firstn 5 (sortBy byScoreDesc (dedupFilter ∅ chunksRaw)).

Definition toRetrievalItem (c : RagChunk) : RetrievalItem :=
  {| ri_id := rc_id c; ri_source := rc_source c; ri_title := rc_title c;
     ri_snippet := rc_snippet c; ri_score := rc_score c; ri_url := rc_url c |}.

(** ** Context packing *)

Definition systemPrompt : jsstring :=
  u "You are a helpful, precise assistant. Cite evidence concisely.".

Definition historyTokens (safeContent : jsstring) : Z :=
  Z.min (24 + Z.of_nat (length safeContent) / 3) 256.

Definition retrievalTokens (ch : RagChunk) : Z :=
  Z.min (60 + Z.of_nat (length (strOr (Some (rc_snippet ch)) [])) / 4) 200.

Definition packChunk (ch : RagChunk) : ContextWindowItem :=
  {| cw_id := rc_id ch;
     cw_type := cw_retrieval;
     cw_text := u "[" ++ nullish (rc_title ch) (rc_source ch) ++ u "] " ++ rc_snippet ch;
     cw_tokens := Some (retrievalTokens ch);
     cw_origin := Some (rc_source ch) |}.

(** The array [contextItems], given the two identifiers drawn for its
    first two items. *)
Definition contextItems (idSystem idHistory : jsstring) (safeContent : jsstring)
    (rag : RagContext) : list ContextWindowItem :=
  {| cw_id := idSystem; cw_type := cw_system; cw_text := systemPrompt;
     cw_tokens := Some 16%Z; cw_origin := Some (u "system") |}
  :: {| cw_id := idHistory; cw_type := cw_history;
        cw_text := u "User: " ++ safeContent;
        cw_tokens := Some (historyTokens safeContent);
        cw_origin := Some (u "user") |}
  :: map packChunk (firstn 3 (rag_chunks rag)).

(** ** Simulated model call *)

(** [contextItems.reduce((acc, it) => acc + (it.tokens ?? 50), 0)] *)
Definition promptTokens (items : list ContextWindowItem) : Z :=
  fold_left (fun acc it => (acc + nullish (cw_tokens it) 50)%Z) items 0%Z.

Definition mockParams : gmap jsstring number :=
  <[u "temperature" := 0.3%float]>
    (<[u "max_tokens" := Z2num 512]> (<[u "top_p" := 1.0%float]> ∅)).

Definition mockLlmInfo (latency : Z) (items : list ContextWindowItem) : ModelCallInfo :=
  let promptTokens := promptTokens items in
  {| mci_model := u "mock-gpt-4o-mini";
     mci_params := Some mockParams;
     mci_latencyMs := Some (Z2num latency);
     mci_tokens := Some {| tok_prompt := Some (Z2num promptTokens);
                           tok_completion := Some (Z2num 160);
                           tok_total := Some (Z2num (promptTokens + 160)) |} |}.

(** ** [generateReplyTailored] *)

Definition bulletLine (c : RagChunk) : jsstring :=
  BULLET :: u " " ++ nullish (rc_title c) (rc_source c) ++ u ": " ++ rc_snippet c.

Definition generateReplyTailored (userText : jsstring) (rag : RagContext)
    (agentId : jsstring) : jsstring :=
  let ask := trim (strOr (Some userText) []) in
  let bullets := joinLines (map bulletLine (firstn 3 (rag_chunks rag))) in
  let preface :=
    if eqStr agentId (u "planner") then u "Plan of action"
    else if eqStr agentId (u "researcher") then u "Evidence-based findings"
    else u "Synthesis" in
  let styleHint :=
    if eqStr agentId (u "planner") then u "I will outline steps and responsibilities."
    else if eqStr agentId (u "researcher") then u "I will emphasize sources and confidence."
    else u "I will keep the explanation concise and practical." in
  let caveat :=
    u "If additional precision is required, please provide constraints, expected format, or target audience." in
  preface ++ u " for your request: " ++ [QUOTE] ++ ask ++ [QUOTE; LF; LF]
  ++ u "Key evidence:" ++ [LF]
  ++ strOr (Some bullets) (BULLET :: u " (no retrieved evidence available)") ++ [LF; LF]
  ++ styleHint ++ [LF]
  ++ u "Answer:" ++ [LF]
  ++ u "Based on the retrieved context, here is a grounded response tailored to your query. Where appropriate, I cite evidence from the items above and avoid speculation."
  ++ [LF; LF] ++ caveat.

(** ** Normalisation of the backend's numeric fields *)

Section WithHost.

Variable h : Host.

(** [Number(v)] *)
Definition Number (v : JsVal) : number :=
  match v with
  | JUndefined => PrimFloat.nan
  | JNull => PrimFloat.zero
  | JBool true => PrimFloat.one
  | JBool false => PrimFloat.zero
  | JNum n => n
  | JStr s => StringToNumber h s
  | JObject primitive => StringToNumber h primitive
  end.

Definition toNumberOrUndefined (v : JsVal) : option number :=
  let n := Number v in
  if isFinite n && negb (isNaN n) then Some n else None.

(** [out[k] = n] on an object literal: the name [__proto__] reaches the
    setter that [Object.prototype] has for it, which ignores a number,
    so no property is created; every other name becomes a property of
    [out]. *)
Definition assignNumber (k : jsstring) (n : number) (out : gmap jsstring number)
  : gmap jsstring number :=
  if eqStr k (u "__proto__") then out else <[k := n]> out.

(** [obj] holds the own properties of the record, as [Object.keys]
    lists them. *)
Definition toNumberRecord (obj : option (gmap jsstring JsVal))
  : option (gmap jsstring number) :=
  match obj with
  | None => None
  | Some o =>
      let out :=
        map_fold (fun k val (out : gmap jsstring number) =>
                    let n := Number val in
                    if isFinite n && negb (isNaN n) then assignNumber k n out else out)
                 ∅ o in
      if Nat.eqb (size out) 0 then None else Some out
  end.


(** The metadata stored with the reply to a backend answer. *)
Definition normLlm (llm : option LlmModelInfo) : option ModelCallInfo :=
  match llm with
  | None => None
  | Some l =>
      Some {| mci_model := lm_model l;
              mci_params := toNumberRecord (lm_params l);
              mci_tokens :=
                Some {| tok_prompt :=
                          toNumberOrUndefined
                            (match lm_tokens l with Some t => lt_prompt t | None => JUndefined end);
                        tok_completion :=
                          toNumberOrUndefined
                            (match lm_tokens l with Some t => lt_completion t | None => JUndefined end);
                        tok_total :=
                          toNumberOrUndefined
                            (match lm_tokens l with Some t => lt_total t | None => JUndefined end) |};
              mci_latencyMs := toNumberOrUndefined (lm_latencyMs l) |}
  end.

(** ** Identifiers and clock *)

(** [this.uuid()] *)
Definition uuid : M jsstring :=
  fun w => (uuidOf h (uuidCount w), setUuidCount (S (uuidCount w)) w).

(** [Date.now()] *)
Definition dateNow : M Z :=
  fun w => (timeAt h (clockCount w), setClockCount (S (clockCount w)) w).

(** [new Date().toISOString()] *)
Definition nowISO : M jsstring :=
  t <- dateNow ;; ret (toISOString h t).

End WithHost.

Section ChatService.

Variable h : Host.

Abbreviation uuid := (uuid h).
Abbreviation nowISO := (nowISO h).
Abbreviation dateNow := (dateNow h).

Definition ICON_PLANNER : jsstring := [55358; 56813].
Definition ICON_RESEARCHER : jsstring := [55357; 56590].
Definition ICON_WRITER : jsstring := [9997; 65039].
Definition ICON_BACKEND : jsstring := [55357; 57056; 65039].

Definition plannerActor : ProtocolActor :=
  {| actor_id := u "planner"; actor_name := u "Planner"; actor_icon := Some ICON_PLANNER |}.
Definition researcherActor : ProtocolActor :=
  {| actor_id := u "researcher"; actor_name := u "Researcher";
     actor_icon := Some ICON_RESEARCHER |}.
Definition writerActor : ProtocolActor :=
  {| actor_id := u "writer"; actor_name := u "Writer"; actor_icon := Some ICON_WRITER |}.
Definition backendActor : ProtocolActor :=
  {| actor_id := u "backend"; actor_name := u "Backend"; actor_icon := Some ICON_BACKEND |}.

(** The field initialiser of [agents]. *)
Definition initialAgents : list AgentSummary :=
  [ {| ag_id := u "planner"; ag_name := u "Planner";
       ag_description := u "Decomposes tasks and orchestrates sub-agents.";
       ag_icon := ICON_PLANNER;
       ag_expertise := [u "Planning"; u "Decomposition"; u "Coordination"];
       ag_state := {| status := idle; state_note := None |} |};
    {| ag_id := u "researcher"; ag_name := u "Researcher";
       ag_description := u "Finds and ranks relevant information from knowledge sources.";
       ag_icon := ICON_RESEARCHER;
       ag_expertise := [u "RAG"; u "Ranking"; u "Summarization"];
       ag_state := {| status := idle; state_note := None |} |};
    {| ag_id := u "writer"; ag_name := u "Writer";
       ag_description := u "Crafts articulate, context-aware responses.";
       ag_icon := ICON_WRITER;
       ag_expertise := [u "Writing"; u "Synthesis"; u "Clarity"];
       ag_state := {| status := idle; state_note := None |} |} ].

(** The services as constructed: no timeline, the three agents idle, the
    welcome conversation [conv-1] active. *)
Definition initialWorld : World :=
  {| protocols := ∅;
     agents := initialAgents;
     conversations :=
       [ {| conv_id := u "conv-1"; conv_title := u "Welcome";
            conv_createdAt := toISOString h (timeAt h 0);
            conv_updatedAt := toISOString h (timeAt h 1);
            conv_agentId := u "planner";
            conv_messages :=
              [ {| msg_id := uuidOf h 0; msg_role := agent;
                   msg_content :=
                     u "Hello! I am your multi-agent assistant. How can we help today?";
                   msg_timestamp := toISOString h (timeAt h 2);
                   msg_agentId := Some (u "planner");
                   msg_context := None; msg_llm := None;
                   msg_protocolTurnId := None |} ] |} ];
     activeConversationId := u "conv-1";
     activeAgentId := u "planner";
     uuidCount := 1;
     clockCount := 3 |}.

(** The callback of [map] in [setAgentState]. *)
Definition withAgentState (agentId : jsstring) (st : AgentStatus)
    (note : option jsstring) (a : AgentSummary) : AgentSummary :=
  if eqStr (ag_id a) agentId
  then {| ag_id := ag_id a; ag_name := ag_name a;
          ag_description := ag_description a; ag_icon := ag_icon a;
          ag_expertise := ag_expertise a;
          ag_state := {| status := st; state_note := note |} |}
  else a.

(** [setAgentState] *)
Definition setAgentState (agentId : jsstring) (st : AgentStatus)
    (note : option jsstring) : M unit :=
  modify (fun w => setAgents (map (withAgentState agentId st note) (agents w)) w).

(** The callback of [map] in [pushMessage], over the conversations in
    order: the clock is read for each conversation that takes the
    message. *)
Fixpoint pushInto (convId : jsstring) (message : Message) (cs : list Conversation)
  : M (list Conversation) :=
  match cs with
  | [] => ret []
  | c :: rest =>
      c' <- (if eqStr (conv_id c) convId
             then now <- nowISO ;;
                  ret {| conv_id := conv_id c; conv_title := conv_title c;
                         conv_createdAt := conv_createdAt c;
                         conv_updatedAt := now;
                         conv_agentId := conv_agentId c;
                         conv_messages := conv_messages c ++ [message] |}
             else ret c) ;;
      rest' <- pushInto convId message rest ;;
      ret (c' :: rest')
  end.

(** [pushMessage] *)
Definition pushMessage (convId : jsstring) (message : Message) : M unit :=
  cs <- gets conversations ;;
  list <- pushInto convId message cs ;;
  modify (setConversations list).

(** The callback of [map] in [setActiveAgent]. *)
Fixpoint assignAgent (active agentId : jsstring) (cs : list Conversation)
  : M (list Conversation) :=
  match cs with
  | [] => ret []
  | c :: rest =>
      c' <- (if eqStr (conv_id c) active
             then now <- nowISO ;;
                  ret {| conv_id := conv_id c; conv_title := conv_title c;
                         conv_createdAt := conv_createdAt c;
                         conv_updatedAt := now;
                         conv_agentId := agentId;
                         conv_messages := conv_messages c |}
             else ret c) ;;
      rest' <- assignAgent active agentId rest ;;
      ret (c' :: rest')
  end.

(** [setActiveAgent] *)
Definition setActiveAgent (agentId : jsstring) : M unit :=
  modify (setActiveAgentId agentId) ;;;
  cs <- gets conversations ;;
  active <- gets activeConversationId ;;
  convs <- assignAgent active agentId cs ;;
  modify (setConversations convs).

(** [newConversation] *)
Definition newConversation (title : jsstring) : M jsstring :=
  id <- uuid ;;
  now <- nowISO ;;
  agentId <- gets activeAgentId ;;
  let conv := {| conv_id := id; conv_title := title; conv_createdAt := now;
                 conv_updatedAt := now; conv_agentId := agentId;
                 conv_messages := [] |} in
  modify (fun w => setConversations (conv :: conversations w) w) ;;;
  modify (setActiveConversationId id) ;;;
  ret id.

(** ** [mockRag] *)

Definition baseChunk (id : jsstring) (source title snippet : String.string)
    (score : number) : RagChunk :=
  {| rc_id := id; rc_source := u source; rc_title := Some (u title);
     rc_snippet := u snippet; rc_score := Some score; rc_url := Some (u "#") |}.

(** The callback of [base.map((c, i) => ...)]. *)
Definition echoChunk (q : jsstring) (i : nat) (c : RagChunk) : RagChunk :=
  {| rc_id := rc_id c; rc_source := rc_source c; rc_title := rc_title c;
     rc_snippet :=
       rc_snippet c ++ u " [q:" ++ slice0 48 q
       ++ (if Nat.ltb 48 (length q) then [ELLIPSIS] else []) ++ u "]";
     rc_score :=
       match rc_score c with
       | Some s =>
           if truthyNum s
           then Some (toFixed2
                        (PrimFloat.sub s (PrimFloat.mul (Z2num (Z.of_nat i)) 0.025%float)))
           else None
       | None => None
       end;
     rc_url := rc_url c |}.

(** The constant [base] of [mockRag], given the four identifiers drawn
    for it. *)
Definition baseChunks (id0 id1 id2 id3 : jsstring) : list RagChunk :=
  [ baseChunk id0 "docs/guide.md" "RAG Overview"
      "RAG combines retrieval with generation to ground responses." 0.92%float;
    baseChunk id1 "blog/agents" "Agent Collaboration"
      "Planner, Researcher, and Writer coordinate to answer complex queries." 0.88%float;
    baseChunk id2 "kb/context" "Context Windows"
      "Efficient context packing improves factual grounding." 0.81%float;
    baseChunk id3 "kb/evaluation" "Answer Quality"
      "Grounded responses cite evidence and include caveats when needed." 0.77%float ].

Definition mockRag (query : jsstring) : M (list RagChunk) :=
  let q := trim (strOr (Some query) []) in
  id0 <- uuid ;;
  id1 <- uuid ;;
  id2 <- uuid ;;
  id3 <- uuid ;;
  let base := baseChunks id0 id1 id2 id3 in
  let echoed := imap (echoChunk q) base in
  ret echoed.

(** ** [applyBackendProtocol] *)

(** The private methods below are called by [sendMessage] only, with the
    turn identifier [tid] that it has drawn with [uuid]; a UUID is no
    name of [Object.prototype], so the calls of the store return (see
    [appendStep_eq] and [uuidOf_plain]) and their completion is not
    inspected. *)

(** [a || m()] where [m] has an effect. *)
Definition strOrM (a : option jsstring) (m : M jsstring) : M jsstring :=
  match a with
  | Some (c :: r) => ret (c :: r)
  | _ => m
  end.

Fixpoint applyBackendSteps (tid : jsstring) (ss : list BackendStep) : M unit :=
  match ss with
  | [] => ret tt
  | s :: rest =>
      id <- strOrM (bs_id s) uuid ;;
      at_ <- strOrM (bs_at s) nowISO ;;
      appendStep tid
        {| ps_id := id; ps_at := at_;
           ps_type := strOr (bs_type s) plan;
           ps_actor := nullish (bs_actor s) backendActor;
           ps_input := bs_input s; ps_output := bs_output s;
           ps_retrieval := bs_retrieval s;
           ps_contextWindow := bs_contextWindow s;
           ps_model := bs_model s; ps_note := bs_note s |} ;;;
      applyBackendSteps tid rest
  end.

Definition applyBackendProtocol (tid : jsstring) (res : LlmChatCompletionResponse) : M unit :=
  applyBackendSteps tid (res_protocol res).

(** ** [sendMessageMockPath] *)

Definition noIO : option ProtocolIO := None.

Definition textIO (t : jsstring) : option ProtocolIO :=
  Some {| io_text := Some t; io_fields := None |}.

Definition textFieldIO (t : jsstring) (k : jsstring) (n : nat) : option ProtocolIO :=
  Some {| io_text := Some t;
          io_fields := Some {[ k := JNum (Z2num (Z.of_nat n)) ]} |}.

(** The callback handed to [safeSetTimeout]: the simulated model call. *)
Definition mockGenerate (convId selectedAgentId safeContent tid : jsstring)
    (rag : RagContext) (items : list ContextWindowItem) (start : Z)
  : M (list Notification * Pending) :=
  setAgentState (u "planner") idle None ;;;
  setAgentState (u "researcher") idle None ;;;
  now <- dateNow ;;
  let latency := (now - start)%Z in
  let llmInfo := mockLlmInfo latency items in
  setAgentState (u "writer") responding (Some (u "Finalizing response" ++ [ELLIPSIS])) ;;;
  let replyText := generateReplyTailored safeContent rag selectedAgentId in
  rid <- uuid ;;
  rts <- nowISO ;;
  let reply :=
    {| msg_id := rid; msg_role := agent; msg_content := replyText;
       msg_timestamp := rts; msg_agentId := Some selectedAgentId;
       msg_context := Some rag; msg_llm := Some llmInfo;
       msg_protocolTurnId := Some tid |} in
  pushMessage convId reply ;;;
  sid <- uuid ;;
  sat <- nowISO ;;
  appendStep tid
    {| ps_id := sid; ps_at := sat; ps_type := generate;
       ps_actor := writerActor;
       ps_input := textFieldIO safeContent (u "packedItems") (length items);
       ps_output := textIO (msg_content reply);
       ps_retrieval := None; ps_contextWindow := None;
       ps_model := Some llmInfo;
       ps_note := Some (u "LLM produced grounded response informed by retrieval.") |} ;;;
  setAgentState (u "writer") idle None ;;;
  ret ([], Nothing).

(** The second [tap]: retrieval, ranking, packing, and the timer of the
    simulated model call. The observable then emits the user message and
    completes. *)
Definition mockRetrieveAndPack (convId selectedAgentId safeContent tid : jsstring)
    (userMsg : Message) (reformulated : jsstring)
  : M (list Notification * Pending) :=
  setAgentState (u "researcher") retrieving
    (Some (u "Searching knowledge base" ++ [ELLIPSIS])) ;;;
  let query := strOr (Some reformulated) safeContent in
  chunksRaw <- mockRag query ;;
  let chunks := rankChunks chunksRaw in
  nowISO_ <- nowISO ;;
  sid <- uuid ;;
  appendStep tid
    {| ps_id := sid; ps_at := nowISO_; ps_type := retrieve;
       ps_actor := researcherActor;
       ps_input := textIO query;
       ps_output := None;
       ps_retrieval := Some {| rb_query := query; rb_items := map toRetrievalItem chunks |};
       ps_contextWindow := None; ps_model := None;
       ps_note := Some (u "Retrieved " ++ natToString (length chunks)
                        ++ u " unique items after deduplication and ranking.") |} ;;;
  let rag := {| rag_query := query; rag_chunks := chunks; rag_usedAt := nowISO_ |} in
  setAgentState (u "researcher") responding
    (Some (u "Ranking and summarizing" ++ [ELLIPSIS])) ;;;
  idSystem <- uuid ;;
  idHistory <- uuid ;;
  let items := contextItems idSystem idHistory safeContent rag in
  pid <- uuid ;;
  pat <- nowISO ;;
  appendStep tid
    {| ps_id := pid; ps_at := pat; ps_type := pack;
       ps_actor := plannerActor;
       ps_input := None; ps_output := None; ps_retrieval := None;
       ps_contextWindow := Some items; ps_model := None;
       ps_note := Some (u "Packed system guidance, user input, and top retrievals (3) with token estimates.") |} ;;;
  setAgentState (u "writer") thinking (Some (u "Drafting response" ++ [ELLIPSIS])) ;;;
  start <- dateNow ;;
  let timer :=
    if hasSetTimeout h
    then Timer 900 (mockGenerate convId selectedAgentId safeContent tid rag items start)
    else Nothing in
  ret ([Next userMsg; Complete], timer).

(** The first [tap]: routing. *)
Definition mockRoute (convId selectedAgentId safeContent tid : jsstring)
    (userMsg : Message) (reformulated : jsstring)
  : M (list Notification * Pending) :=
  setAgentState (u "planner") retrieving
    (Some (u "Scoping and delegating" ++ [ELLIPSIS])) ;;;
  sid <- uuid ;;
  sat <- nowISO ;;
  appendStep tid
    {| ps_id := sid; ps_at := sat; ps_type := route;
       ps_actor := plannerActor;
       ps_input := None;
       ps_output := textIO (u "Delegate retrieval to Researcher and writing to Writer.");
       ps_retrieval := None; ps_contextWindow := None; ps_model := None;
       ps_note := Some (u "Planner routed subtasks to agents.") |} ;;;
  ret ([], Timer 400
             (mockRetrieveAndPack convId selectedAgentId safeContent tid userMsg reformulated)).

Definition sendMessageMockPath (convId selectedAgentId safeContent tid : jsstring)
    (userMsg : Message) : M Observable :=
  setAgentState (u "planner") thinking (Some (u "Analyzing task" ++ [ELLIPSIS])) ;;;
  let reformulated := rewriteQueryForRetrieval safeContent in
  sid <- uuid ;;
  sat <- nowISO ;;
  appendStep tid
    {| ps_id := sid; ps_at := sat; ps_type := plan;
       ps_actor := plannerActor;
       ps_input := textFieldIO safeContent (u "originalLength") (length safeContent);
       ps_output :=
         textIO (u "Plan: retrieve " ++ [BULLET] ++ u " pack " ++ [BULLET]
                 ++ u " generate. Reformulated query: " ++ [QUOTE] ++ reformulated ++ [QUOTE]);
       ps_retrieval := None; ps_contextWindow := None; ps_model := None;
       ps_note := Some (u "Planner refined the query to improve retrieval.") |} ;;;
  ret (ret ([], Timer 400
                  (mockRoute convId selectedAgentId safeContent tid userMsg reformulated))).

(** ** [LlmClientService] *)

(** [isConfigured] *)
Definition isConfigured : bool :=
  match LLM_API_URL h with
  | [] => false
  | _ :: _ => true
  end.

(** The [map] of [chatCompletions]: required fields are filled in, the
    numeric fields are passed on as they are. *)
Definition normalizeBody (res : option HttpBody) : LlmChatCompletionResponse :=
  {| res_content :=
       match res with
       | Some b => nullish (body_content b) []
       | None => []
       end;
     res_context := match res with Some b => body_context b | None => None end;
     res_llm :=
       match res with
       | Some b =>
           match body_llm b with
           | Some l =>
               Some {| lm_model := lm_model l; lm_params := lm_params l;
                       lm_tokens := lm_tokens l; lm_latencyMs := lm_latencyMs l |}
           | None => None
           end
       | None => None
       end;
     res_protocol :=
       match res with
       | Some b => nullish (body_protocol b) []
       | None => []
       end |}.

Definition notConfiguredError : TransportError :=
  {| err_message := Some (u "LLM backend not configured");
     err_string := u "Error: LLM backend not configured" |}.

(** ** [sendMessage] *)

Definition backendRequest (selectedAgentId safeContent : jsstring)
  : LlmChatCompletionRequest :=
  {| req_messages := [ (u "system", systemPrompt); (u "user", safeContent) ];
     req_agentId := Some selectedAgentId;
     req_params :=
       <[u "temperature" := JNum 0.3%float]>
         (<[u "max_tokens" := JNum (Z2num 512)]> (<[u "top_p" := JNum 1.0%float]> ∅));
     req_rag_enable := true;
     req_rag_k := 5 |}.

(** The two [tap]s on a backend answer. *)
Definition onBackendAnswer (convId selectedAgentId tid : jsstring) (userMsg : Message)
    (res : LlmChatCompletionResponse) : M (list Notification * Pending) :=
  applyBackendProtocol tid res ;;;
  let norm := normLlm h (res_llm res) in
  rid <- uuid ;;
  rts <- nowISO ;;
  let reply :=
    {| msg_id := rid; msg_role := agent;
       msg_content := strOr (Some (res_content res)) (u "(no content)");
       msg_timestamp := rts; msg_agentId := Some selectedAgentId;
       msg_context := res_context res; msg_llm := norm;
       msg_protocolTurnId := Some tid |} in
  pushMessage convId reply ;;;
  setAgentState (u "planner") idle None ;;;
  ret ([Next userMsg; Complete], Nothing).

(** The handler of [catchError]: the error step, then the mock path,
    whose observable takes the place of the failed one. *)
Definition onBackendError (convId selectedAgentId safeContent tid : jsstring)
    (userMsg : Message) (err : TransportError) : M (list Notification * Pending) :=
  sid <- uuid ;;
  sat <- nowISO ;;
  appendStep tid
    {| ps_id := sid; ps_at := sat; ps_type := error_;
       ps_actor := backendActor;
       ps_input := None; ps_output := None; ps_retrieval := None;
       ps_contextWindow := None; ps_model := None;
       ps_note := Some (u "Backend error: " ++ strOr (err_message err) (err_string err)) |} ;;;
  obs <- sendMessageMockPath convId selectedAgentId safeContent tid userMsg ;;
  obs.

(** [sendMessage]: the turn identifier is drawn with [uuid]. *)
Definition sendMessage (content : jsstring) : M Observable :=
  convId <- gets activeConversationId ;;
  active <- gets activeAgentId ;;
  let selectedAgentId := strOr (Some active) (u "writer") in
  let safeContent := sanitize content in
  tid <- uuid ;;
  addProtocol tid ;;;
  mid <- uuid ;;
  mts <- nowISO ;;
  let userMsg :=
    {| msg_id := mid; msg_role := user; msg_content := safeContent;
       msg_timestamp := mts; msg_agentId := None; msg_context := None;
       msg_llm := None; msg_protocolTurnId := Some tid |} in
  pushMessage convId userMsg ;;;
  if negb isConfigured
  then sendMessageMockPath convId selectedAgentId safeContent tid userMsg
  else
    start <- dateNow ;;
    setAgentState (u "planner") thinking (Some (u "Contacting backend" ++ [ELLIPSIS])) ;;;
    let req := backendRequest selectedAgentId safeContent in
    sid <- uuid ;;
    sat <- nowISO ;;
    appendStep tid
      {| ps_id := sid; ps_at := sat; ps_type := plan;
         ps_actor := plannerActor;
         ps_input := textIO safeContent;
         ps_output := textIO (u "Send to LLM backend with optional RAG.");
         ps_retrieval := None; ps_contextWindow := None; ps_model := None;
         ps_note := Some (u "Frontend delegated retrieval and generation to backend.") |} ;;;
    ret (if negb isConfigured
         then onBackendError convId selectedAgentId safeContent tid userMsg
                notConfiguredError
         else
           ret ([], Http req (fun outcome =>
                  match outcome with
                  | HttpResponded body =>
                      onBackendAnswer convId selectedAgentId tid userMsg (normalizeBody body)
                  | HttpFailed err =>
                      onBackendError convId selectedAgentId safeContent tid userMsg err
                  end))).

(** ** The event loop, for one turn *)

(** Run what the turn has pending until nothing is left; the subscriber's
    notifications are collected. *)
Fixpoint runPending (p : Pending) (w : World) : list Notification * World :=
  match p with
  | Nothing => ([], w)
  | Timer _ callback =>
      let '((ns, p'), w') := callback w in
      let '(ns', w'') := runPending p' w' in
      (ns ++ ns', w'')
  | Http req onResult =>
      let '((ns, p'), w') := onResult (httpPost h req) w in
      let '(ns', w'') := runPending p' w' in
      (ns ++ ns', w'')
  end.

(** The states of the services after each task of the turn. *)
Fixpoint tracePending (p : Pending) (w : World) : list World :=
  match p with
  | Nothing => []
  | Timer _ callback =>
      let '((_, p'), w') := callback w in
      w' :: tracePending p' w'
  | Http req onResult =>
      let '((_, p'), w') := onResult (httpPost h req) w in
      w' :: tracePending p' w'
  end.

(** [sendMessage(content).subscribe(...)] and everything it sets off. *)
Definition submit (content : jsstring) : M (list Notification) :=
  obs <- sendMessage content ;;
  sub <- obs ;;
  fun w => let '(ns, w') := runPending (snd sub) w in (fst sub ++ ns, w').

(** The states after the call and subscription, and after each later
    task. *)
Definition submitTrace (content : jsstring) (w : World) : list World :=
  let '(obs, w1) := sendMessage content w in
  let '(sub, w2) := obs w1 in
  w2 :: tracePending (snd sub) w2.

End ChatService.

(* ===================================================================== *)
(** * The other members of the services *)
(* ===================================================================== *)

(** ** ChatService: what it hands out *)

(** [getAgents] *)
Definition getAgents : M (list AgentSummary) := gets agents.

(** [watchActiveAgent]: the observable emits the agent found when it is
    called, and completes. *)
Definition watchActiveAgent : M (option AgentSummary) :=
  gets (fun w => List.find (fun a => eqStr (ag_id a) (activeAgentId w)) (agents w)).

(** What [watchActiveConversation] emits for the current list of
    conversations. *)
Definition watchActiveConversation : M (option Conversation) :=
  gets (fun w => List.find (fun c => eqStr (conv_id c) (activeConversationId w))
                   (conversations w)).

(** [generateReply], the legacy entry point. *)
Definition generateReply (userText : jsstring) (rag : RagContext) : jsstring :=
  generateReplyTailored userText rag (u "writer").

(** ** ChatService: the fallback of [uuid] *)

(** One hexadecimal digit, in lower case. *)
Definition hexDigit (v : Z) : N :=
  if (v <? 10)%Z then Z.to_N (48 + v) else Z.to_N (87 + v).

(** The hexadecimal digits of a non-negative integer, the most significant
    first; [fuel] bounds their number. *)
Fixpoint hexDigits (fuel : nat) (v : Z) (acc : jsstring) : jsstring :=
  match fuel with
  | O => acc
  | S f =>
      let acc' := hexDigit (v mod 16) :: acc in
      if (v / 16 =? 0)%Z then acc' else hexDigits f (v / 16) acc'
  end.

(** [v.toString(16)] for a 32-bit integer [v], which has at most eight
    hexadecimal digits. *)
Definition toString16 (v : Z) : jsstring :=
  if (v <? 0)%Z then 45 :: hexDigits 8 (- v) [] else hexDigits 8 v [].

(** [template.replace(/[xy]/g, c => ...)] of the fallback of [uuid]:
    [r n] is the value of [Math.random() * 16 | 0] at the [n]-th
    replacement. *)
Fixpoint fillTemplate (r : nat -> Z) (n : nat) (template : jsstring) : jsstring :=
  match template with
  | [] => []
  | c :: rest =>
      if (c =? 120) || (c =? 121)
      then
        let v := if c =? 120 then r n else Z.lor (Z.land (r n) 3) 8 in
        toString16 v ++ fillTemplate r (S n) rest
      else c :: fillTemplate r n rest
  end.

(** The fallback of [ChatService.uuid], taken when [crypto.randomUUID] is
    not available. *)
Definition uuidFallback (r : nat -> Z) : jsstring :=
  fillTemplate r 0 (u "xxxxxxxx-xxxx-4xxx-yxxx-xxxxxxxxxxxx").

(** ** LlmClientService: [composeUrl] *)

(** The unit of the slash. *)
Definition SLASH : N := 47.

(** [s.replace(/^\/+/, '')]: the run of slashes at the start is removed. *)
Fixpoint dropLeadingSlashes (s : jsstring) : jsstring :=
  match s with
  | [] => []
  | c :: r => if c =? SLASH then dropLeadingSlashes r else s
  end.

(** [s.replace(/\/+$/, '')]: the first match of the expression is the run
    of slashes that reaches the end of the string. *)
Fixpoint dropTrailingSlashes (s : jsstring) : jsstring :=
  match s with
  | [] => []
  | c :: r =>
      match dropTrailingSlashes r with
      | [] => if c =? SLASH then [] else [c]
      | r' => c :: r'
      end
  end.

(** [LlmClientService.composeUrl] *)
Definition composeUrl (base path : jsstring) : jsstring :=
  let b := dropTrailingSlashes base in
  let p := dropLeadingSlashes path in
  b ++ [SLASH] ++ p.

(* ===================================================================== *)
(** * The pages (chat-page.component.ts, qa-page.component.ts) *)
(* ===================================================================== *)

(** The pages subscribe to the observable of [sendMessage]; their
    handlers run when a notification is delivered. *)

(** What the turn has pending, run to its end as [runPending] does, with
    every notification paired with the state of the services at the
    moment the subscriber receives it: the callback that emits it has
    run, the later tasks have not. *)
Fixpoint observePending (h : Host) (p : Pending) (w : World)
  : list (Notification * World) * World :=
  match p with
  | Nothing => ([], w)
  | Timer _ callback =>
      let '((ns, p'), w') := callback w in
      let '(obs, w'') := observePending h p' w' in
      (map (fun n => (n, w')) ns ++ obs, w'')
  | Http req onResult =>
      let '((ns, p'), w') := onResult (httpPost h req) w in
      let '(obs, w'') := observePending h p' w' in
      (map (fun n => (n, w')) ns ++ obs, w'')
  end.

(** [sendMessage(content).subscribe(...)] as seen by the subscriber. *)
Definition submitObserved (h : Host) (content : jsstring) (w : World)
  : list (Notification * World) * World :=
  let '(obs, w1) := sendMessage h content w in
  let '(sub, w2) := obs w1 in
  let '(later, w3) := observePending h (snd sub) w2 in
  (map (fun n => (n, w2)) (fst sub) ++ later, w3).

(** Delivery to a subscriber with handler [on]: after [complete] or
    [error] nothing more is delivered. *)
Fixpoint deliver {S} (on : Notification -> World -> S -> S)
    (obs : list (Notification * World)) (s : S) : S :=
  match obs with
  | [] => s
  | (Next m, w) :: rest => deliver on rest (on (Next m) w s)
  | (n, w) :: _ => on n w s
  end.

(** A keyboard event, as far as the pages read it. *)
Record KeyEvent := { ctrlKey : bool; metaKey : bool; key : jsstring }.

(** ** ChatPageComponent *)

(** The fields of the page that [send] reads and writes. *)
Record ChatPage := { draft : jsstring; sending : bool }.

(** The subscriber that [send] hands to the observable. *)
Definition chatPageOn (n : Notification) (w : World) (p : ChatPage) : ChatPage :=
  match n with
  | Next _ => {| draft := []; sending := sending p |}
  | Complete => {| draft := draft p; sending := false |}
  | ErrorN _ => {| draft := draft p; sending := false |}
  end.

(** [send], with the turn it sets off run to its end. *)
Definition send (h : Host) (p : ChatPage) : M ChatPage :=
  fun w =>
    let text := trim (draft p) in
    if eqStr text [] || sending p then (p, w)
    else
      let p1 := {| draft := draft p; sending := true |} in
      let '(obs, w') := submitObserved h text w in
      (deliver chatPageOn obs p1, w').

(** [onKeydown] of the chat page. *)
Definition onKeydown (h : Host) (e : KeyEvent) (p : ChatPage) : M ChatPage :=
  if (ctrlKey e || metaKey e) && eqStr (key e) (u "Enter") then send h p else ret p.

(** [getProtocolSteps(turnId)] of the chat page. *)
Definition getProtocolSteps (turnId : jsstring) : M (list ProtocolStep) :=
  p <- get turnId ;;
  ret (match p with Own t => steps t | Inherited | Undefined => [] end).

(** [getLastProtocolTurnId], for the conversation the page shows. *)
Definition getLastProtocolTurnId (activeConversation : option Conversation)
  : option jsstring :=
  match activeConversation with
  | None => None
  | Some c =>
      match last (conv_messages c) with
      | None => None
      | Some m => msg_protocolTurnId m
      end
  end.

(** ** QaPageComponent *)

(** The fields of the page. *)
Record QaPage := {
  question : jsstring;
  qa_sending : bool;
  lastTurnId : option jsstring;
  answerMsg : option Message
}.

(** [[...messages].reverse().find(m => m.role === 'agent')] *)
Definition lastAgentMessage (ms : list Message) : option Message :=
  List.find (fun m => match msg_role m with agent => true | _ => false end) (rev ms).

(** [resolveLatestAssistantReply]: the value of [answerMsg] it sets. *)
Definition resolveLatestAssistantReply (w : World) : option Message :=
  match fst (watchActiveConversation w) with
  | None => None
  | Some activeConv => lastAgentMessage (conv_messages activeConv)
  end.

(** The subscriber that [ask] hands to the observable. *)
Definition qaPageOn (n : Notification) (w : World) (p : QaPage) : QaPage :=
  match n with
  | Next userMsg =>
      {| question := []; qa_sending := qa_sending p;
         lastTurnId := msg_protocolTurnId userMsg;
         answerMsg := resolveLatestAssistantReply w |}
  | Complete =>
      {| question := question p; qa_sending := false;
         lastTurnId := lastTurnId p; answerMsg := answerMsg p |}
  | ErrorN _ =>
      {| question := question p; qa_sending := false;
         lastTurnId := lastTurnId p; answerMsg := answerMsg p |}
  end.

(** [ask], with the turn it sets off run to its end. *)
Definition ask (h : Host) (p : QaPage) : M QaPage :=
  fun w =>
    let q := trim (question p) in
    if eqStr q [] || qa_sending p then (p, w)
    else
      let p1 := {| question := question p; qa_sending := true;
                   lastTurnId := lastTurnId p; answerMsg := answerMsg p |} in
      let '(obs, w') := submitObserved h q w in
      (deliver qaPageOn obs p1, w').


(* ===================================================================== *)
(** * Observations and specification-level definitions *)
(* ===================================================================== *)

(** What the properties below speak about: what can be read off a state
    of the services, what a run leaves behind, and the wording of the
    specification where it is compared with the code. *)

(** The steps recorded for a turn (none when the turn has no timeline). *)
Definition timeline (tid : jsstring) (w : World) : list ProtocolStep :=
  match protocols w !! tid with
  | Some p => steps p
  | None => []
  end.

Definition timelineId (tid : jsstring) (w : World) : jsstring :=
  match protocols w !! tid with
  | Some p => turnId p
  | None => tid
  end.

(** The kinds of the steps recorded for a turn. *)
Definition kinds (tid : jsstring) (w : World) : list jsstring :=
  map ps_type (timeline tid w).

Definition localKinds : list jsstring := [plan; route; retrieve; pack; generate].

(** The message lists of the conversations with a given identifier. *)
Definition messagesIn (cid : jsstring) (w : World) : list (list Message) :=
  map conv_messages (List.filter (fun c => eqStr (conv_id c) cid) (conversations w)).

(** What [pushInto] computes, as a function of the clock count. *)
Fixpoint pushedInto (h : Host) (convId : jsstring) (message : Message)
    (cs : list Conversation) (n : nat) : list Conversation * nat :=
  match cs with
  | [] => ([], n)
  | c :: rest =>
      if eqStr (conv_id c) convId
      then ({| conv_id := conv_id c; conv_title := conv_title c;
               conv_createdAt := conv_createdAt c;
               conv_updatedAt := toISOString h (timeAt h n);
               conv_agentId := conv_agentId c;
               conv_messages := conv_messages c ++ [message] |}
              :: fst (pushedInto h convId message rest (S n)),
            snd (pushedInto h convId message rest (S n)))
      else (c :: fst (pushedInto h convId message rest n),
            snd (pushedInto h convId message rest n))
  end.

(** What [mockRag] returns when [n] identifiers have been drawn. *)
Definition corpus (h : Host) (query : jsstring) (n : nat) : list RagChunk :=
  imap (echoChunk (trim (strOr (Some query) [])))
    (baseChunks (uuidOf h n) (uuidOf h (S n)) (uuidOf h (S (S n))) (uuidOf h (S (S (S n))))).

(** The steps [applyBackendSteps] appends, with the identifier and clock
    counts it leaves. *)
Fixpoint backendSteps (h : Host) (ss : list BackendStep) (un cn : nat)
  : list ProtocolStep * (nat * nat) :=
  match ss with
  | [] => ([], (un, cn))
  | s :: rest =>
      let '(id, un1) := match bs_id s with
                        | Some (c :: r) => (c :: r, un)
                        | _ => (uuidOf h un, S un)
                        end in
      let '(at_, cn1) := match bs_at s with
                         | Some (c :: r) => (c :: r, cn)
                         | _ => (toISOString h (timeAt h cn), S cn)
                         end in
      let step := {| ps_id := id; ps_at := at_;
                     ps_type := strOr (bs_type s) plan;
                     ps_actor := nullish (bs_actor s) backendActor;
                     ps_input := bs_input s; ps_output := bs_output s;
                     ps_retrieval := bs_retrieval s;
                     ps_contextWindow := bs_contextWindow s;
                     ps_model := bs_model s; ps_note := bs_note s |} in
      (step :: fst (backendSteps h rest un1 cn1), snd (backendSteps h rest un1 cn1))
  end.

(** An agent with its state replaced. *)
Definition inState (a : AgentSummary) (st : AgentStatus) (n : option jsstring)
  : AgentSummary :=
  {| ag_id := ag_id a; ag_name := ag_name a;
     ag_description := ag_description a; ag_icon := ag_icon a;
     ag_expertise := ag_expertise a;
     ag_state := {| status := st; state_note := n |} |}.

(** The state in which a turn leaves the agents: the three agents of the
    pipeline idle, the others as they were. *)
Definition settle (a : AgentSummary) : AgentSummary :=
  withAgentState (u "writer") idle None
    (withAgentState (u "researcher") idle None
       (withAgentState (u "planner") idle None a)).

(** The retrieval query of the mock path. *)
Definition retrievalQuery (safeContent : jsstring) : jsstring :=
  strOr (Some (rewriteQueryForRetrieval safeContent)) safeContent.

(** One stage of a turn: the states before and after it differ in the
    timeline of the turn, to which [added] was appended, and in nothing
    else of the timeline store. *)
Definition appended (tid : jsstring) (added : list ProtocolStep) (w w' : World) : Prop :=
  timeline tid w' = timeline tid w ++ added
  /\ (added <> [] -> is_Some (protocols w' !! tid))
  /\ (is_Some (protocols w !! tid) -> is_Some (protocols w' !! tid))
  /\ (forall other, other <> tid -> protocols w' !! other = protocols w !! other).

Definition startsWithSpace s : bool :=
  match s with c :: _ => isWhiteSpace c | [] => false end.

Definition noSpace (w : jsstring) : Prop := Forall (fun c => isWhiteSpace c = false) w.

Definition isSlugChar (c : N) : bool :=
  inRange 97 122 c || inRange 48 57 c || (c =? 45).

Definition reformulate_spec (text : jsstring) : jsstring :=
  joinSpace (firstn 10 (tokens (blankOthers (removeFillers O None (toLowerCase text))))).

(** [a] may stand before [b] in a list in descending order of score. *)
Definition scoreGe (a b : RagChunk) : Prop :=
  PrimFloat.leb (scoreOr0 b) (scoreOr0 a) = true.

(** A chunk whose score, when it has one, is a number. *)
Definition numericScore (c : RagChunk) : Prop := isNaN (scoreOr0 c) = false.

(** A floating-point value above zero. *)
Definition isPositive (r : SpecFloat.spec_float) : bool :=
  match r with
  | SpecFloat.S754_infinity false | SpecFloat.S754_finite false _ _ => true
  | _ => false
  end.

(** The comparator is consistent on the chunks of [l] and ranks them by
    score: its result is positive exactly when the score of the second
    chunk lies strictly above that of the first. This is so when every
    score is a number ([ranksByScore_numbers]). (A score that is [NaN]
    makes every difference [NaN] and the comparator inconsistent; the
    order in which [Array.prototype.sort] leaves the array is then up
    to the implementation.) *)
Definition ranksByScore (l : list RagChunk) : Prop :=
  forall a b, In a l -> In b l ->
    PrimFloat.ltb PrimFloat.zero (byScoreDesc a b)
    = negb (PrimFloat.leb (scoreOr0 b) (scoreOr0 a)).

(** A chunk whose title (or source, when it has no title) consists of
    code units of Basic Latin and Latin-1, for which the table of
    [lowerUnit] is the whole of [toLowerCase]. *)
Definition latin1Key (c : RagChunk) : Prop :=
  Forall (fun x => (x < 256)%N) (strOr (rc_title c) (strOr (Some (rc_source c)) [])).

(** [c] is the first chunk of [l] that has its key. *)
Definition firstOfKey (l : list RagChunk) (c : RagChunk) : Prop :=
  exists pre post,
    l = pre ++ c :: post /\ Forall (fun d => chunkKey d <> chunkKey c) pre.



(** The sum of the token estimates of the packed items, an item without
    estimate counting 50. *)
Definition sumTokens (items : list ContextWindowItem) : Z :=
  fold_right Z.add 0%Z (map (fun it => nullish (cw_tokens it) 50%Z) items).

(** The estimates of the packed items are clamped. *)
Definition clamped (items : list ContextWindowItem) : Prop :=
  exists sys hist rest,
    items = sys :: hist :: rest
    /\ cw_tokens sys = Some 16%Z
    /\ (exists t, cw_tokens hist = Some t /\ (24 <= t <= 256)%Z)
    /\ Forall (fun it => exists t, cw_tokens it = Some t /\ (60 <= t <= 200)%Z) rest
    /\ (length rest <= 3)%nat.

(** [a] stands directly before [b] in [l]. *)
Definition directlyBefore (a b : jsstring) (l : list jsstring) : Prop :=
  exists pre post, l = pre ++ a :: b :: post.

Definition selectedAgentOf (w : World) : jsstring :=
  strOr (Some (activeAgentId w)) (u "writer").

(** The request that [sendMessage] sends for a submission in state [w]. *)
Definition requestOf (content : jsstring) (w : World) : LlmChatCompletionRequest :=
  backendRequest (selectedAgentOf w) (sanitize content).

Section Observations.

Variable h : Host.





(** The mock path run to its end from the call on. *)
Definition runMockPath (convId agentId safeContent tid : jsstring) (userMsg : Message)
    (w : World) : list Notification * World :=
  let '(obs, w1) := sendMessageMockPath h convId agentId safeContent tid userMsg w in
  let '(sub, w2) := obs w1 in
  let '(ns, w3) := runPending h (snd sub) w2 in
  (fst sub ++ ns, w3).

(** What the local pipeline leaves behind when it has run to its end
    from [w] to [w']: the five steps it recorded and the reply it
    appended. *)
Definition localRun (convId agentId safeContent tid : jsstring) (w w' : World)
    (recorded : list ProtocolStep) (reply : Message) : Prop :=
  exists sPlan sRoute sRetr sPack sGen rag items latency,
    recorded = [sPlan; sRoute; sRetr; sPack; sGen]
    /\ appended tid recorded w w'
    /\ map ps_type recorded = [plan; route; retrieve; pack; generate]
    /\ ps_retrieval sRetr
       = Some {| rb_query := rag_query rag;
                 rb_items := map toRetrievalItem (rag_chunks rag) |}
    /\ rag_query rag = retrievalQuery safeContent
    /\ (exists n, rag_chunks rag = rankChunks (corpus h (retrievalQuery safeContent) n))
    /\ ps_contextWindow sPack = Some items
    /\ (exists idSystem idHistory,
          items = contextItems idSystem idHistory safeContent rag)
    /\ ps_model sGen = Some (mockLlmInfo latency items)
    /\ msg_llm reply = Some (mockLlmInfo latency items)
    /\ msg_role reply = agent
    /\ msg_content reply = generateReplyTailored safeContent rag agentId
    /\ msg_context reply = Some rag
    /\ msg_agentId reply = Some agentId
    /\ msg_protocolTurnId reply = Some tid
    /\ (forall cid, messagesIn cid w'
                    = if eqStr cid convId
                      then map (fun ms => ms ++ [reply]) (messagesIn cid w)
                      else messagesIn cid w)
    /\ agents w' = map settle (agents w).

(** The turn identifier, the conversation and the agent of a submission
    in state [w]. *)
Definition turnOf (w : World) : jsstring := uuidOf h (uuidCount w).

(** What [sendMessage] has done when it branches: the turn has a
    timeline and the user message [userMsg] is appended. *)
Definition received (content : jsstring) (w w0 : World) (userMsg : Message) : Prop :=
  appended (turnOf w) [] w w0
  /\ is_Some (protocols w0 !! turnOf w)
  /\ msg_role userMsg = user
  /\ msg_content userMsg = sanitize content
  /\ msg_protocolTurnId userMsg = Some (turnOf w)
  /\ (forall cid, messagesIn cid w0
                  = if eqStr cid (activeConversationId w)
                    then map (fun ms => ms ++ [userMsg]) (messagesIn cid w)
                    else messagesIn cid w)
  /\ agents w0 = agents w.

(** What the subscription to the observable of the remote path leaves
    pending. *)
Definition remotePending (convId agentId safeContent tid : jsstring) (userMsg : Message)
  : Pending :=
  Http (backendRequest agentId safeContent)
    (fun outcome =>
       match outcome with
       | HttpResponded body =>
           onBackendAnswer h convId agentId tid userMsg (normalizeBody body)
       | HttpFailed err =>
           onBackendError h convId agentId safeContent tid userMsg err
       end).

End Observations.

(** The backend is configured and the exchange for this submission
    fails. *)
Definition remoteFailed (h : Host) (content : jsstring) (w : World) : Prop :=
  isConfigured h = true
  /\ exists err, httpPost h (requestOf content w) = HttpFailed err.

(** The order of step kinds as the specification words it: on the local
    path the kinds, the error step set aside, are a subsequence of the
    five local kinds, and an error step stands directly before the
    route step exactly when the remote path was attempted and failed. *)
Definition claimedOrder (h : Host) (content : jsstring) (w : World) : Prop :=
  let ks := kinds (turnOf h w) (snd (submit h content w)) in
  (isConfigured h = false \/ remoteFailed h content w ->
   sublist (List.filter (fun k => negb (eqStr k error_)) ks) localKinds)
  /\ (directlyBefore error_ route ks <-> remoteFailed h content w).

(** The fallback as the specification words it: when the remote call
    fails, one error step of the actor [backend] is appended, then the
    local pipeline records its five steps and appends the reply of an
    agent, and the caller is told the user message and the completion. *)
Definition claimedFallback (h : Host) (content : jsstring) (w : World) : Prop :=
  remoteFailed h content w ->
  exists w' userMsg reply before sErr after,
    submit h content w = ([Next userMsg; Complete], w')
    /\ timeline (turnOf h w) w' = timeline (turnOf h w) w ++ before ++ [sErr] ++ after
    /\ ps_type sErr = error_
    /\ actor_id (ps_actor sErr) = u "backend"
    /\ Forall (fun s => ps_type s <> error_) (before ++ after)
    /\ map ps_type after = localKinds
    /\ msg_role reply = agent
    /\ (forall cid, messagesIn cid w'
                    = if eqStr cid (activeConversationId w)
                      then map (fun ms => ms ++ [userMsg; reply]) (messagesIn cid w)
                      else messagesIn cid w).

Definition timeoutError : TransportError :=
  {| err_message := Some (u "Timeout has occurred");
     err_string := u "TimeoutError: Timeout has occurred" |}.

(** A host for examples: identifiers [id-0], [id-1], ..., a clock that
    advances by a second at each reading, timers available. *)
Definition sampleHost (url : jsstring) (outcome : HttpOutcome) : Host :=
  {| uuidOf := fun n => u "id-" ++ natToString n;
     uuidOf_hyphen := fun n => or_intror (or_intror (or_introl eq_refl));
     timeAt := fun n => (1000 * Z.of_nat n)%Z;
     toISOString := fun z => u "t" ++ natToString (Z.to_nat z);
     StringToNumber := fun _ => PrimFloat.nan;
     hasSetTimeout := true;
     LLM_API_URL := url;
     httpPost := fun _ => outcome |}.

Definition offlineHost : Host := sampleHost [] (HttpResponded None).

Definition failingHost : Host :=
  sampleHost (u "https://llm.example") (HttpFailed timeoutError).

(** The host [h] without [setTimeout]. *)
Definition untimed (h : Host) : Host :=
  {| uuidOf := uuidOf h; uuidOf_hyphen := uuidOf_hyphen h;
     timeAt := timeAt h; toISOString := toISOString h;
     StringToNumber := StringToNumber h;
     hasSetTimeout := false;
     LLM_API_URL := LLM_API_URL h;
     httpPost := httpPost h |}.

(** ** Invariants and frames of the operations *)

(** A store in which every timeline is filed under its own turn id. *)
Definition keyed (w : World) : Prop :=
  forall k p, protocols w !! k = Some p -> turnId p = k.

(** A lower-case hexadecimal digit. *)
Definition isHex (c : N) : bool := inRange 48 57 c || inRange 97 102 c.

(** The agent that [sendMessage] takes for a selection. *)
Definition agentFor (agentId : jsstring) : jsstring :=
  match agentId with [] => u "writer" | _ :: _ => agentId end.

(** An agent that has nothing to do. *)
Definition resting : AgentState := {| status := idle; state_note := None |}.

(** An agent of the roster apart from its state. *)
Definition sameIdentity (a a' : AgentSummary) : Prop :=
  ag_id a' = ag_id a /\ ag_name a' = ag_name a
  /\ ag_description a' = ag_description a /\ ag_icon a' = ag_icon a
  /\ ag_expertise a' = ag_expertise a.

(** A conversation after messages were appended to it: a conversation
    with another identifier than [convId] is untouched. *)
Definition extendsConversation (convId : jsstring) (c c' : Conversation) : Prop :=
  conv_id c' = conv_id c /\ conv_title c' = conv_title c
  /\ conv_createdAt c' = conv_createdAt c /\ conv_agentId c' = conv_agentId c
  /\ (exists more, conv_messages c' = conv_messages c ++ more)
  /\ (conv_id c <> convId -> c' = c).

(** A conversation after [setActiveAgent]: the active one is handed to
    the agent, another one is untouched. *)
Definition reassigned (active agentId : jsstring) (c c' : Conversation) : Prop :=
  conv_id c' = conv_id c /\ conv_title c' = conv_title c
  /\ conv_createdAt c' = conv_createdAt c /\ conv_messages c' = conv_messages c
  /\ (if eqStr (conv_id c) active then conv_agentId c' = agentId else c' = c).

(** The active conversation is one of the list. *)
Definition activeListed (w : World) : Prop :=
  exists c, In c (conversations w) /\ conv_id c = activeConversationId w.

(** What a turn with identifier [tid] in the conversation [convId] may
    change. *)
Definition turnFrame (tid convId : jsstring) (w w' : World) : Prop :=
  activeConversationId w' = activeConversationId w
  /\ activeAgentId w' = activeAgentId w
  /\ Forall2 sameIdentity (agents w) (agents w')
  /\ Forall2 (extendsConversation convId) (conversations w) (conversations w')
  /\ (forall other, other <> tid -> protocols w' !! other = protocols w !! other)
  /\ (exists more, timeline tid w' = timeline tid w ++ more)
  /\ (keyed w -> keyed w')
  /\ (uuidCount w <= uuidCount w')%nat
  /\ (clockCount w <= clockCount w')%nat.

(** A computation that relates the state it leaves to the state it
    starts from by [R] and returns a value with [Q]. *)
Definition yields {A} (R : World -> World -> Prop) (Q : A -> Prop) (m : M A) : Prop :=
  forall w, R w (snd (m w)) /\ Q (fst (m w)).

Definition respects {A} (R : World -> World -> Prop) (m : M A) : Prop :=
  yields R (fun _ => True) m.

(** Pending work all of whose tasks relate the state they leave to the
    state they start from by [R]. *)
Inductive settles (R : World -> World -> Prop) : Pending -> Prop :=
| settles_nothing : settles R Nothing
| settles_timer ms callback :
    (forall w, R w (snd (callback w))) ->
    (forall w, settles R (snd (fst (callback w)))) ->
    settles R (Timer ms callback)
| settles_http req onResult :
    (forall outcome w, R w (snd (onResult outcome w))) ->
    (forall outcome w, settles R (snd (fst (onResult outcome w)))) ->
    settles R (Http req onResult).

(** ** Inputs for examples *)

(** A host whose backend answers every request with [body]. *)
Definition answeringHost (body : option HttpBody) : Host :=
  sampleHost (u "https://llm.example") (HttpResponded body).

(** Raw chunks for examples: two share the key [alpha], one has no
    score, and six keys are left after deduplication. *)
Definition sampleChunk (id title : String.string) (score : option number) : RagChunk :=
  {| rc_id := u id; rc_source := u "kb"; rc_title := Some (u title);
     rc_snippet := []; rc_score := score; rc_url := None |}.

Definition sampleChunks : list RagChunk :=
  [ sampleChunk "c1" "Alpha" (Some 0.5%float);
    sampleChunk "c2" "alpha" (Some 0.9%float);
    sampleChunk "c3" "Beta" None;
    sampleChunk "c4" "Gamma" (Some 0.7%float);
    sampleChunk "c5" "Delta" (Some 0.2%float);
    sampleChunk "c6" "Epsilon" (Some 0.6%float);
    sampleChunk "c7" "Zeta" (Some 0.1%float) ].

(** A step for examples. *)
Definition sampleStep : ProtocolStep :=
  {| ps_id := u "s-1"; ps_at := u "t0"; ps_type := tool; ps_actor := backendActor;
     ps_input := None; ps_output := None; ps_retrieval := None;
     ps_contextWindow := None; ps_model := None; ps_note := None |}.

(** A body for examples: content only. *)
Definition sampleBody : HttpBody :=
  {| body_content := Some (u "RAG grounds answers in retrieved text.");
     body_context := None; body_llm := None; body_protocol := None |}.

(** A question page on which a question has been typed. *)
Definition samplePage : QaPage :=
  {| question := u " What is RAG? "; qa_sending := false;
     lastTurnId := None; answerMsg := None |}.

(* ===================================================================== *)
(** * Properties *)
(* ===================================================================== *)

Section WhitespaceTokens.

Implicit Types (s r : jsstring) (c d : N).

Lemma tokens_nonempty s : Forall (fun w => w <> []) (tokens s).
Proof.
  induction s as [|c r IH]; cbn; [constructor|].
  destruct (isWhiteSpace c); [exact IH|].
  destruct r as [|d r']; [repeat constructor; discriminate|].
  destruct (isWhiteSpace d).
  - constructor; [discriminate|exact IH].
  - destruct (tokens (d :: r')) as [|w ws]; [repeat constructor; discriminate|].
    inversion IH; subst. constructor; [discriminate|assumption].
Qed.

Lemma joinSpace_cons_nonempty w ws : w <> [] -> joinSpace (w :: ws) <> [].
Proof. destruct w; [congruence|]. destruct ws; cbn; discriminate. Qed.

Lemma joinSpace_tokens_nil s : joinSpace (tokens s) = [] -> tokens s = [].
Proof.
  pose proof (tokens_nonempty s) as H.
  destruct (tokens s) as [|w ws]; [reflexivity|].
  inversion H; subst. intros E. exfalso. eapply joinSpace_cons_nonempty; eauto.
Qed.

Lemma trimEnd_cons_word c s : isWhiteSpace c = false -> trimEnd (c :: s) = c :: trimEnd s.
Proof. intros H. cbn. rewrite H. destruct (trimEnd s); reflexivity. Qed.

Lemma trimEnd_collapse s :
  trimEnd (replaceWsRuns true s) = joinSpace (tokens s)
  /\ trimEnd (replaceWsRuns false s) =
       match joinSpace (tokens s) with
       | [] => []
       | j => if startsWithSpace s then SP :: j else j
       end.
Proof.
  induction s as [|c r [IHt IHf]]; [split; reflexivity|].
  cbn [replaceWsRuns tokens startsWithSpace].
  destruct (isWhiteSpace c) eqn:Hc.
  - split; [exact IHt|].
    cbn [trimEnd]. rewrite IHt.
    destruct (joinSpace (tokens r)); reflexivity.
  - rewrite trimEnd_cons_word by assumption. rewrite IHf.
    assert (E : (c :: match joinSpace (tokens r) with
                 | [] => []
                 | j => if startsWithSpace r then SP :: j else j
                 end) = joinSpace (match r with
                 | [] => [[c]]
                 | d :: _ => if isWhiteSpace d then [c] :: tokens r
                            else match tokens r with [] => [[c]] | w :: ws => (c :: w) :: ws end
                 end)).
    { destruct r as [|d r']; [reflexivity|].
      cbn [startsWithSpace]. destruct (isWhiteSpace d) eqn:Hd.
      - pose proof (joinSpace_tokens_nil (d :: r')) as Hn.
        destruct (tokens (d :: r')) as [|w ws] eqn:Et.
        + reflexivity.
        + destruct (joinSpace (w :: ws)) eqn:Ej; [specialize (Hn eq_refl); discriminate|].
          cbn [joinSpace]. rewrite <- Ej. reflexivity.
      - pose proof (tokens_nonempty (d :: r')) as Hne.
        destruct (tokens (d :: r')) as [|w ws] eqn:Et.
        + reflexivity.
        + inversion Hne; subst.
          destruct (joinSpace (w :: ws)) eqn:Ej.
          { exfalso. eapply joinSpace_cons_nonempty; eauto. }
          rewrite <- Ej. destruct ws; reflexivity. }
    split; [exact E|].
    rewrite <- E. reflexivity.
Qed.

Lemma trimStart_replaceWsRuns b s :
  trimStart (replaceWsRuns b s) = replaceWsRuns false (trimStart s).
Proof.
  revert b. induction s as [|c r IH]; intros b; [reflexivity|].
  cbn [replaceWsRuns trimStart]. destruct (isWhiteSpace c) eqn:Hc.
  - destruct b; [apply IH|]. cbn [trimStart]. 
    change (isWhiteSpace SP) with true. cbn. apply IH.
  - cbn [trimStart replaceWsRuns]. rewrite Hc. reflexivity.
Qed.

Lemma tokens_trimStart s : tokens (trimStart s) = tokens s.
Proof.
  induction s as [|c r IH]; [reflexivity|].
  cbn [trimStart]. destruct (isWhiteSpace c) eqn:Hc.
  - rewrite IH. cbn [tokens]. rewrite Hc. reflexivity.
  - reflexivity.
Qed.

Lemma startsWithSpace_trimStart s : startsWithSpace (trimStart s) = false.
Proof.
  induction s as [|c r IH]; [reflexivity|].
  cbn [trimStart]. destruct (isWhiteSpace c) eqn:Hc; [exact IH|].
  cbn. exact Hc.
Qed.

Lemma trim_collapse_tokens s : trim (collapseWhitespace s) = joinSpace (tokens s).
Proof.
  unfold trim, collapseWhitespace.
  rewrite trimStart_replaceWsRuns.
  destruct (trimEnd_collapse (trimStart s)) as [_ H]. rewrite H.
  rewrite startsWithSpace_trimStart, tokens_trimStart.
  destruct (joinSpace (tokens s)); reflexivity.
Qed.

End WhitespaceTokens.

Section QueryTokens.
Implicit Types (s r : jsstring) (c d : N).

Lemma splitSpace_app w x :
  noSpace w -> splitSpace (w ++ SP :: x) = w :: splitSpace x.
Proof.
  induction 1 as [|c w Hc Hw IH]; [reflexivity|].
  cbn [app splitSpace]. rewrite IH.
  destruct (N.eqb_spec c SP) as [->|]; [discriminate Hc|reflexivity].
Qed.

Lemma splitSpace_word w : noSpace w -> splitSpace w = [w].
Proof.
  induction 1 as [|c w Hc Hw IH]; [reflexivity|].
  cbn [splitSpace]. rewrite IH.
  destruct (N.eqb_spec c SP) as [->|]; [discriminate Hc|reflexivity].
Qed.

Lemma splitSpace_joinSpace T :
  T <> [] -> Forall noSpace T -> splitSpace (joinSpace T) = T.
Proof.
  intros Hne H. induction H as [|w T Hw HT IH]; [congruence|].
  destruct T as [|w2 T'].
  - cbn. apply splitSpace_word; assumption.
  - change (joinSpace (w :: w2 :: T')) with (w ++ SP :: joinSpace (w2 :: T')).
    rewrite splitSpace_app by assumption. rewrite IH by discriminate. reflexivity.
Qed.

Lemma tokens_noSpace s : Forall noSpace (tokens s).
Proof.
  induction s as [|c r IH]; cbn [tokens]; [constructor|].
  destruct (isWhiteSpace c) eqn:Hc; [exact IH|].
  destruct r as [|d r']; [repeat constructor; assumption|].
  destruct (isWhiteSpace d).
  - constructor; [repeat constructor; assumption|exact IH].
  - destruct (tokens (d :: r')) as [|w ws]; [repeat constructor; assumption|].
    inversion IH; subst. constructor; [constructor; assumption|assumption].
Qed.

Lemma tokens_word_app w x :
  w <> [] -> noSpace w -> tokens (w ++ SP :: x) = w :: tokens x.
Proof.
  intros Hne H. induction H as [|c w Hc Hw IH]; [congruence|].
  cbn [app tokens]. rewrite Hc.
  destruct w as [|d w'].
  - cbn [app]. change (isWhiteSpace SP) with true. cbn iota.
    cbn [tokens]. change (isWhiteSpace SP) with true. reflexivity.
  - cbn [app]. inversion Hw as [|? ? Hd ?]; subst. rewrite Hd.
    change (d :: w' ++ SP :: x) with ((d :: w') ++ SP :: x).
    rewrite IH by discriminate. reflexivity.
Qed.

Lemma tokens_word w : w <> [] -> noSpace w -> tokens w = [w].
Proof.
  intros Hne H. induction H as [|c w Hc Hw IH]; [congruence|].
  cbn [tokens]. rewrite Hc.
  destruct w as [|d w']; [reflexivity|].
  inversion Hw as [|? ? Hd ?]; subst. rewrite Hd.
  rewrite IH by discriminate. reflexivity.
Qed.

Lemma tokens_joinSpace T :
  Forall (fun w => w <> []) T -> Forall noSpace T -> tokens (joinSpace T) = T.
Proof.
  intros H1 H2. induction H2 as [|w T Hw HT IH]; [reflexivity|].
  inversion H1; subst.
  destruct T as [|w2 T'].
  - cbn. apply tokens_word; assumption.
  - change (joinSpace (w :: w2 :: T')) with (w ++ SP :: joinSpace (w2 :: T')).
    rewrite tokens_word_app by assumption. rewrite IH by assumption. reflexivity.
Qed.

(** every unit of a token is a unit of the string that is not white space *)
Lemma tokens_units (P : N -> Prop) s :
  Forall (fun c => isWhiteSpace c = false -> P c) s -> Forall (Forall P) (tokens s).
Proof.
  induction 1 as [|c r Hc Hr IH]; cbn [tokens]; [constructor|].
  destruct (isWhiteSpace c) eqn:Ec; [exact IH|].
  specialize (Hc eq_refl).
  destruct r as [|d r']; [repeat constructor; assumption|].
  destruct (isWhiteSpace d).
  - constructor; [repeat constructor; assumption|exact IH].
  - destruct (tokens (d :: r')) as [|w ws]; [repeat constructor; assumption|].
    inversion IH; subst. constructor; [constructor; assumption|assumption].
Qed.

Lemma blankOthers_unit c :
  isWhiteSpace (if isQueryChar c then c else SP) = false ->
  isSlugChar (if isQueryChar c then c else SP) = true.
Proof.
  unfold isQueryChar, isSlugChar.
  destruct (inRange 97 122 c) eqn:E1, (inRange 48 57 c) eqn:E2,
           (isWhiteSpace c) eqn:E3, (c =? 45) eqn:E4;
    cbv beta iota delta [orb];
    rewrite ?E1, ?E2, ?E3, ?E4; cbv beta iota delta [orb];
    intros; try reflexivity; try discriminate.
Qed.

Lemma blankOthers_units s :
  Forall (fun c => isWhiteSpace c = false -> isSlugChar c = true) (blankOthers s).
Proof.
  induction s as [|c r IH]; [constructor|].
  constructor; [apply blankOthers_unit|exact IH].
Qed.

Lemma rewriteQuery_refines text : rewriteQueryForRetrieval text = reformulate_spec text.
Proof.
  unfold rewriteQueryForRetrieval, reformulate_spec.
  rewrite trim_collapse_tokens.
  set (T := tokens _).
  destruct T as [|w T'] eqn:E; [reflexivity|].
  rewrite splitSpace_joinSpace; [reflexivity|discriminate|].
  rewrite <- E. apply tokens_noSpace.
Qed.

Lemma Forall_firstn {A} (P : A -> Prop) n (l : list A) : Forall P l -> Forall P (firstn n l).
Proof. intros H. revert n. induction H; intros [|n]; cbn; constructor; auto. Qed.

Lemma rewriteQuery_tokens text :
  tokens (rewriteQueryForRetrieval text)
  = firstn 10 (tokens (blankOthers (removeFillers O None (toLowerCase text)))).
Proof.
  rewrite rewriteQuery_refines. unfold reformulate_spec.
  apply tokens_joinSpace; apply Forall_firstn; [apply tokens_nonempty|apply tokens_noSpace].
Qed.

End QueryTokens.

(** The identifiers that [uuid] hands out are no names of
    [Object.prototype]: none of these has a hyphen. *)
Lemma hyphen_plain (s : jsstring) : In 45%N s -> inheritedKey s = false.
Proof.
  intros Hin. unfold inheritedKey. apply bool_decide_eq_false_2.
  intros Hs. cbn in Hs.
  repeat (destruct Hs as [<- | Hs];
          [cbn in Hin; repeat (destruct Hin as [Hin | Hin]; [discriminate Hin|]);
           exact Hin|]).
  exact Hs.
Qed.

#[global] Instance uuidOf_plain (h : Host) (n : nat) : Plain (uuidOf h n).
Proof. apply hyphen_plain, uuidOf_hyphen. Qed.

#[global] Instance turnOf_plain (h : Host) (w : World) : Plain (turnOf h w).
Proof. apply uuidOf_plain. Qed.

Section Store.

Lemma readSlot_plain tid `{!Plain tid} curr :
  readSlot curr tid = match curr !! tid with Some p => Own p | None => Undefined end.
Proof. unfold readSlot. rewrite plain. reflexivity. Qed.

Lemma addProtocol_eq tid `{!Plain tid} w :
  addProtocol tid w =
  (tt, match protocols w !! tid with
       | Some _ => w
       | None => setProtocols (<[tid := {| turnId := tid; steps := [] |}]> (protocols w)) w
       end).
Proof.
  unfold addProtocol, bind, gets, modify, ret. rewrite readSlot_plain by assumption.
  destruct (protocols w !! tid); reflexivity.
Qed.

(** With a timeline under the name the call appends, whatever the name. *)
Lemma appendStep_own tid step w p :
  protocols w !! tid = Some p ->
  appendStep tid step w =
  (Returned tt,
   setProtocols (<[tid := {| turnId := turnId p; steps := steps p ++ [step] |}]>
                   (protocols w)) w).
Proof.
  intros E. unfold appendStep, bind, gets, readSlot. rewrite E.
  unfold ret, modify. rewrite E. reflexivity.
Qed.

Lemma appendStep_eq tid `{!Plain tid} step w :
  appendStep tid step w =
  (Returned tt,
   setProtocols
     (<[tid := {| turnId := timelineId tid w; steps := timeline tid w ++ [step] |}]>
        (protocols w)) w).
Proof.
  unfold timeline, timelineId.
  destruct (protocols w !! tid) as [p|] eqn:E.
  - apply appendStep_own. exact E.
  - unfold appendStep, bind, gets. rewrite readSlot_plain by assumption. rewrite E.
    rewrite addProtocol_eq, E by assumption. cbn.
    rewrite readSlot_plain by assumption.
    rewrite lookup_insert_eq. unfold modify, ret. cbn.
    rewrite insert_insert_eq. reflexivity.
Qed.

(** Under an inherited name without timeline nothing is created and the
    append throws. *)
Lemma addProtocol_inherited tid w :
  readSlot (protocols w) tid = Inherited -> addProtocol tid w = (tt, w).
Proof.
  intros E. unfold addProtocol, bind, gets, ret. rewrite E. reflexivity.
Qed.

Lemma appendStep_inherited tid step w :
  readSlot (protocols w) tid = Inherited ->
  appendStep tid step w = (Threw TypeError, w).
Proof.
  intros E. unfold appendStep, bind, gets, ret. rewrite E. cbn. rewrite E. reflexivity.
Qed.

(** The three cases of a call of [appendStep]. *)
Lemma appendStep_cases tid step w :
  (readSlot (protocols w) tid = Inherited /\ appendStep tid step w = (Threw TypeError, w))
  \/ (readSlot (protocols w) tid <> Inherited
      /\ appendStep tid step w =
         (Returned tt,
          setProtocols
            (<[tid := {| turnId := timelineId tid w; steps := timeline tid w ++ [step] |}]>
               (protocols w)) w)).
Proof.
  destruct (readSlot (protocols w) tid) eqn:E.
  - right. split; [discriminate|]. unfold readSlot in E.
    destruct (protocols w !! tid) as [q|] eqn:Eq; [|destruct (inheritedKey tid); discriminate].
    rewrite (appendStep_own tid step w q Eq). unfold timeline, timelineId. rewrite Eq.
    reflexivity.
  - left. split; [reflexivity|]. apply appendStep_inherited. exact E.
  - right. split; [discriminate|]. unfold readSlot in E.
    destruct (protocols w !! tid) as [q|] eqn:Eq; [discriminate|].
    destruct (inheritedKey tid) eqn:Ei; [discriminate|].
    apply (appendStep_eq tid (Plain0 := Ei)).
Qed.

Lemma timeline_appendStep tid `{!Plain tid} step w :
  timeline tid (snd (appendStep tid step w)) = timeline tid w ++ [step].
Proof.
  rewrite appendStep_eq by assumption. unfold timeline at 1. cbn.
  rewrite lookup_insert_eq. reflexivity.
Qed.

Lemma timeline_appendStep_ne tid other step w :
  other <> tid ->
  protocols (snd (appendStep tid step w)) !! other = protocols w !! other.
Proof.
  intros Hne. destruct (appendStep_cases tid step w) as [[_ ->] | [_ ->]]; [reflexivity|].
  cbn. rewrite lookup_insert_ne by congruence. reflexivity.
Qed.

Lemma getProtocolSteps_timeline tid w : fst (getProtocolSteps tid w) = timeline tid w.
Proof.
  unfold getProtocolSteps, get, gets, bind, ret, timeline, readSlot. cbn [fst].
  destruct (protocols w !! tid); [reflexivity|].
  destruct (inheritedKey tid); reflexivity.
Qed.

(** C6: what [appendStep] does for every turn identifier. When the store
    has a timeline under the name, or the name is not one that an object
    inherits from [Object.prototype], the call returns, the timeline of
    the turn exists afterwards and its step sequence is extended by the
    one step, at the end. Under an inherited name without timeline the
    call throws a [TypeError] and records nothing: no timeline is
    created and the step is lost; so it is for [toString] in the initial
    state. In every case the steps recorded before, of any turn, stay at
    their positions, no sequence gets shorter, and the timelines of the
    other turns (like the agents and the conversations) are untouched. *)
Theorem appendStep_extends tid step w :
  let w' := snd (appendStep tid step w) in
  (readSlot (protocols w) tid <> Inherited ->
   fst (appendStep tid step w) = Returned tt
   /\ is_Some (protocols w' !! tid)
   /\ timeline tid w' = timeline tid w ++ [step])
  /\ (readSlot (protocols w) tid = Inherited ->
      appendStep tid step w = (Threw TypeError, w)
      /\ protocols w' !! tid = None
      /\ timeline tid w' = [])
  /\ (forall (h : Host),
        appendStep (u "toString") step (initialWorld h)
        = (Threw TypeError, initialWorld h))
  /\ (forall other, other <> tid -> protocols w' !! other = protocols w !! other)
  /\ (forall t i s, timeline t w !! i = Some s -> timeline t w' !! i = Some s)
  /\ (forall t, length (timeline t w) <= length (timeline t w'))%nat
  /\ agents w' = agents w /\ conversations w' = conversations w.
Proof.
  cbv zeta.
  assert (Hother : forall other, other <> tid ->
            protocols (snd (appendStep tid step w)) !! other = protocols w !! other)
    by (intros; apply timeline_appendStep_ne; assumption).
  assert (Hsame : forall t, exists ext,
            timeline t (snd (appendStep tid step w)) = timeline t w ++ ext).
  { intros t. destruct (decide (t = tid)) as [->|Hne].
    - destruct (appendStep_cases tid step w) as [[_ ->] | [_ ->]].
      + exists []. rewrite app_nil_r. reflexivity.
      + exists [step]. unfold timeline at 1. cbn. rewrite lookup_insert_eq. reflexivity.
    - exists []. unfold timeline. rewrite Hother by assumption.
      rewrite app_nil_r. reflexivity. }
  split.
  { intros Hn. destruct (appendStep_cases tid step w) as [[E _] | [_ ->]]; [contradiction|].
    cbn [fst snd]. split; [reflexivity|]. cbn [protocols setProtocols].
    split; [rewrite lookup_insert_eq; eexists; reflexivity|].
    unfold timeline at 1. cbn. rewrite lookup_insert_eq. reflexivity. }
  split.
  { intros E. rewrite (appendStep_inherited tid step w E). cbn [snd].
    split; [reflexivity|].
    unfold readSlot in E. unfold timeline.
    destruct (protocols w !! tid); [discriminate|]. split; reflexivity. }
  split.
  { intros h. apply appendStep_inherited. reflexivity. }
  split; [exact Hother|].
  split.
  { intros t i s Hi. destruct (Hsame t) as [ext ->].
    apply lookup_app_l_Some. exact Hi. }
  split.
  { intros t. destruct (Hsame t) as [ext ->]. rewrite length_app. lia. }
  destruct (appendStep_cases tid step w) as [[_ ->] | [_ ->]]; split; reflexivity.
Qed.

(** C7: what [addProtocol] does for every turn identifier. It leaves a
    state in which the turn has a timeline as it is, and a second call
    in a row changes nothing. From a state without a timeline for the
    turn, the two calls leave exactly one more timeline, the empty one
    of that turn, when the name is not one that an object inherits from
    [Object.prototype]; under an inherited name they leave no timeline
    at all: the store is unchanged and [get] still yields the inherited
    value, as for [toString] in the initial state. The timelines of the
    other turns are unchanged. *)
Theorem addProtocol_idempotent tid w :
  let w1 := snd (addProtocol tid w) in
  let w2 := snd (addProtocol tid w1) in
  (is_Some (protocols w !! tid) -> w1 = w)
  /\ w2 = w1
  /\ (protocols w !! tid = None -> inheritedKey tid = false ->
      protocols w2 !! tid = Some {| turnId := tid; steps := [] |}
      /\ size (protocols w2) = S (size (protocols w)))
  /\ (protocols w !! tid = None -> inheritedKey tid = true ->
      w2 = w /\ fst (get tid w2) = Inherited)
  /\ (forall (h : Host),
        snd (addProtocol (u "toString") (snd (addProtocol (u "toString") (initialWorld h))))
        = initialWorld h
        /\ protocols (initialWorld h) !! u "toString" = None)
  /\ (forall other, other <> tid -> protocols w2 !! other = protocols w !! other).
Proof.
  cbv zeta.
  assert (Hh : forall h : Host,
            snd (addProtocol (u "toString") (snd (addProtocol (u "toString") (initialWorld h))))
            = initialWorld h
            /\ protocols (initialWorld h) !! u "toString" = None).
  { intros h. rewrite !addProtocol_inherited by reflexivity. split; reflexivity. }
  destruct (protocols w !! tid) as [p|] eqn:E.
  - assert (A : addProtocol tid w = (tt, w)).
    { unfold addProtocol, bind, gets, ret, readSlot. rewrite E. reflexivity. }
    rewrite !A. cbn [snd]. rewrite A. cbn [snd].
    split; [reflexivity|]. split; [reflexivity|].
    split; [intros; discriminate|]. split; [intros; discriminate|].
    split; [exact Hh|reflexivity].
  - destruct (inheritedKey tid) eqn:Ei.
    + assert (R : readSlot (protocols w) tid = Inherited)
        by (unfold readSlot; rewrite E, Ei; reflexivity).
      rewrite !(addProtocol_inherited tid w R). cbn [snd].
      rewrite (addProtocol_inherited tid w R). cbn [snd].
      split; [intros [? ?]; discriminate|]. split; [reflexivity|].
      split; [intros; discriminate|].
      split; [intros _ _; split; [reflexivity|exact R]|].
      split; [exact Hh|reflexivity].
    + rewrite !(addProtocol_eq tid (Plain0 := Ei)). cbn [snd]. rewrite E.
      cbn [protocols setProtocols]. rewrite lookup_insert_eq.
      split; [intros [? ?]; discriminate|]. split; [reflexivity|].
      split; [intros _ _; split|].
      * apply lookup_insert_eq.
      * apply map_size_insert_None. assumption.
      * split; [intros; discriminate|]. split; [exact Hh|].
        intros other Hne. apply lookup_insert_ne. congruence.
Qed.

End Store.

Section Packing.


End Packing.

Section Retrieval.

Lemma dedupFilter_keys seen l :
  List.NoDup (map chunkKey (dedupFilter seen l))
  /\ Forall (fun c => chunkKey c ∉ seen) (dedupFilter seen l).
Proof.
  revert seen. induction l as [|c r IH]; intros seen; cbn [dedupFilter].
  - split; constructor.
  - case_bool_decide as Hin; [apply IH|].
    destruct (IH ({[chunkKey c]} ∪ seen)) as [Hnd Hall].
    split.
    + cbn [map]. constructor; [|exact Hnd].
      intros Hk. apply in_map_iff in Hk. destruct Hk as [c' [Heq Hc']].
      rewrite List.Forall_forall in Hall. specialize (Hall c' Hc').
      apply Hall. rewrite Heq. apply elem_of_union. left.
      apply elem_of_singleton. reflexivity.
    + constructor; [exact Hin|].
      eapply Forall_impl; [exact Hall|]. cbn. intros c' Hc' Hs.
      apply Hc'. apply elem_of_union. right. exact Hs.
Qed.

Lemma insertSorted_perm {A} (cmp : A -> A -> number) x l :
  Permutation (insertSorted cmp x l) (x :: l).
Proof.
  induction l as [|y r IH]; cbn [insertSorted]; [reflexivity|].
  destruct (PrimFloat.ltb _ _); [|reflexivity].
  rewrite IH. apply perm_swap.
Qed.

Lemma sortBy_perm {A} (cmp : A -> A -> number) l : Permutation (sortBy cmp l) l.
Proof.
  induction l as [|x r IH]; cbn; [reflexivity|].
  rewrite insertSorted_perm. constructor. exact IH.
Qed.

Lemma NoDup_firstn {A} n (l : list A) : List.NoDup l -> List.NoDup (firstn n l).
Proof.
  intros H. rewrite <- (firstn_skipn n l) in H.
  eapply NoDup_app_remove_r; exact H.
Qed.

Lemma rankChunks_unique chunksRaw :
  List.NoDup (map chunkKey (rankChunks chunksRaw)).
Proof.
  unfold rankChunks. rewrite <- firstn_map. apply NoDup_firstn.
  eapply Permutation_NoDup.
  - apply Permutation_map. symmetry. apply sortBy_perm.
  - apply dedupFilter_keys.
Qed.

Lemma rankChunks_length chunksRaw : (length (rankChunks chunksRaw) <= 5)%nat.
Proof. unfold rankChunks. apply firstn_le_length. Qed.

Lemma rankChunks_incl chunksRaw c : In c (rankChunks chunksRaw) -> In c chunksRaw.
Proof.
  unfold rankChunks. intros H.
  assert (H' : In c (sortBy byScoreDesc (dedupFilter ∅ chunksRaw))).
  { rewrite <- (firstn_skipn 5). apply in_or_app. left. exact H. }
  clear H. rename H' into H.
  eapply Permutation_in in H; [|apply sortBy_perm].
  revert H. generalize (∅ : gset jsstring).
  induction chunksRaw as [|x r IH]; intros seen; cbn [dedupFilter]; [tauto|].
  case_bool_decide; cbn [In]; intros Hc; [right; eauto|].
  destruct Hc as [Hc|Hc]; [left; exact Hc|right; eauto].
Qed.

(** Comparison of floating-point numbers: [<=] is transitive, and total
    on numbers. *)
Lemma SFleb_trans x y z :
  SpecFloat.SFleb x y = true -> SpecFloat.SFleb y z = true -> SpecFloat.SFleb x z = true.
Proof.
  unfold SpecFloat.SFleb, SpecFloat.SFcompare.
  destruct x as [sx|sx| |sx mx ex], y as [sy|sy| |sy my ey], z as [sz|sz| |sz mz ez];
    try destruct sx; try destruct sy; try destruct sz; cbn; try congruence;
    repeat match goal with
    | |- context [Z.compare ?a ?b] => destruct (Z.compare_spec a b)
    | |- context [Pos.compare_cont Eq ?a ?b] =>
        change (Pos.compare_cont Eq a b) with (Pos.compare a b);
        destruct (Pos.compare_spec a b)
    end; cbn; try congruence; try lia.
Qed.

Lemma SFleb_total x y :
  SpecFloat.SFleb x x = true -> SpecFloat.SFleb y y = true ->
  SpecFloat.SFleb x y = false -> SpecFloat.SFleb y x = true.
Proof.
  unfold SpecFloat.SFleb, SpecFloat.SFcompare.
  destruct x as [sx|sx| |sx mx ex], y as [sy|sy| |sy my ey];
    try destruct sx; try destruct sy; cbn; try congruence;
    repeat match goal with
    | |- context [Z.compare ?a ?b] => destruct (Z.compare_spec a b)
    | |- context [Pos.compare_cont Eq ?a ?b] =>
        change (Pos.compare_cont Eq a b) with (Pos.compare a b);
        destruct (Pos.compare_spec a b)
    end; cbn; try congruence; try lia.
Qed.

Lemma scoreGe_trans a b c : scoreGe a b -> scoreGe b c -> scoreGe a c.
Proof.
  unfold scoreGe. rewrite !leb_spec. intros H1 H2. exact (SFleb_trans _ _ _ H2 H1).
Qed.

(** The sign of a floating-point difference: for numbers (no [NaN]) the
    difference [y - x] is positive exactly when [y <= x] fails. The
    proof follows the rounding of the difference of two canonical
    mantissas. *)
Section SubSign.

Import SpecFloat.
Local Open Scope Z_scope.

Variables prec emax : Z.
Hypothesis Hprec : (0 < prec)%Z.

Abbreviation emin := (emin prec emax).
Abbreviation fexp := (fexp prec emax).

Lemma digits2_pos_spec m :
  2 ^ (Zpos (digits2_pos m) - 1) <= Zpos m < 2 ^ Zpos (digits2_pos m).
Proof.
  induction m as [p IH|p IH|]; cbn [digits2_pos].
  - rewrite Pos2Z.inj_succ. replace (Z.succ (Zpos (digits2_pos p)) - 1)
      with (Z.succ (Zpos (digits2_pos p) - 1)) by lia.
    rewrite !Z.pow_succ_r by lia. lia.
  - rewrite Pos2Z.inj_succ. replace (Z.succ (Zpos (digits2_pos p)) - 1)
      with (Z.succ (Zpos (digits2_pos p) - 1)) by lia.
    rewrite !Z.pow_succ_r by lia. lia.
  - cbn. lia.
Qed.

Lemma shr_1_m mrs : 0 <= shr_m mrs -> shr_m (shr_1 mrs) = shr_m mrs / 2.
Proof.
  destruct mrs as [m r s]. cbn [shr_m]. intros Hm.
  destruct m as [|[p|p|]|p]; cbn [shr_1 shr_m]; try lia.
  - reflexivity.
  - apply Z.div_unique with (r := 1); lia.
  - apply Z.div_unique with (r := 0); lia.
  - reflexivity.
Qed.

Lemma iter_shr_1_m p : forall mrs,
  0 <= shr_m mrs -> shr_m (iter_pos shr_1 p mrs) = shr_m mrs / 2 ^ Zpos p.
Proof.
  induction p as [p IH|p IH|]; intros mrs Hm; cbn [iter_pos].
  - pose proof (Z.pow_pos_nonneg 2 (Zpos p) ltac:(lia) ltac:(lia)) as Hpow.
    assert (E : 2 ^ Zpos p~1 = 2 * (2 ^ Zpos p * 2 ^ Zpos p)).
    { rewrite (Pos2Z.inj_xI p).
      replace (2 * Zpos p + 1) with (1 + Zpos p + Zpos p) by lia.
      rewrite !Z.pow_add_r by lia. lia. }
    assert (H1 : 0 <= shr_m (shr_1 mrs)) by (rewrite shr_1_m by lia; apply Z.div_pos; lia).
    assert (H2 : 0 <= shr_m (iter_pos shr_1 p (shr_1 mrs)))
      by (rewrite IH by lia; apply Z.div_pos; lia).
    rewrite IH by lia. rewrite IH by lia. rewrite shr_1_m by lia.
    rewrite !Z.div_div by lia. rewrite E. reflexivity.
  - pose proof (Z.pow_pos_nonneg 2 (Zpos p) ltac:(lia) ltac:(lia)) as Hpow.
    assert (E : 2 ^ Zpos p~0 = 2 ^ Zpos p * 2 ^ Zpos p).
    { rewrite (Pos2Z.inj_xO p), <- Z.add_diag, Z.pow_add_r by lia. reflexivity. }
    assert (H2 : 0 <= shr_m (iter_pos shr_1 p mrs))
      by (rewrite IH by lia; apply Z.div_pos; lia).
    rewrite IH by lia. rewrite IH by lia.
    rewrite !Z.div_div by lia. rewrite E. reflexivity.
  - rewrite shr_1_m by lia. reflexivity.
Qed.

(** shifting to the exponent of the format keeps a positive mantissa positive *)
Lemma shr_fexp_pos m e l :
  0 < m -> emin <= e ->
  0 < shr_m (fst (shr_fexp prec emax m e l)) /\ emin <= snd (shr_fexp prec emax m e l).
Proof.
  intros Hm He. unfold shr_fexp, shr.
  assert (Hr : shr_m (shr_record_of_loc m l) = m) by (destruct l as [|[| |]]; reflexivity).
  destruct (fexp (Zdigits2 m + e) - e) as [|p|p] eqn:En; cbn [fst snd];
    try (rewrite Hr; split; lia).
  rewrite iter_shr_1_m by (rewrite Hr; lia). rewrite Hr.
  destruct m as [|q|q]; try lia. cbn [Zdigits2] in En.
  pose proof (digits2_pos_spec q) as [Hlo _].
  unfold SpecFloat.fexp in En.
  assert (Hp : Zpos p <= Zpos (digits2_pos q) - 1) by lia.
  split; [|lia].
  apply Z.div_str_pos. split; [apply Z.pow_pos_nonneg; lia|].
  eapply Z.le_trans; [|exact Hlo]. apply Z.pow_le_mono_r; lia.
Qed.

Lemma SFltb_zero r : SFltb (S754_zero false) r = isPositive r.
Proof. destruct r as [s|s| |s m e]; try destruct s; reflexivity. Qed.

Lemma binary_round_neg m e : isPositive (binary_round prec emax true m e) = false.
Proof.
  unfold binary_round, binary_round_aux.
  destruct (shl_align m e _) as [mz ez].
  destruct (shr_fexp prec emax (Z.pos mz) ez loc_Exact) as [mrs' e'].
  destruct (shr_fexp prec emax _ e' loc_Exact) as [mrs'' e''].
  destruct (shr_m mrs''); try reflexivity.
  destruct (Z.leb _ _); reflexivity.
Qed.

Lemma round_nearest_even_pos m l : 0 < m -> 0 < round_nearest_even m l.
Proof.
  intros Hm. destruct l as [|[| |]]; cbn [round_nearest_even]; try lia.
  destruct (Z.even m); lia.
Qed.

Lemma binary_round_pos m e : emin <= e -> isPositive (binary_round prec emax false m e) = true.
Proof.
  intros He. unfold binary_round.
  destruct (shl_align m e (fexp (Z.pos (digits2_pos m) + e))) as [mz ez] eqn:Es.
  assert (Hez : emin <= ez).
  { unfold shl_align in Es.
    destruct (fexp (Z.pos (digits2_pos m) + e) - e) eqn:En; injection Es as _ <-; try lia.
    unfold SpecFloat.fexp. lia. }
  unfold binary_round_aux.
  pose proof (shr_fexp_pos (Z.pos mz) ez loc_Exact ltac:(lia) Hez) as [H1 H1'].
  destruct (shr_fexp prec emax (Z.pos mz) ez loc_Exact) as [mrs' e']. cbn [fst snd] in *.
  pose proof (shr_fexp_pos (round_nearest_even (shr_m mrs') (loc_of_shr_record mrs')) e'
                loc_Exact (round_nearest_even_pos _ _ H1) H1') as [H2 _].
  destruct (shr_fexp prec emax _ e' loc_Exact) as [mrs'' e'']. cbn [fst snd] in *.
  destruct (shr_m mrs''); try lia.
  destruct (Z.leb _ _); reflexivity.
Qed.

Lemma iter_xO m d : Zpos (Pos.iter xO m d) = Zpos m * 2 ^ Zpos d.
Proof.
  induction d as [|d IH] using Pos.peano_ind.
  - cbn. lia.
  - rewrite Pos.iter_succ, Pos2Z.inj_xO, IH, Pos2Z.inj_succ, Z.pow_succ_r by lia. lia.
Qed.

Lemma shl_align_value m e ez :
  ez <= e -> Zpos (fst (shl_align m e ez)) = Zpos m * 2 ^ (e - ez).
Proof.
  intros H. unfold shl_align.
  destruct (ez - e) as [|p|p] eqn:E; cbn [fst]; try lia.
  - replace (e - ez) with 0 by lia. lia.
  - rewrite iter_xO. f_equal. f_equal. lia.
Qed.

Lemma canonical_bounds m e :
  canonical_mantissa prec emax m e = true ->
  emin <= e /\ Zpos m < 2 ^ prec /\ (emin < e -> 2 ^ (prec - 1) <= Zpos m).
Proof.
  unfold canonical_mantissa, SpecFloat.fexp. intros H. apply Z.eqb_eq in H.
  pose proof (digits2_pos_spec m) as [Hlo Hhi].
  assert (Hd : Zpos (digits2_pos m) <= prec) by lia.
  split; [lia|]. split.
  - eapply Z.lt_le_trans; [exact Hhi|]. apply Z.pow_le_mono_r; lia.
  - intros He. assert (Zpos (digits2_pos m) = prec) by lia.
    rewrite <- H0. exact Hlo.
Qed.

(** the order of canonical floats of one sign is the order of their values *)
Lemma compare_aligned mx ex my ey :
  canonical_mantissa prec emax mx ex = true ->
  canonical_mantissa prec emax my ey = true ->
  Z.compare (Zpos (fst (shl_align my ey (Z.min ey ex))))
            (Zpos (fst (shl_align mx ex (Z.min ey ex))))
  = match Z.compare ey ex with
    | Lt => Lt
    | Gt => Gt
    | Eq => Pos.compare my mx
    end.
Proof.
  intros Cx Cy.
  destruct (canonical_bounds mx ex Cx) as (Ex & Hx & Lx).
  destruct (canonical_bounds my ey Cy) as (Ey & Hy & Ly).
  rewrite !shl_align_value by lia.
  assert (P2 : 2 ^ prec = 2 * 2 ^ (prec - 1)).
  { replace prec with (Z.succ (prec - 1)) at 1 by lia. apply Z.pow_succ_r. lia. }
  destruct (Z.compare_spec ey ex) as [E|E|E].
  - subst ey. rewrite Z.min_id, Z.sub_diag, !Z.mul_1_r. reflexivity.
  - rewrite Z.min_l by lia. rewrite Z.sub_diag, Z.mul_1_r.
    apply Z.compare_lt_iff.
    specialize (Lx ltac:(lia)).
    assert (2 <= 2 ^ (ex - ey)).
    { change 2 with (2 ^ 1) at 1. apply Z.pow_le_mono_r; lia. }
    nia.
  - rewrite Z.min_r by lia. rewrite Z.sub_diag, Z.mul_1_r.
    apply Z.compare_gt_iff.
    specialize (Ly ltac:(lia)).
    assert (2 <= 2 ^ (ey - ex)).
    { change 2 with (2 ^ 1) at 1. apply Z.pow_le_mono_r; lia. }
    nia.
Qed.

Lemma binary_normalize_pos D e :
  emin <= e -> isPositive (binary_normalize prec emax D e false) = (0 <? D).
Proof.
  intros He. destruct D as [|p|p]; cbn [binary_normalize].
  - reflexivity.
  - apply binary_round_pos. exact He.
  - apply binary_round_neg.
Qed.

Lemma SFsub_sign X Y :
  valid_binary prec emax X = true -> valid_binary prec emax Y = true ->
  X <> S754_nan -> Y <> S754_nan ->
  SFltb (S754_zero false) (SFsub prec emax Y X) = negb (SFleb Y X).
Proof.
  intros VX VY NX NY. rewrite SFltb_zero.
  destruct X as [sx|sx| |sx mx ex], Y as [sy|sy| |sy my ey]; try congruence;
    try (destruct sx; try destruct sy; reflexivity);
    try (destruct sy; try destruct sx; reflexivity).
  cbn [valid_binary] in VX, VY. unfold bounded in VX, VY.
  apply andb_true_iff in VX, VY. destruct VX as [Cx _], VY as [Cy _].
  destruct (canonical_bounds mx ex Cx) as (Ex & _).
  destruct (canonical_bounds my ey Cy) as (Ey & _).
  cbn [SFsub]. rewrite binary_normalize_pos by lia.
  pose proof (compare_aligned mx ex my ey Cx Cy) as Hc.
  unfold SFleb, SFcompare.
  change (Pos.compare_cont Eq my mx) with (Pos.compare my mx).
  revert Hc.
  generalize (fst (shl_align my ey (Z.min ey ex))) as y'.
  generalize (fst (shl_align mx ex (Z.min ey ex))) as x'.
  intros x' y' Hc.
  change (Zpos y' ?= Zpos x') with (Pos.compare y' x') in Hc.
  destruct sy, sx; cbn [cond_Zopp];
    destruct (Z.compare ey ex) eqn:Ee; try rewrite <- Hc;
    destruct (Pos.compare_spec y' x') as [E|E|E]; try discriminate Hc;
    cbn [CompOpp negb];
    try (apply Z.ltb_lt; lia); try (apply Z.ltb_ge; lia).
Qed.

End SubSign.

Lemma sub_sign (x y : float) :
  PrimFloat.is_nan x = false -> PrimFloat.is_nan y = false ->
  PrimFloat.ltb PrimFloat.zero (PrimFloat.sub y x) = negb (PrimFloat.leb y x).
Proof.
  intros Hx Hy. rewrite ltb_spec, leb_spec, sub_spec.
  change (Prim2SF PrimFloat.zero) with (S754_zero false).
  apply SFsub_sign.
  - reflexivity.
  - apply Prim2SF_valid.
  - apply Prim2SF_valid.
  - intros E. unfold PrimFloat.is_nan in Hx. apply negb_false_iff in Hx.
    rewrite FloatAxioms.eqb_spec in Hx. rewrite E in Hx. discriminate Hx.
  - intros E. unfold PrimFloat.is_nan in Hy. apply negb_false_iff in Hy.
    rewrite FloatAxioms.eqb_spec in Hy. rewrite E in Hy. discriminate Hy.
Qed.

Lemma ranksByScore_numbers l : Forall numericScore l -> ranksByScore l.
Proof.
  intros F a b Ha Hb. rewrite List.Forall_forall in F.
  unfold byScoreDesc. apply sub_sign; [apply (F a Ha)|apply (F b Hb)].
Qed.

(** On chunks that the comparator ranks by score, a chunk has a score
    (its score is no [NaN]), and of two chunks one may stand before
    the other. *)
Lemma ranksByScore_refl l a : ranksByScore l -> In a l -> scoreGe a a.
Proof.
  intros R Ha. specialize (R a a Ha Ha). unfold scoreGe, byScoreDesc in *.
  destruct (PrimFloat.leb (scoreOr0 a) (scoreOr0 a)) eqn:E; [reflexivity|].
  exfalso. cbn [negb] in R.
  rewrite leb_spec in E. rewrite ltb_spec, sub_spec in R.
  revert E R. generalize (Prim2SF (scoreOr0 a)) as x.
  intros [sx|sx| |sx mx ex]; try destruct sx; cbn; try congruence;
    rewrite ?Z.compare_refl, ?Pos.compare_cont_refl; cbn; congruence.
Qed.

Lemma ranksByScore_total l a b :
  ranksByScore l -> In a l -> In b l -> scoreGe a b \/ scoreGe b a.
Proof.
  intros R Ha Hb.
  pose proof (ranksByScore_refl l a R Ha) as Raa.
  pose proof (ranksByScore_refl l b R Hb) as Rbb.
  unfold scoreGe in *.
  destruct (PrimFloat.leb (scoreOr0 b) (scoreOr0 a)) eqn:E; [left; reflexivity|right].
  rewrite leb_spec in *. apply SFleb_total; assumption.
Qed.

Lemma ranksByScore_incl l l' : ranksByScore l -> incl l' l -> ranksByScore l'.
Proof. intros R I a b Ha Hb. apply R; apply I; assumption. Qed.

(** The chunks that [dedupFilter] keeps: the first of each key that is
    not in [seen]. *)
Lemma dedupFilter_first seen l c :
  In c (dedupFilter seen l) <-> ((chunkKey c ∉ seen) /\ firstOfKey l c).
Proof.
  revert seen. induction l as [|x r IH]; intros seen; cbn [dedupFilter].
  - split; [intros []|]. intros [_ (pre & post & E & _)]. destruct pre; discriminate E.
  - case_bool_decide as Hx.
    + rewrite IH. split.
      * intros [Hc (pre & post & E & F)]. split; [exact Hc|].
        exists (x :: pre), post. split; [rewrite E; reflexivity|].
        constructor; [|exact F]. intros Heq. rewrite Heq in Hx. contradiction.
      * intros [Hc (pre & post & E & F)]. split; [exact Hc|].
        destruct pre as [|y pre]; cbn [app] in E; inversion E; subst.
        -- contradiction.
        -- exists pre, post. split; [reflexivity|]. inversion F; assumption.
    + cbn [In]. rewrite IH. split.
      * intros [<- | [Hc (pre & post & E & F)]].
        -- split; [exact Hx|]. exists [], r. split; [reflexivity|constructor].
        -- split; [intros Hs; apply Hc; apply elem_of_union; right; exact Hs|].
           exists (x :: pre), post. split; [rewrite E; reflexivity|].
           constructor; [|exact F]. intros Heq. apply Hc. rewrite <- Heq.
           apply elem_of_union. left. apply elem_of_singleton. reflexivity.
      * intros [Hc (pre & post & E & F)].
        destruct pre as [|y pre]; cbn [app] in E; inversion E; subst.
        -- left. reflexivity.
        -- right. inversion F as [|? ? Hy F']; subst.
           split; [|exists pre, post; split; [reflexivity|exact F']].
           intros Hs. apply elem_of_union in Hs. destruct Hs as [Hs|Hs]; [|contradiction].
           apply elem_of_singleton in Hs. congruence.
Qed.

(** [dedupFilter] keeps the order of the chunks. *)
Lemma dedupFilter_sorted seen l :
  StronglySorted scoreGe l -> StronglySorted scoreGe (dedupFilter seen l).
Proof.
  intros S. revert seen. induction S as [|x r S IH F]; intros seen; cbn [dedupFilter].
  - constructor.
  - case_bool_decide; [apply IH|]. constructor; [apply IH|].
    rewrite List.Forall_forall in *. intros c Hc. apply F.
    apply dedupFilter_first in Hc. destruct Hc as [_ (pre & post & -> & _)].
    apply in_or_app. right. left. reflexivity.
Qed.

(** No key of the raw chunks is lost. *)
Lemma dedupFilter_covers seen l c :
  In c l -> chunkKey c ∉ seen -> In (chunkKey c) (map chunkKey (dedupFilter seen l)).
Proof.
  revert seen. induction l as [|x r IH]; intros seen; [intros []|].
  cbn [dedupFilter In]. intros [-> | Hc] Hs.
  - rewrite bool_decide_eq_false_2 by exact Hs. left. reflexivity.
  - case_bool_decide as Hx; [apply IH; assumption|].
    cbn [map In]. destruct (decide (chunkKey x = chunkKey c)) as [E|E]; [left; exact E|].
    right. apply IH; [exact Hc|].
    intros Hs'. apply elem_of_union in Hs'. destruct Hs' as [Hs'|Hs']; [|contradiction].
    apply elem_of_singleton in Hs'. congruence.
Qed.

(** The order that the sort establishes. *)
Lemma insertSorted_sorted x l :
  ranksByScore (x :: l) ->
  StronglySorted scoreGe l -> StronglySorted scoreGe (insertSorted byScoreDesc x l).
Proof.
  intros R S. induction S as [|y r S IH F]; cbn [insertSorted].
  - repeat constructor.
  - pose proof (R x y (or_introl eq_refl) (or_intror (or_introl eq_refl))) as Rxy.
    destruct (PrimFloat.ltb PrimFloat.zero (byScoreDesc x y)) eqn:E.
    + assert (Hyx : scoreGe y x).
      { destruct (ranksByScore_total (x :: y :: r) x y R) as [H|H];
          [left; reflexivity|right; left; reflexivity| |exact H].
        unfold scoreGe in H. rewrite H in Rxy. discriminate Rxy. }
      constructor.
      * apply IH. eapply ranksByScore_incl; [exact R|].
        intros c [<- | Hc]; [left; reflexivity|right; right; exact Hc].
      * rewrite List.Forall_forall in *. intros c Hc.
        eapply Permutation_in in Hc; [|apply insertSorted_perm].
        destruct Hc as [<- | Hc]; [exact Hyx|apply F; exact Hc].
    + assert (Hxy : scoreGe x y).
      { unfold scoreGe. destruct (PrimFloat.leb (scoreOr0 y) (scoreOr0 x));
          [reflexivity|discriminate Rxy]. }
      constructor; [constructor; assumption|].
      constructor; [exact Hxy|].
      rewrite List.Forall_forall in *. intros c Hc.
      apply (scoreGe_trans x y c Hxy). apply F. exact Hc.
Qed.

Lemma sortBy_sorted l :
  ranksByScore l -> StronglySorted scoreGe (sortBy byScoreDesc l).
Proof.
  induction l as [|x r IH]; intros R; cbn [sortBy fold_right]; [constructor|].
  fold (sortBy byScoreDesc r).
  apply insertSorted_sorted.
  - intros a b Ha Hb. apply R.
    + destruct Ha as [<- | Ha]; [left; reflexivity|right].
      eapply Permutation_in; [apply sortBy_perm|exact Ha].
    + destruct Hb as [<- | Hb]; [left; reflexivity|right].
      eapply Permutation_in; [apply sortBy_perm|exact Hb].
  - apply IH. eapply ranksByScore_incl; [exact R|]. intros c Hc. right. exact Hc.
Qed.

(** The sort is stable: chunks in descending order stay as they are. *)
Lemma sortBy_id l :
  ranksByScore l -> StronglySorted scoreGe l -> sortBy byScoreDesc l = l.
Proof.
  intros R S. induction S as [|x r S IH F]; cbn [sortBy fold_right]; [reflexivity|].
  fold (sortBy byScoreDesc r). rewrite IH.
  - destruct r as [|y r']; [reflexivity|]. cbn [insertSorted].
    rewrite (R x y (or_introl eq_refl) (or_intror (or_introl eq_refl))).
    inversion F as [|? ? Hxy _]; subst. unfold scoreGe in Hxy. rewrite Hxy. reflexivity.
  - eapply ranksByScore_incl; [exact R|]. intros c Hc. right. exact Hc.
Qed.

Lemma StronglySorted_app_cross {A} (R : A -> A -> Prop) l1 l2 :
  StronglySorted R (l1 ++ l2) -> forall a b, In a l1 -> In b l2 -> R a b.
Proof.
  induction l1 as [|x r IH]; intros S a b Ha Hb; [destruct Ha|].
  cbn in S. inversion S as [|? ? S' F]; subst.
  destruct Ha as [<- | Ha].
  - rewrite List.Forall_forall in F. apply F. apply in_or_app. right. exact Hb.
  - apply (IH S' a b Ha Hb).
Qed.

Lemma StronglySorted_firstn {A} (R : A -> A -> Prop) n l :
  StronglySorted R l -> StronglySorted R (firstn n l).
Proof.
  intros S. revert n. induction S as [|x r S IH F]; intros [|n]; cbn; try constructor.
  - apply IH.
  - rewrite List.Forall_forall in *. intros c Hc. apply F.
    rewrite <- (firstn_skipn n r). apply in_or_app. left. exact Hc.
Qed.

Lemma dedupFilter_incl seen l c : In c (dedupFilter seen l) -> In c l.
Proof.
  intros H. apply dedupFilter_first in H. destruct H as [_ (pre & post & -> & _)].
  apply in_or_app. right. left. reflexivity.
Qed.

(** What [rankChunks] returns, for every list of raw chunks. *)
Lemma rankChunks_first chunksRaw c :
  In c (rankChunks chunksRaw) -> firstOfKey chunksRaw c.
Proof.
  unfold rankChunks. intros H.
  assert (H' : In c (sortBy byScoreDesc (dedupFilter ∅ chunksRaw))).
  { rewrite <- (firstn_skipn 5). apply in_or_app. left. exact H. }
  eapply Permutation_in in H'; [|apply sortBy_perm].
  apply dedupFilter_first in H'. tauto.
Qed.

Lemma rankChunks_complete chunksRaw c :
  (length (rankChunks chunksRaw) < 5)%nat -> In c chunksRaw ->
  In (chunkKey c) (map chunkKey (rankChunks chunksRaw)).
Proof.
  unfold rankChunks. intros L Hc.
  assert (E : firstn 5 (sortBy byScoreDesc (dedupFilter ∅ chunksRaw))
              = sortBy byScoreDesc (dedupFilter ∅ chunksRaw)).
  { apply firstn_all2. rewrite length_firstn in L. lia. }
  rewrite E. eapply Permutation_in.
  - apply Permutation_map. symmetry. apply sortBy_perm.
  - apply dedupFilter_covers; [exact Hc|apply not_elem_of_empty].
Qed.

Lemma rankChunks_sorted chunksRaw :
  ranksByScore chunksRaw -> StronglySorted scoreGe (rankChunks chunksRaw).
Proof.
  intros R. unfold rankChunks. apply StronglySorted_firstn. apply sortBy_sorted.
  eapply ranksByScore_incl; [exact R|]. intros c. apply dedupFilter_incl.
Qed.

(** The cut keeps the best: a chunk that is the first of its key and is
    not returned ranks no higher than any chunk returned. *)
Lemma rankChunks_best chunksRaw c d :
  ranksByScore chunksRaw ->
  firstOfKey chunksRaw c -> ~ In c (rankChunks chunksRaw) -> In d (rankChunks chunksRaw) ->
  scoreGe d c.
Proof.
  unfold rankChunks. intros R Hc Hn Hd.
  set (sorted := sortBy byScoreDesc (dedupFilter ∅ chunksRaw)) in *.
  assert (S : StronglySorted scoreGe sorted).
  { apply sortBy_sorted. eapply ranksByScore_incl; [exact R|].
    intros x. apply dedupFilter_incl. }
  assert (Hin : In c sorted).
  { eapply Permutation_in; [symmetry; apply sortBy_perm|].
    apply dedupFilter_first. split; [apply not_elem_of_empty|exact Hc]. }
  rewrite <- (firstn_skipn 5 sorted) in S, Hin.
  apply in_app_or in Hin. destruct Hin as [Hin|Hin]; [contradiction|].
  exact (StronglySorted_app_cross scoreGe _ _ S d c Hd Hin).
Qed.

(** On raw chunks in descending order of score the code's order of the
    two steps (keys first, then the sort) gives what sorting first and
    keeping the first of each key afterwards gives. *)
Lemma rankChunks_score_order chunksRaw :
  ranksByScore chunksRaw -> StronglySorted scoreGe chunksRaw ->
  rankChunks chunksRaw = firstn 5 (dedupFilter ∅ (sortBy byScoreDesc chunksRaw))
  /\ rankChunks chunksRaw = firstn 5 (dedupFilter ∅ chunksRaw).
Proof.
  intros R S. unfold rankChunks.
  rewrite (sortBy_id chunksRaw R S).
  rewrite (sortBy_id (dedupFilter ∅ chunksRaw)).
  - split; reflexivity.
  - eapply ranksByScore_incl; [exact R|]. intros c. apply dedupFilter_incl.
  - apply dedupFilter_sorted. exact S.
Qed.

Variable h : Host.

Lemma mockRag_world query w :
  snd (mockRag h query w) = setUuidCount (4 + uuidCount w) w.
Proof. destruct w; reflexivity. Qed.

Lemma mockRag_ranked query w :
  rankChunks (fst (mockRag h query w)) = fst (mockRag h query w).
Proof. vm_compute. reflexivity. Qed.

Lemma mockRag_score_order query w :
  firstn 5 (dedupFilter ∅ (sortBy byScoreDesc (fst (mockRag h query w))))
  = fst (mockRag h query w).
Proof. vm_compute. reflexivity. Qed.

Lemma mockRag_sorted query w : StronglySorted scoreGe (fst (mockRag h query w)).
Proof.
  unfold mockRag, bind, ret, uuid. cbn [fst snd imap].
  repeat (constructor; [|repeat constructor; vm_compute; reflexivity]).
  constructor.
Qed.

Lemma mockRag_numeric query w : Forall numericScore (fst (mockRag h query w)).
Proof.
  unfold mockRag, bind, ret, uuid. cbn [fst snd imap].
  repeat (constructor; [vm_compute; reflexivity|]). constructor.
Qed.

Lemma mockRag_latin1 query w : Forall latin1Key (fst (mockRag h query w)).
Proof.
  unfold mockRag, bind, ret, uuid. cbn [fst snd imap].
  repeat (constructor; [unfold latin1Key; cbn; repeat (constructor; [reflexivity|]);
                        constructor|]).
  constructor.
Qed.

Lemma mockRag_keys query w :
  map chunkKey (fst (mockRag h query w))
  = [u "rag overview"; u "agent collaboration"; u "context windows"; u "answer quality"].
Proof. vm_compute. reflexivity. Qed.

End Retrieval.

Section Normalisation.

Variable h : Host.

Lemma isFinite_not_NaN n : isFinite n && negb (isNaN n) = isFinite n.
Proof.
  unfold isFinite, isNaN.
  destruct (PrimFloat.is_nan n), (PrimFloat.is_infinity n); reflexivity.
Qed.

Lemma toNumberOrUndefined_eq v :
  toNumberOrUndefined h v = if isFinite (Number h v) then Some (Number h v) else None.
Proof. unfold toNumberOrUndefined. cbv zeta. rewrite isFinite_not_NaN. reflexivity. Qed.


Lemma toNumberOrUndefined_None v :
  toNumberOrUndefined h v = None <-> isFinite (Number h v) = false.
Proof.
  rewrite toNumberOrUndefined_eq.
  destruct (isFinite (Number h v)); split; congruence.
Qed.









Lemma Number_examples :
  toNumberOrUndefined h JUndefined = None
  /\ toNumberOrUndefined h (JNum PrimFloat.nan) = None
  /\ toNumberOrUndefined h (JNum PrimFloat.infinity) = None
  /\ toNumberOrUndefined h (JNum 12.5%float) = Some 12.5%float
  /\ toNumberOrUndefined h JNull = Some PrimFloat.zero.
Proof. repeat split. Qed.

End Normalisation.

Section Effects.

Variable h : Host.

Lemma setClockCount_id w : setClockCount (clockCount w) w = w.
Proof. destruct w; reflexivity. Qed.

Lemma pushInto_eq convId m cs w :
  pushInto h convId m cs w =
  (fst (pushedInto h convId m cs (clockCount w)),
   setClockCount (snd (pushedInto h convId m cs (clockCount w))) w).
Proof.
  revert w. induction cs as [|c rest IH]; intros w.
  - cbn. rewrite setClockCount_id. reflexivity.
  - cbn [pushInto pushedInto]. unfold bind at 1.
    destruct (eqStr (conv_id c) convId).
    + cbn [nowISO dateNow bind ret]. unfold bind at 1.
      rewrite IH. cbn. destruct w; reflexivity.
    + cbn [bind ret]. unfold bind at 1. rewrite IH. reflexivity.
Qed.

Lemma pushMessage_eq convId m w :
  pushMessage h convId m w =
  (tt, setConversations (fst (pushedInto h convId m (conversations w) (clockCount w)))
         (setClockCount (snd (pushedInto h convId m (conversations w) (clockCount w))) w)).
Proof.
  unfold pushMessage, bind, gets, modify, ret. rewrite pushInto_eq. reflexivity.
Qed.

Lemma pushedInto_messages cid convId m cs n :
  map conv_messages
      (List.filter (fun c => eqStr (conv_id c) cid) (fst (pushedInto h convId m cs n)))
  = if eqStr cid convId
    then map (fun ms => ms ++ [m])
             (map conv_messages (List.filter (fun c => eqStr (conv_id c) cid) cs))
    else map conv_messages (List.filter (fun c => eqStr (conv_id c) cid) cs).
Proof.
  revert n. induction cs as [|c rest IH]; intros n.
  - cbn. destruct (eqStr cid convId); reflexivity.
  - cbn [pushedInto]. unfold eqStr in *.
    destruct (decide (conv_id c = convId)) as [Hc|Hc].
    + rewrite (bool_decide_eq_true_2 _ Hc). cbn [fst List.filter conv_id].
      destruct (decide (conv_id c = cid)) as [Hd|Hd].
      * rewrite (bool_decide_eq_true_2 _ Hd). cbn [map conv_messages].
        rewrite IH. rewrite bool_decide_eq_true_2 by congruence. reflexivity.
      * rewrite (bool_decide_eq_false_2 _ Hd). apply IH.
    + rewrite (bool_decide_eq_false_2 _ Hc). cbn [fst List.filter].
      destruct (decide (conv_id c = cid)) as [Hd|Hd].
      * rewrite (bool_decide_eq_true_2 _ Hd). cbn [map].
        rewrite IH. rewrite (bool_decide_eq_false_2 (cid = convId)) by congruence.
        reflexivity.
      * rewrite (bool_decide_eq_false_2 _ Hd). apply IH.
Qed.

Lemma mockRag_eq query w :
  mockRag h query w = (corpus h query (uuidCount w), setUuidCount (4 + uuidCount w) w).
Proof. destruct w; reflexivity. Qed.

Lemma applyBackendSteps_eq tid ss : forall w p,
  protocols w !! tid = Some p ->
  applyBackendSteps h tid ss w =
  (tt, setProtocols
         (<[tid := {| turnId := turnId p;
                      steps := steps p
                               ++ fst (backendSteps h ss (uuidCount w) (clockCount w)) |}]>
            (protocols w))
         (setUuidCount (fst (snd (backendSteps h ss (uuidCount w) (clockCount w))))
            (setClockCount (snd (snd (backendSteps h ss (uuidCount w) (clockCount w)))) w))).
Proof.
  induction ss as [|s rest IH]; intros w p Hp.
  - cbn. rewrite app_nil_r. destruct p as [ti st]. cbn.
    rewrite insert_id by assumption. destruct w; reflexivity.
  - cbn [applyBackendSteps backendSteps].
    destruct (bs_id s) as [[|c r]|]; destruct (bs_at s) as [[|c' r']|];
      cbn [strOrM bind ret uuid nowISO dateNow];
      unfold bind at 1;
      (erewrite appendStep_own;
       [|cbn [protocols setUuidCount setClockCount]; exact Hp]);
      (erewrite IH;
       [|cbn [protocols setProtocols setUuidCount setClockCount];
         apply lookup_insert_eq]);
      cbn [protocols setProtocols setUuidCount setClockCount uuidCount clockCount
           turnId steps fst snd];
      rewrite insert_insert_eq, <- app_assoc; destruct w; reflexivity.
Qed.

End Effects.

Section Pipeline.

Variable h : Host.

(** One step of the state monad, on a state written with its setters. *)
Ltac mred :=
  unfold bind;
  cbn [bind ret gets modify fst snd uuid nowISO dateNow setAgentState
       protocols agents conversations activeConversationId activeAgentId
       uuidCount clockCount
       setProtocols setAgents setConversations setActiveConversationId
       setActiveAgentId setUuidCount setClockCount
       runPending tracePending negb turnId steps].

(** The fields of a state written with its setters. *)
Ltac wproj :=
  cbn [protocols agents conversations activeConversationId activeAgentId
       uuidCount clockCount
       setProtocols setAgents setConversations setActiveConversationId
       setActiveAgentId setUuidCount setClockCount].

Lemma withAgentState_fresh i st n a :
  withAgentState i st n a = if eqStr (ag_id a) i then inState a st n else a.
Proof. reflexivity. Qed.

Lemma withAgentState_inState i st n a st' n' :
  withAgentState i st n (inState a st' n')
  = if eqStr (ag_id a) i then inState a st n else inState a st' n'.
Proof. reflexivity. Qed.

(** The states set on the agent [a] one after the other, resolved from the
    inside once the three tests on its identifier are decided. *)
Ltac agentStates a :=
  repeat first
    [ rewrite (withAgentState_fresh _ _ _ a)
    | match goal with
      | |- context [withAgentState ?i ?st ?n (inState a ?st' ?n')] =>
          rewrite (withAgentState_inState i st n a st' n')
      end
    | match goal with H : eqStr (ag_id a) _ = _ |- _ => rewrite H end ].

(** The agent states that the mock path sets, one after the other. *)
Lemma settle_agents (a : AgentSummary) n1 n2 n3 n4 n5 n6 :
  withAgentState (u "writer") idle None
   (withAgentState (u "writer") responding n6
   (withAgentState (u "researcher") idle None
   (withAgentState (u "planner") idle None
   (withAgentState (u "writer") thinking n5
   (withAgentState (u "researcher") responding n4
   (withAgentState (u "researcher") retrieving n3
   (withAgentState (u "planner") retrieving n2
   (withAgentState (u "planner") thinking n1 a))))))))
  = settle a.
Proof.
  unfold settle.
  destruct (eqStr (ag_id a) (u "planner")) eqn:E1;
    destruct (eqStr (ag_id a) (u "researcher")) eqn:E2;
    destruct (eqStr (ag_id a) (u "writer")) eqn:E3;
    agentStates a; reflexivity.
Qed.

Lemma settle_thinking n a :
  settle (withAgentState (u "planner") thinking n a) = settle a.
Proof.
  unfold settle.
  destruct (eqStr (ag_id a) (u "planner")) eqn:E1;
    destruct (eqStr (ag_id a) (u "researcher")) eqn:E2;
    destruct (eqStr (ag_id a) (u "writer")) eqn:E3;
    agentStates a; reflexivity.
Qed.

Lemma timeline_setProtocols_insert (tid : jsstring) X m w :
  timeline tid (setProtocols (<[tid := X]> m) w) = steps X.
Proof. unfold timeline. cbn [protocols setProtocols]. rewrite lookup_insert_eq. reflexivity. Qed.

Lemma timeline_setAgents (tid : jsstring) a w :
  timeline tid (setAgents a w) = timeline tid w.
Proof. reflexivity. Qed.

Lemma timeline_setConversations (tid : jsstring) c w :
  timeline tid (setConversations c w) = timeline tid w.
Proof. reflexivity. Qed.

Lemma timeline_setUuidCount (tid : jsstring) n w :
  timeline tid (setUuidCount n w) = timeline tid w.
Proof. reflexivity. Qed.

Lemma timeline_setClockCount (tid : jsstring) n w :
  timeline tid (setClockCount n w) = timeline tid w.
Proof. reflexivity. Qed.

(** The turn identifier at hand is no inherited name. *)
Ltac plainNow := first [ assumption | exact _ ].

(** Runs a stage: the steps of the monad and the equations of the store,
    of the conversations and of the corpus. *)
Ltac stageExec :=
  repeat (mred;
          try first [ rewrite appendStep_eq by plainNow | rewrite pushMessage_eq
                    | rewrite mockRag_eq | rewrite addProtocol_eq by plainNow ]).

(** The timeline of a turn in a state written with its setters. *)
Ltac timelineNorm :=
  repeat first
    [ rewrite timeline_setProtocols_insert
    | rewrite timeline_setAgents
    | rewrite timeline_setConversations
    | rewrite timeline_setUuidCount
    | rewrite timeline_setClockCount
    | progress cbn [steps] ].

(** Settles [appended] between two states written with their setters. *)
Ltac appendedNow :=
  unfold appended;
  split; [timelineNorm; rewrite <- ?app_assoc; reflexivity|];
  split; [intros _; wproj; rewrite lookup_insert_eq; eexists; reflexivity|];
  split; [intros _; wproj; rewrite lookup_insert_eq; eexists; reflexivity|];
  intros other Hne; wproj; rewrite !lookup_insert_ne by congruence; reflexivity.

(** Stage 1 of the mock path: the plan step. *)
Lemma mockPlan_stage convId agentId safeContent tid `{!Plain tid} userMsg w :
  exists w' sPlan n,
    sendMessageMockPath h convId agentId safeContent tid userMsg w
    = (ret ([], Timer 400 (mockRoute h convId agentId safeContent tid userMsg
                             (rewriteQueryForRetrieval safeContent))), w')
    /\ appended tid [sPlan] w w'
    /\ ps_type sPlan = plan
    /\ conversations w' = conversations w
    /\ agents w' = map (withAgentState (u "planner") thinking n) (agents w).
Proof.
  destruct w as [P A C ac aa un cn]. do 3 eexists. split.
  { unfold sendMessageMockPath. stageExec. reflexivity. }
  split; [appendedNow|]. repeat split.
Qed.

(** Stage 2: the route step. *)
Lemma mockRoute_stage convId agentId safeContent tid `{!Plain tid} userMsg reformulated w :
  exists w' sRoute n,
    mockRoute h convId agentId safeContent tid userMsg reformulated w
    = (([], Timer 400 (mockRetrieveAndPack h convId agentId safeContent tid userMsg
                         reformulated)), w')
    /\ appended tid [sRoute] w w'
    /\ ps_type sRoute = route
    /\ conversations w' = conversations w
    /\ agents w' = map (withAgentState (u "planner") retrieving n) (agents w).
Proof.
  destruct w as [P A C ac aa un cn]. do 3 eexists. split.
  { unfold mockRoute. stageExec. reflexivity. }
  split; [appendedNow|]. repeat split.
Qed.

(** Stage 3: retrieval, ranking and packing. *)
Lemma mockRetrieveAndPack_stage convId agentId safeContent tid `{!Plain tid} userMsg reformulated w :
  exists w' sRetr sPack rag items start n1 n2 n3,
    mockRetrieveAndPack h convId agentId safeContent tid userMsg reformulated w
    = (([Next userMsg; Complete],
        if hasSetTimeout h
        then Timer 900 (mockGenerate h convId agentId safeContent tid rag items start)
        else Nothing), w')
    /\ appended tid [sRetr; sPack] w w'
    /\ ps_type sRetr = retrieve /\ ps_type sPack = pack
    /\ ps_contextWindow sPack = Some items
    /\ ps_retrieval sRetr
       = Some {| rb_query := rag_query rag;
                 rb_items := map toRetrievalItem (rag_chunks rag) |}
    /\ rag_query rag = strOr (Some reformulated) safeContent
    /\ (exists n, rag_chunks rag
                  = rankChunks (corpus h (strOr (Some reformulated) safeContent) n))
    /\ (exists idSystem idHistory,
          items = contextItems idSystem idHistory safeContent rag)
    /\ conversations w' = conversations w
    /\ agents w' = map (withAgentState (u "writer") thinking n3)
                     (map (withAgentState (u "researcher") responding n2)
                        (map (withAgentState (u "researcher") retrieving n1) (agents w))).
Proof.
  destruct w as [P A C ac aa un cn]. do 9 eexists. split.
  { unfold mockRetrieveAndPack. stageExec. reflexivity. }
  split; [appendedNow|].
  split; [reflexivity|]. split; [reflexivity|]. split; [reflexivity|].
  split; [reflexivity|]. split; [reflexivity|].
  split; [eexists; reflexivity|].
  split; [do 2 eexists; reflexivity|].
  split; reflexivity.
Qed.

(** Stage 4: the simulated model call. *)
Lemma mockGenerate_stage convId agentId safeContent tid `{!Plain tid} rag items start w :
  exists w' sGen reply latency n,
    mockGenerate h convId agentId safeContent tid rag items start w
    = (([], Nothing), w')
    /\ appended tid [sGen] w w'
    /\ (forall cid, messagesIn cid w'
                    = if eqStr cid convId
                      then map (fun ms => ms ++ [reply]) (messagesIn cid w)
                      else messagesIn cid w)
    /\ ps_type sGen = generate
    /\ ps_actor sGen = writerActor
    /\ ps_model sGen = Some (mockLlmInfo latency items)
    /\ msg_role reply = agent
    /\ msg_content reply = generateReplyTailored safeContent rag agentId
    /\ msg_context reply = Some rag
    /\ msg_llm reply = Some (mockLlmInfo latency items)
    /\ msg_agentId reply = Some agentId
    /\ msg_protocolTurnId reply = Some tid
    /\ agents w' = map (withAgentState (u "writer") idle None)
                     (map (withAgentState (u "writer") responding n)
                        (map (withAgentState (u "researcher") idle None)
                           (map (withAgentState (u "planner") idle None) (agents w)))).
Proof.
  destruct w as [P A C ac aa un cn]. do 5 eexists. split.
  { unfold mockGenerate. stageExec. reflexivity. }
  split; [appendedNow|].
  split.
  { intros cid. unfold messagesIn. wproj. apply pushedInto_messages. }
  do 9 (split; [reflexivity|]). reflexivity.
Qed.

Lemma appended_trans tid a b w w1 w2 :
  appended tid a w w1 -> appended tid b w1 w2 -> appended tid (a ++ b) w w2.
Proof.
  intros (Ta & Sa & Ka & Oa) (Tb & Sb & Kb & Ob). unfold appended.
  split; [rewrite Tb, Ta, app_assoc; reflexivity|].
  split.
  { intros Hne. destruct b as [|x b'].
    - apply Kb, Sa. rewrite app_nil_r in Hne. exact Hne.
    - apply Sb. discriminate. }
  split; [auto|].
  intros other Hne. rewrite Ob, Oa by assumption. reflexivity.
Qed.

Lemma runMockPath_generated convId agentId safeContent tid `{!Plain tid} userMsg w :
  hasSetTimeout h = true ->
  exists w' recorded reply,
    runMockPath h convId agentId safeContent tid userMsg w = ([Next userMsg; Complete], w')
    /\ localRun h convId agentId safeContent tid w w' recorded reply.
Proof.
  intros Ht.
  destruct (mockPlan_stage convId agentId safeContent tid userMsg w)
    as (w1 & sPlan & n1 & E1 & Ap1 & T1 & C1 & A1).
  destruct (mockRoute_stage convId agentId safeContent tid userMsg
              (rewriteQueryForRetrieval safeContent) w1)
    as (w2 & sRoute & n2 & E2 & Ap2 & T2 & C2 & A2).
  destruct (mockRetrieveAndPack_stage convId agentId safeContent tid userMsg
              (rewriteQueryForRetrieval safeContent) w2)
    as (w3 & sRetr & sPack & rag & items & start & n3 & n4 & n5 & E3 & Ap3 & T3 & T3'
        & Hcw & Hret & Hq & Hch & Hit & C3 & A3).
  destruct (mockGenerate_stage convId agentId safeContent tid rag items start w3)
    as (w4 & sGen & reply & latency & n6 & E4 & Ap4 & Hmsg & T4 & Hact & Hmodel
        & Hrole & Hcontent & Hctx & Hllm & Hag & Hturn & A4).
  exists w4, [sPlan; sRoute; sRetr; sPack; sGen], reply. split.
  { unfold runMockPath. rewrite E1. cbn [ret fst snd runPending].
    rewrite E2. cbn [fst snd runPending]. rewrite E3, Ht. cbn [fst snd runPending].
    rewrite E4. reflexivity. }
  exists sPlan, sRoute, sRetr, sPack, sGen, rag, items, latency.
  split; [reflexivity|].
  split.
  { apply (appended_trans tid [sPlan] [sRoute; sRetr; sPack; sGen] w w1 w4 Ap1).
    apply (appended_trans tid [sRoute] [sRetr; sPack; sGen] w1 w2 w4 Ap2).
    apply (appended_trans tid [sRetr; sPack] [sGen] w2 w3 w4 Ap3 Ap4). }
  split; [cbn [map]; rewrite T1, T2, T3, T3', T4; reflexivity|].
  split; [exact Hret|]. split; [exact Hq|]. split; [exact Hch|].
  split; [exact Hcw|]. split; [exact Hit|]. split; [exact Hmodel|].
  split; [exact Hllm|]. split; [exact Hrole|]. split; [exact Hcontent|].
  split; [exact Hctx|]. split; [exact Hag|]. split; [exact Hturn|].
  split.
  { intros cid. rewrite Hmsg. unfold messagesIn. rewrite C3, C2, C1. reflexivity. }
  rewrite A4, A3, A2, A1. rewrite !map_map. apply map_ext. intros a.
  apply settle_agents.
Qed.

(** On a host without [setTimeout] the model call is never scheduled. *)
Lemma runMockPath_ungenerated convId agentId safeContent tid `{!Plain tid} userMsg w :
  hasSetTimeout h = false ->
  exists w' recorded,
    runMockPath h convId agentId safeContent tid userMsg w = ([Next userMsg; Complete], w')
    /\ appended tid recorded w w'
    /\ map ps_type recorded = [plan; route; retrieve; pack]
    /\ conversations w' = conversations w.
Proof.
  intros Ht.
  destruct (mockPlan_stage convId agentId safeContent tid userMsg w)
    as (w1 & sPlan & n1 & E1 & Ap1 & T1 & C1 & A1).
  destruct (mockRoute_stage convId agentId safeContent tid userMsg
              (rewriteQueryForRetrieval safeContent) w1)
    as (w2 & sRoute & n2 & E2 & Ap2 & T2 & C2 & A2).
  destruct (mockRetrieveAndPack_stage convId agentId safeContent tid userMsg
              (rewriteQueryForRetrieval safeContent) w2)
    as (w3 & sRetr & sPack & rag & items & start & n3 & n4 & n5 & E3 & Ap3 & T3 & T3'
        & _ & _ & _ & _ & _ & C3 & A3).
  exists w3, [sPlan; sRoute; sRetr; sPack]. split.
  { unfold runMockPath. rewrite E1. cbn [ret fst snd runPending].
    rewrite E2. cbn [fst snd runPending]. rewrite E3, Ht. reflexivity. }
  split.
  { apply (appended_trans tid [sPlan] [sRoute; sRetr; sPack] w w1 w3 Ap1).
    apply (appended_trans tid [sRoute] [sRetr; sPack] w1 w2 w3 Ap2 Ap3). }
  split; [cbn [map]; rewrite T1, T2, T3, T3'; reflexivity|].
  rewrite C3, C2, C1. reflexivity.
Qed.

(** Settles [received] once the store lookup [E] of the turn is known. *)
Ltac receivedNow P tid E :=
  unfold received, appended, turnOf;
  split;
    [ split; [timelineNorm; rewrite app_nil_r; unfold timeline; wproj;
              rewrite ?lookup_insert_eq, ?E; reflexivity|];
      split; [intros Hne; congruence|];
      split; [intros _; wproj; rewrite ?lookup_insert_eq, ?E; eexists; reflexivity|];
      intros other Hne; cbn [uuidCount] in Hne; wproj;
      rewrite ?lookup_insert_ne by congruence; reflexivity
    | ];
  split; [wproj; rewrite ?lookup_insert_eq, ?E; eexists; reflexivity|];
  split; [reflexivity|];
  split; [reflexivity|];
  split; [reflexivity|];
  split; [intros cid; unfold messagesIn; wproj; apply pushedInto_messages|];
  reflexivity.

Lemma sendMessage_local content w :
  isConfigured h = false ->
  exists w0 userMsg,
    sendMessage h content w
    = sendMessageMockPath h (activeConversationId w) (selectedAgentOf w)
        (sanitize content) (turnOf h w) userMsg w0
    /\ received h content w w0 userMsg.
Proof.
  intros Hc. destruct w as [P A C ac aa un cn].
  unfold turnOf, selectedAgentOf. wproj.
  destruct (P !! uuidOf h un) as [p|] eqn:E.
  - do 2 eexists. split.
    { unfold sendMessage. rewrite Hc. stageExec. rewrite E. stageExec. reflexivity. }
    receivedNow P (uuidOf h un) E.
  - do 2 eexists. split.
    { unfold sendMessage. rewrite Hc. stageExec. rewrite E. stageExec. reflexivity. }
    receivedNow P (uuidOf h un) E.
Qed.

Lemma sendMessage_remote content w :
  isConfigured h = true ->
  exists w0 w1 userMsg sPlan n,
    sendMessage h content w
    = (ret ([], remotePending h (activeConversationId w) (selectedAgentOf w)
                  (sanitize content) (turnOf h w) userMsg), w1)
    /\ received h content w w0 userMsg
    /\ appended (turnOf h w) [sPlan] w0 w1
    /\ ps_type sPlan = plan
    /\ conversations w1 = conversations w0
    /\ agents w1 = map (withAgentState (u "planner") thinking n) (agents w0).
Proof.
  intros Hc. destruct w as [P A C ac aa un cn].
  unfold turnOf, selectedAgentOf, remotePending. wproj.
  destruct (P !! uuidOf h un) as [p|] eqn:E.
  - exists (setConversations
              (fst (pushedInto h ac
                 {| msg_id := uuidOf h (S un); msg_role := user;
                    msg_content := sanitize content;
                    msg_timestamp := toISOString h (timeAt h cn);
                    msg_agentId := None; msg_context := None; msg_llm := None;
                    msg_protocolTurnId := Some (uuidOf h un) |} C (S cn)))
              {| protocols := P; agents := A; conversations := C;
                 activeConversationId := ac; activeAgentId := aa;
                 uuidCount := S (S un); clockCount := cn |}).
    do 4 eexists. split.
    { unfold sendMessage. rewrite Hc. stageExec. rewrite E. stageExec. reflexivity. }
    split; [receivedNow P (uuidOf h un) E|].
    split.
    { unfold appended. timelineNorm. unfold timeline, timelineId. wproj.
      rewrite ?lookup_insert_eq, ?E. cbn [steps].
      split; [reflexivity|].
      split; [intros _; eexists; reflexivity|].
      split; [intros _; eexists; reflexivity|].
      intros other Hne. rewrite !lookup_insert_ne by congruence. reflexivity. }
    repeat split.
  - exists (setConversations
              (fst (pushedInto h ac
                 {| msg_id := uuidOf h (S un); msg_role := user;
                    msg_content := sanitize content;
                    msg_timestamp := toISOString h (timeAt h cn);
                    msg_agentId := None; msg_context := None; msg_llm := None;
                    msg_protocolTurnId := Some (uuidOf h un) |} C (S cn)))
              {| protocols := <[uuidOf h un := {| turnId := uuidOf h un; steps := [] |}]> P;
                 agents := A; conversations := C;
                 activeConversationId := ac; activeAgentId := aa;
                 uuidCount := S (S un); clockCount := cn |}).
    do 4 eexists. split.
    { unfold sendMessage. rewrite Hc. stageExec. rewrite E. stageExec. reflexivity. }
    split; [receivedNow P (uuidOf h un) E|].
    split.
    { unfold appended. timelineNorm. unfold timeline, timelineId. wproj.
      rewrite ?lookup_insert_eq, ?E. cbn [steps].
      split; [reflexivity|].
      split; [intros _; eexists; reflexivity|].
      split; [intros _; eexists; reflexivity|].
      intros other Hne. rewrite !lookup_insert_ne by congruence. reflexivity. }
    repeat split.
Qed.

(** The handler of a failed exchange: the error step, then the mock
    path from its first step on. *)
Lemma onBackendError_stage convId agentId safeContent tid `{!Plain tid} userMsg err w :
  exists w' sErr,
    onBackendError h convId agentId safeContent tid userMsg err w
    = (let '(obs, w1) :=
         sendMessageMockPath h convId agentId safeContent tid userMsg w' in
       obs w1)
    /\ appended tid [sErr] w w'
    /\ ps_type sErr = error_
    /\ ps_actor sErr = backendActor
    /\ ps_note sErr
       = Some (u "Backend error: " ++ strOr (err_message err) (err_string err))
    /\ conversations w' = conversations w
    /\ agents w' = agents w.
Proof.
  destruct w as [P A C ac aa un cn]. do 2 eexists. split.
  { unfold onBackendError. stageExec. reflexivity. }
  split; [appendedNow|]. repeat split.
Qed.

Lemma backendSteps_types ss : forall un cn,
  map ps_type (fst (backendSteps h ss un cn))
  = map (fun s => strOr (bs_type s) plan) ss.
Proof.
  induction ss as [|s rest IH]; intros un cn; [reflexivity|].
  cbn [backendSteps].
  destruct (bs_id s) as [[|c r]|]; destruct (bs_at s) as [[|c' r']|];
    cbn [fst map ps_type]; rewrite IH; reflexivity.
Qed.

(** The handler of an answer of the backend. *)
Lemma onBackendAnswer_stage convId agentId tid userMsg res w :
  is_Some (protocols w !! tid) ->
  exists w' added reply,
    onBackendAnswer h convId agentId tid userMsg res w
    = (([Next userMsg; Complete], Nothing), w')
    /\ appended tid added w w'
    /\ map ps_type added = map (fun s => strOr (bs_type s) plan) (res_protocol res)
    /\ (forall cid, messagesIn cid w'
                    = if eqStr cid convId
                      then map (fun ms => ms ++ [reply]) (messagesIn cid w)
                      else messagesIn cid w)
    /\ msg_role reply = agent
    /\ msg_content reply = strOr (Some (res_content res)) (u "(no content)")
    /\ msg_context reply = res_context res
    /\ msg_llm reply = normLlm h (res_llm res)
    /\ msg_agentId reply = Some agentId
    /\ msg_protocolTurnId reply = Some tid
    /\ agents w' = map (withAgentState (u "planner") idle None) (agents w).
Proof.
  intros [p Hp]. destruct w as [P A C ac aa un cn]. cbn [protocols] in Hp.
  pose proof (applyBackendSteps_eq h tid (res_protocol res)
                {| protocols := P; agents := A; conversations := C;
                   activeConversationId := ac; activeAgentId := aa;
                   uuidCount := un; clockCount := cn |} p Hp) as E.
  fold (applyBackendProtocol h tid res) in E.
  cbn [protocols uuidCount clockCount] in E.
  eexists. exists (fst (backendSteps h (res_protocol res) un cn)). eexists.
  split.
  { unfold onBackendAnswer. unfold bind at 1. rewrite E. stageExec. reflexivity. }
  split.
  { unfold appended, timeline. wproj. rewrite lookup_insert_eq, Hp. cbn [steps].
    split; [reflexivity|].
    split; [intros _; eexists; reflexivity|].
    split; [intros _; eexists; reflexivity|].
    intros other Hne. rewrite lookup_insert_ne by congruence. reflexivity. }
  split; [apply backendSteps_types|].
  split.
  { intros cid. unfold messagesIn. wproj. apply pushedInto_messages. }
  repeat split.
Qed.

End Pipeline.

Section Submission.

Variable h : Host.

Lemma submit_mock content w convId agentId safeContent tid userMsg w0 :
  sendMessage h content w
  = sendMessageMockPath h convId agentId safeContent tid userMsg w0 ->
  submit h content w = runMockPath h convId agentId safeContent tid userMsg w0.
Proof.
  intros E. unfold submit, runMockPath, bind. rewrite E.
  destruct (sendMessageMockPath h convId agentId safeContent tid userMsg w0) as [obs w1].
  destruct (obs w1) as [sub w2].
  destruct (runPending h (snd sub) w2) as [ns w3]. reflexivity.
Qed.

Lemma submit_remote content w convId agentId safeContent tid userMsg w1 :
  sendMessage h content w
  = (ret ([], remotePending h convId agentId safeContent tid userMsg), w1) ->
  submit h content w
  = match httpPost h (backendRequest agentId safeContent) with
    | HttpResponded body =>
        let '((ns, p), w2) :=
          onBackendAnswer h convId agentId tid userMsg (normalizeBody body) w1 in
        let '(ns', w3) := runPending h p w2 in (ns ++ ns', w3)
    | HttpFailed err =>
        let '((ns, p), w2) :=
          onBackendError h convId agentId safeContent tid userMsg err w1 in
        let '(ns', w3) := runPending h p w2 in (ns ++ ns', w3)
    end.
Proof.
  intros E. unfold submit, bind. rewrite E. cbn [ret fst snd app].
  unfold remotePending. cbn [runPending].
  destruct (httpPost h (backendRequest agentId safeContent)) as [e|body].
  - destruct (onBackendError h convId agentId safeContent tid userMsg e w1)
      as [[ns p] w2].
    destruct (runPending h p w2) as [ns' w3]. reflexivity.
  - destruct (onBackendAnswer h convId agentId tid userMsg (normalizeBody body) w1)
      as [[ns p] w2].
    destruct (runPending h p w2) as [ns' w3]. reflexivity.
Qed.

Lemma failed_as_mock convId agentId safeContent tid userMsg err w1 w2 :
  onBackendError h convId agentId safeContent tid userMsg err w1
  = (let '(obs, wa) := sendMessageMockPath h convId agentId safeContent tid userMsg w2 in
     obs wa) ->
  (let '((ns, p), wb) := onBackendError h convId agentId safeContent tid userMsg err w1 in
   let '(ns', wc) := runPending h p wb in (ns ++ ns', wc))
  = runMockPath h convId agentId safeContent tid userMsg w2.
Proof.
  intros E. rewrite E. unfold runMockPath.
  destruct (sendMessageMockPath h convId agentId safeContent tid userMsg w2) as [obs wa].
  destruct (obs wa) as [[ns p] wb]. cbn [fst snd].
  destruct (runPending h p wb) as [ns' wc]. reflexivity.
Qed.

Lemma messagesIn_twice (cid convId : jsstring) (a b : Message) (M0 : list (list Message)) :
  (if eqStr cid convId
   then map (fun ms => ms ++ [b])
          (if eqStr cid convId then map (fun ms => ms ++ [a]) M0 else M0)
   else if eqStr cid convId then map (fun ms => ms ++ [a]) M0 else M0)
  = if eqStr cid convId then map (fun ms => ms ++ [a; b]) M0 else M0.
Proof.
  destruct (eqStr cid convId); [|reflexivity].
  rewrite map_map. apply map_ext. intros ms. rewrite <- app_assoc. reflexivity.
Qed.

(** A turn without a backend, on a host with timers. *)
Lemma submit_local content w :
  isConfigured h = false -> hasSetTimeout h = true ->
  exists w0 w' userMsg recorded reply,
    submit h content w = ([Next userMsg; Complete], w')
    /\ received h content w w0 userMsg
    /\ localRun h (activeConversationId w) (selectedAgentOf w) (sanitize content)
         (turnOf h w) w0 w' recorded reply.
Proof.
  intros Hc Ht.
  destruct (sendMessage_local h content w Hc) as (w0 & userMsg & E & R).
  destruct (runMockPath_generated h (activeConversationId w) (selectedAgentOf w)
              (sanitize content) (turnOf h w) userMsg w0 Ht)
    as (w' & recorded & reply & Er & L).
  exists w0, w', userMsg, recorded, reply.
  split; [rewrite (submit_mock _ _ _ _ _ _ _ _ E); exact Er|].
  split; assumption.
Qed.

(** A turn whose backend call fails, on a host with timers. *)
Lemma submit_failed content w err :
  isConfigured h = true -> hasSetTimeout h = true ->
  httpPost h (requestOf content w) = HttpFailed err ->
  exists w0 w1 w2 w' userMsg sPlan sErr recorded reply n,
    submit h content w = ([Next userMsg; Complete], w')
    /\ received h content w w0 userMsg
    /\ appended (turnOf h w) [sPlan] w0 w1
    /\ ps_type sPlan = plan
    /\ appended (turnOf h w) [sErr] w1 w2
    /\ ps_type sErr = error_
    /\ ps_actor sErr = backendActor
    /\ ps_note sErr
       = Some (u "Backend error: " ++ strOr (err_message err) (err_string err))
    /\ conversations w2 = conversations w0
    /\ agents w2 = map (withAgentState (u "planner") thinking n) (agents w)
    /\ localRun h (activeConversationId w) (selectedAgentOf w) (sanitize content)
         (turnOf h w) w2 w' recorded reply.
Proof.
  intros Hc Ht Hpost.
  destruct (sendMessage_remote h content w Hc)
    as (w0 & w1 & userMsg & sPlan & n & E & R & Ap & Tp & C1 & A1).
  destruct (onBackendError_stage h (activeConversationId w) (selectedAgentOf w)
              (sanitize content) (turnOf h w) userMsg err w1)
    as (w2 & sErr & Ee & Ae & Te & Hact & Hnote & C2 & A2).
  destruct (runMockPath_generated h (activeConversationId w) (selectedAgentOf w)
              (sanitize content) (turnOf h w) userMsg w2 Ht)
    as (w' & recorded & reply & Er & L).
  exists w0, w1, w2, w', userMsg, sPlan, sErr, recorded, reply, n.
  split.
  { rewrite (submit_remote _ _ _ _ _ _ _ _ E). unfold requestOf in Hpost.
    rewrite Hpost. rewrite (failed_as_mock _ _ _ _ _ _ _ _ Ee). exact Er. }
  repeat (split; [assumption|]).
  split; [congruence|].
  split; [|exact L].
  rewrite A2, A1. destruct R as (_ & _ & _ & _ & _ & _ & ->). reflexivity.
Qed.

(** A turn that the backend answers. *)
Lemma submit_answered content w body :
  isConfigured h = true ->
  httpPost h (requestOf content w) = HttpResponded body ->
  exists w0 w1 w' userMsg sPlan added reply n,
    submit h content w = ([Next userMsg; Complete], w')
    /\ received h content w w0 userMsg
    /\ appended (turnOf h w) [sPlan] w0 w1
    /\ ps_type sPlan = plan
    /\ appended (turnOf h w) added w1 w'
    /\ map ps_type added
       = map (fun s => strOr (bs_type s) plan) (res_protocol (normalizeBody body))
    /\ (forall cid, messagesIn cid w'
                    = if eqStr cid (activeConversationId w)
                      then map (fun ms => ms ++ [userMsg; reply]) (messagesIn cid w)
                      else messagesIn cid w)
    /\ msg_role reply = agent
    /\ msg_content reply
       = strOr (Some (res_content (normalizeBody body))) (u "(no content)")
    /\ msg_llm reply = normLlm h (res_llm (normalizeBody body))
    /\ msg_protocolTurnId reply = Some (turnOf h w)
    /\ agents w' = map (withAgentState (u "planner") idle None)
                     (map (withAgentState (u "planner") thinking n) (agents w)).
Proof.
  intros Hc Hpost.
  destruct (sendMessage_remote h content w Hc)
    as (w0 & w1 & userMsg & sPlan & n & E & R & Ap & Tp & C1 & A1).
  assert (Hsome : is_Some (protocols w1 !! turnOf h w)).
  { destruct Ap as (_ & S1 & _). apply S1. discriminate. }
  destruct (onBackendAnswer_stage h (activeConversationId w) (selectedAgentOf w)
              (turnOf h w) userMsg (normalizeBody body) w1 Hsome)
    as (w' & added & reply & Ea & Aa & Ta & Hmsg & Hrole & Hcontent & Hctx & Hllm
        & Hag & Hturn & A2).
  exists w0, w1, w', userMsg, sPlan, added, reply, n.
  split.
  { rewrite (submit_remote _ _ _ _ _ _ _ _ E). unfold requestOf in Hpost.
    rewrite Hpost, Ea. reflexivity. }
  repeat (split; [assumption|]).
  split.
  { intros cid. rewrite Hmsg. unfold messagesIn at 1 2. rewrite C1.
    fold (messagesIn cid w0).
    destruct R as (_ & _ & _ & _ & _ & Hm & _). rewrite Hm.
    apply messagesIn_twice. }
  repeat (split; [assumption|]).
  rewrite A2, A1. destruct R as (_ & _ & _ & _ & _ & _ & ->). reflexivity.
Qed.

(** The kinds recorded without timers: the model call is never
    scheduled. *)
Lemma submit_local_untimed content w :
  isConfigured h = false -> hasSetTimeout h = false ->
  exists w0 w' userMsg recorded,
    submit h content w = ([Next userMsg; Complete], w')
    /\ received h content w w0 userMsg
    /\ appended (turnOf h w) recorded w0 w'
    /\ map ps_type recorded = [plan; route; retrieve; pack]
    /\ conversations w' = conversations w0.
Proof.
  intros Hc Ht.
  destruct (sendMessage_local h content w Hc) as (w0 & userMsg & E & R).
  destruct (runMockPath_ungenerated h (activeConversationId w) (selectedAgentOf w)
              (sanitize content) (turnOf h w) userMsg w0 Ht)
    as (w' & recorded & Er & Ap & Tp & Cv).
  exists w0, w', userMsg, recorded.
  split; [rewrite (submit_mock _ _ _ _ _ _ _ _ E); exact Er|].
  split; [assumption|]. split; [assumption|]. split; assumption.
Qed.

Lemma submit_failed_untimed content w err :
  isConfigured h = true -> hasSetTimeout h = false ->
  httpPost h (requestOf content w) = HttpFailed err ->
  exists w0 w' userMsg recorded,
    submit h content w = ([Next userMsg; Complete], w')
    /\ received h content w w0 userMsg
    /\ appended (turnOf h w) recorded w0 w'
    /\ map ps_type recorded = [plan; error_; plan; route; retrieve; pack]
    /\ conversations w' = conversations w0.
Proof.
  intros Hc Ht Hpost.
  destruct (sendMessage_remote h content w Hc)
    as (w0 & w1 & userMsg & sPlan & n & E & R & Ap & Tp & C1 & A1).
  destruct (onBackendError_stage h (activeConversationId w) (selectedAgentOf w)
              (sanitize content) (turnOf h w) userMsg err w1)
    as (w2 & sErr & Ee & Ae & Te & Hact & Hnote & C2 & A2).
  destruct (runMockPath_ungenerated h (activeConversationId w) (selectedAgentOf w)
              (sanitize content) (turnOf h w) userMsg w2 Ht)
    as (w' & recorded & Er & Apr & Tpr & Cv).
  exists w0, w', userMsg, ([sPlan] ++ [sErr] ++ recorded).
  split.
  { rewrite (submit_remote _ _ _ _ _ _ _ _ E). unfold requestOf in Hpost.
    rewrite Hpost. rewrite (failed_as_mock _ _ _ _ _ _ _ _ Ee). exact Er. }
  split; [assumption|].
  split.
  { apply (appended_trans _ _ _ _ _ _ Ap).
    apply (appended_trans _ _ _ _ _ _ Ae Apr). }
  split; [cbn [app map]; rewrite Tp, Te, Tpr; reflexivity|].
  congruence.
Qed.

(** Every submission tells its subscriber the user message and then
    completes, and leaves the conversation extended by the user message
    and what follows it ([later]: the reply, if one was appended). *)
Lemma submit_outcome content w :
  exists w' userMsg later,
    submit h content w = ([Next userMsg; Complete], w')
    /\ msg_role userMsg = user
    /\ msg_content userMsg = sanitize content
    /\ msg_protocolTurnId userMsg = Some (turnOf h w)
    /\ Forall (fun m => msg_role m = agent) later
    /\ forall cid, messagesIn cid w'
                   = if eqStr cid (activeConversationId w)
                     then map (fun ms => ms ++ userMsg :: later) (messagesIn cid w)
                     else messagesIn cid w.
Proof.
  destruct (isConfigured h) eqn:Hc.
  - destruct (httpPost h (requestOf content w)) as [err|body] eqn:Hpost.
    + destruct (hasSetTimeout h) eqn:Ht.
      * destruct (submit_failed content w err Hc Ht Hpost)
          as (w0 & w1 & w2 & w' & userMsg & sPlan & sErr & recorded & reply & n
              & E & R & _ & _ & _ & _ & _ & _ & C2 & _ & L).
        destruct L as (? & ? & ? & ? & ? & ? & ? & ? & _ & _ & _ & _ & _ & _ & _ & _
                       & _ & _ & Hrole & _ & _ & _ & _ & Hmsg & _).
        destruct R as (_ & _ & Hu & Hcont & Hturn & Hm & _).
        exists w', userMsg, [reply].
        split; [exact E|]. repeat (split; [assumption|]).
        split; [repeat constructor; exact Hrole|].
        intros cid. rewrite Hmsg. unfold messagesIn at 1 2. rewrite C2.
        fold (messagesIn cid w0). rewrite Hm. apply messagesIn_twice.
      * destruct (submit_failed_untimed content w err Hc Ht Hpost)
          as (w0 & w' & userMsg & recorded & E & R & _ & _ & Cv).
        destruct R as (_ & _ & Hu & Hcont & Hturn & Hm & _).
        exists w', userMsg, [].
        split; [exact E|]. repeat (split; [assumption|]).
        split; [constructor|].
        intros cid. unfold messagesIn at 1. rewrite Cv. apply Hm.
    + destruct (submit_answered content w body Hc Hpost)
        as (w0 & w1 & w' & userMsg & sPlan & added & reply & n & E & R & _ & _ & _ & _
            & Hmsg & Hrole & _).
      destruct R as (_ & _ & Hu & Hcont & Hturn & Hm & _).
      exists w', userMsg, [reply].
      split; [exact E|]. repeat (split; [assumption|]).
      split; [repeat constructor; exact Hrole|]. exact Hmsg.
  - destruct (hasSetTimeout h) eqn:Ht.
    + destruct (submit_local content w Hc Ht)
        as (w0 & w' & userMsg & recorded & reply & E & R & L).
      destruct L as (? & ? & ? & ? & ? & ? & ? & ? & _ & _ & _ & _ & _ & _ & _ & _
                     & _ & _ & Hrole & _ & _ & _ & _ & Hmsg & _).
      destruct R as (_ & _ & Hu & Hcont & Hturn & Hm & _).
      exists w', userMsg, [reply].
      split; [exact E|]. repeat (split; [assumption|]).
      split; [repeat constructor; exact Hrole|].
      intros cid. rewrite Hmsg, Hm. apply messagesIn_twice.
    + destruct (submit_local_untimed content w Hc Ht)
        as (w0 & w' & userMsg & recorded & E & R & _ & _ & Cv).
      destruct R as (_ & _ & Hu & Hcont & Hturn & Hm & _).
      exists w', userMsg, [].
      split; [exact E|]. repeat (split; [assumption|]).
      split; [constructor|].
      intros cid. unfold messagesIn at 1. rewrite Cv. apply Hm.
Qed.

End Submission.

Section StepKinds.

(** Two different step kinds are never equal. *)
Ltac kindsDiffer :=
  match goal with
  | E : _ = _ |- _ => vm_compute in E; discriminate E
  end.

Lemma timeline_fresh tid w : protocols w !! tid = None -> timeline tid w = [].
Proof. intros H. unfold timeline. rewrite H. reflexivity. Qed.

Lemma kinds_of_turn (h : Host) content w w0 w' userMsg recorded :
  protocols w !! turnOf h w = None ->
  received h content w w0 userMsg ->
  appended (turnOf h w) recorded w0 w' ->
  kinds (turnOf h w) w' = map ps_type recorded
  /\ timeline (turnOf h w) w' = recorded.
Proof.
  intros Hf (Ap0 & _) Ap.
  pose proof (appended_trans _ _ _ _ _ _ Ap0 Ap) as (T & _).
  cbn [app] in T. rewrite (timeline_fresh _ _ Hf) in T. cbn [app] in T.
  unfold kinds. rewrite T. split; reflexivity.
Qed.

Lemma not_directlyBefore_error_route (tail : list jsstring) :
  (tail = [generate] \/ tail = []) ->
  ~ directlyBefore error_ route ([plan; error_; plan; route; retrieve; pack] ++ tail).
Proof.
  intros Ht (pre & post & E).
  destruct Ht as [-> | ->]; cbn [app] in E;
    repeat (destruct pre as [|? pre];
            [cbn [app] in E; injection E; intros; kindsDiffer
            |cbn [app] in E; injection E as _ E]);
    destruct pre; discriminate E.
Qed.

(** C2 (amended): for a submitted turn whose identifier is new to the
    store, the kinds recorded in its timeline are, in this order,
    - plan, route, retrieve, pack, generate when no backend is configured,
      with no error step (the generate step is recorded by a timer; it is
      missing only on a host without timers);
    - plan followed by the kinds of the steps the backend supplied (plan
      for a step without kind) when the exchange succeeded, so that an
      error step, if there is one, is among the supplied ones;
    - plan, error, plan, route, retrieve, pack, generate when the exchange
      failed: the error step stands directly before the plan step of the
      local pipeline, which then runs from its beginning, and not directly
      before the route step. *)
Theorem turn_step_kinds (h : Host) (content : jsstring) (w : World) :
  protocols w !! turnOf h w = None ->
  let ks := kinds (turnOf h w) (snd (submit h content w)) in
  let tail := if hasSetTimeout h then [generate] else [] in
  (isConfigured h = false ->
     ks = [plan; route; retrieve; pack] ++ tail /\ ~ In error_ ks)
  /\ (forall body,
        isConfigured h = true ->
        httpPost h (requestOf content w) = HttpResponded body ->
        let supplied := map (fun s => strOr (bs_type s) plan)
                          (res_protocol (normalizeBody body)) in
        ks = plan :: supplied /\ (In error_ ks -> In error_ supplied))
  /\ (forall err,
        isConfigured h = true ->
        httpPost h (requestOf content w) = HttpFailed err ->
        ks = [plan; error_; plan; route; retrieve; pack] ++ tail
        /\ directlyBefore error_ plan ks
        /\ ~ directlyBefore error_ route ks).
Proof.
  intros Hf. cbv zeta. split; [|split].
  - intros Hc.
    assert (E : kinds (turnOf h w) (snd (submit h content w))
                = [plan; route; retrieve; pack]
                  ++ (if hasSetTimeout h then [generate] else [])).
    { destruct (hasSetTimeout h) eqn:Ht.
      - destruct (submit_local h content w Hc Ht)
          as (w0 & w' & userMsg & recorded & reply & E & R & L).
        destruct L as (? & ? & ? & ? & ? & ? & ? & ? & Hrec & Ap & Ty & _).
        rewrite E. cbn [snd].
        destruct (kinds_of_turn h content w w0 w' userMsg recorded Hf R Ap) as [-> _].
        exact Ty.
      - destruct (submit_local_untimed h content w Hc Ht)
          as (w0 & w' & userMsg & recorded & E & R & Ap & Ty & _).
        rewrite E. cbn [snd].
        destruct (kinds_of_turn h content w w0 w' userMsg recorded Hf R Ap) as [-> _].
        exact Ty. }
    split; [exact E|]. rewrite E.
    destruct (hasSetTimeout h); cbn [app In];
      intros Hin; repeat (destruct Hin as [Hin|Hin]; [kindsDiffer|]); exact Hin.
  - intros body Hc Hpost.
    destruct (submit_answered h content w body Hc Hpost)
      as (w0 & w1 & w' & userMsg & sPlan & added & reply & n & E & R & Ap & Tp & Aa & Ta & _).
    rewrite E. cbn [snd].
    pose proof (appended_trans _ _ _ _ _ _ Ap Aa) as Ap'.
    destruct (kinds_of_turn h content w w0 w' userMsg _ Hf R Ap') as [-> _].
    cbn [app map]. rewrite Tp, Ta. split; [reflexivity|].
    intros [Hin|Hin]; [vm_compute in Hin; discriminate Hin|exact Hin].
  - intros err Hc Hpost.
    assert (E : kinds (turnOf h w) (snd (submit h content w))
                = [plan; error_; plan; route; retrieve; pack]
                  ++ (if hasSetTimeout h then [generate] else [])).
    { destruct (hasSetTimeout h) eqn:Ht.
      - destruct (submit_failed h content w err Hc Ht Hpost)
          as (w0 & w1 & w2 & w' & userMsg & sPlan & sErr & recorded & reply & n
              & E & R & Ap & Tp & Ae & Te & _ & _ & _ & _ & L).
        destruct L as (? & ? & ? & ? & ? & ? & ? & ? & Hrec & Al & Ty & _).
        rewrite E. cbn [snd].
        pose proof (appended_trans _ _ _ _ _ _ Ap (appended_trans _ _ _ _ _ _ Ae Al))
          as Ap'.
        destruct (kinds_of_turn h content w w0 w' userMsg _ Hf R Ap') as [-> _].
        rewrite !map_app. cbn [map]. rewrite Tp, Te, Ty. reflexivity.
      - destruct (submit_failed_untimed h content w err Hc Ht Hpost)
          as (w0 & w' & userMsg & recorded & E & R & Ap & Ty & _).
        rewrite E. cbn [snd].
        destruct (kinds_of_turn h content w w0 w' userMsg recorded Hf R Ap) as [-> _].
        exact Ty. }
    split; [exact E|]. rewrite E. split.
    + exists [plan], ([route; retrieve; pack]
                      ++ (if hasSetTimeout h then [generate] else [])).
      reflexivity.
    + apply not_directlyBefore_error_route.
      destruct (hasSetTimeout h); [left|right]; reflexivity.
Qed.

End StepKinds.

Section Fallback.

(** The turn of the submission [hi] on the host whose exchange times out. *)
Lemma failing_kinds :
  kinds (turnOf failingHost (initialWorld failingHost))
    (snd (submit failingHost (u "hi") (initialWorld failingHost)))
  = [plan; error_; plan; route; retrieve; pack; generate].
Proof. vm_compute. reflexivity. Qed.

Lemma failing_remoteFailed :
  remoteFailed failingHost (u "hi") (initialWorld failingHost).
Proof. split; [reflexivity|]. exists timeoutError. reflexivity. Qed.

(** C2 as worded fails: on a host whose backend is configured and whose
    exchange times out, the turn of the submission [hi] from the initial
    state records plan, error, plan, route, retrieve, pack, generate; the
    remote path was attempted and failed, yet no error step stands
    directly before the route step. *)
Lemma claimedOrder_fails :
  remoteFailed failingHost (u "hi") (initialWorld failingHost)
  /\ kinds (turnOf failingHost (initialWorld failingHost))
       (snd (submit failingHost (u "hi") (initialWorld failingHost)))
     = [plan; error_; plan; route; retrieve; pack; generate]
  /\ ~ directlyBefore error_ route [plan; error_; plan; route; retrieve; pack; generate]
  /\ ~ claimedOrder failingHost (u "hi") (initialWorld failingHost).
Proof.
  split; [exact failing_remoteFailed|]. split; [exact failing_kinds|].
  assert (N : ~ directlyBefore error_ route
                  [plan; error_; plan; route; retrieve; pack; generate])
    by (apply (not_directlyBefore_error_route [generate]); left; reflexivity).
  split; [exact N|].
  unfold claimedOrder. cbv zeta. rewrite failing_kinds. intros [_ [_ H]].
  exact (N (H failing_remoteFailed)).
Qed.

(** The amended order on the host whose exchange times out. *)
Lemma turn_step_kinds_witness :
  let ks := kinds (turnOf failingHost (initialWorld failingHost))
              (snd (submit failingHost (u "hi") (initialWorld failingHost))) in
  ks = [plan; error_; plan; route; retrieve; pack; generate]
  /\ directlyBefore error_ plan ks
  /\ ~ directlyBefore error_ route ks.
Proof.
  cbv zeta.
  destruct (turn_step_kinds failingHost (u "hi") (initialWorld failingHost))
    as (_ & _ & H).
  - reflexivity.
  - apply (H timeoutError); reflexivity.
Defined.

(** C3 as worded fails: on a host without [setTimeout] whose backend is
    configured and whose exchange times out, the turn of the submission
    [hi] from the initial state records plan, error, plan, route,
    retrieve, pack and no generate step, and the conversation gains the
    user message and no reply: the local pipeline does not run to its
    end. *)
Lemma claimedFallback_fails :
  remoteFailed (untimed failingHost) (u "hi") (initialWorld (untimed failingHost))
  /\ kinds (turnOf (untimed failingHost) (initialWorld (untimed failingHost)))
       (snd (submit (untimed failingHost) (u "hi") (initialWorld (untimed failingHost))))
     = [plan; error_; plan; route; retrieve; pack]
  /\ map (map msg_role)
       (messagesIn (u "conv-1")
          (snd (submit (untimed failingHost) (u "hi") (initialWorld (untimed failingHost)))))
     = [[agent; user]]
  /\ ~ claimedFallback (untimed failingHost) (u "hi") (initialWorld (untimed failingHost)).
Proof.
  assert (F : remoteFailed (untimed failingHost) (u "hi")
                (initialWorld (untimed failingHost))).
  { split; [reflexivity|]. exists timeoutError. reflexivity. }
  assert (M : map (map msg_role)
                (messagesIn (u "conv-1")
                   (snd (submit (untimed failingHost) (u "hi")
                           (initialWorld (untimed failingHost)))))
              = [[agent; user]]) by (vm_compute; reflexivity).
  split; [exact F|]. split; [vm_compute; reflexivity|]. split; [exact M|].
  intros C. destruct (C F) as (w' & userMsg & reply & before & sErr & after & E & _ & _
                               & _ & _ & _ & _ & Hm).
  rewrite E in M. cbn [snd] in M. rewrite (Hm (u "conv-1")) in M.
  vm_compute in M. discriminate M.
Qed.

(** C3 (amended): when a backend is configured and the exchange fails,
    the submission appends to the timeline of the turn the plan step of
    the remote attempt, one error step, whose actor is [backend] and
    whose note carries the reason, and then the steps of the local
    pipeline; the error step is the only one among them. The caller
    receives the user message and the completion, never an error. On a
    host with [setTimeout] the local pipeline records its five steps,
    the conversation gains the user message and then the reply of the
    agent, and the agents of the pipeline are idle again. On a host
    without [setTimeout] the model call is never scheduled: the
    pipeline records plan, route, retrieve and pack, no generate step,
    and the conversation gains the user message and no reply. *)
Theorem remote_failure_falls_back (h : Host) (content : jsstring) (w : World)
    (err : TransportError) :
  isConfigured h = true ->
  httpPost h (requestOf content w) = HttpFailed err ->
  (hasSetTimeout h = true ->
   exists w' userMsg reply sPlan0 sErr sPlan sRoute sRetr sPack sGen,
    submit h content w = ([Next userMsg; Complete], w')
    /\ timeline (turnOf h w) w'
       = timeline (turnOf h w) w ++ [sPlan0; sErr; sPlan; sRoute; sRetr; sPack; sGen]
    /\ map ps_type [sPlan0; sErr; sPlan; sRoute; sRetr; sPack; sGen]
       = [plan; error_; plan; route; retrieve; pack; generate]
    /\ List.filter (fun s => eqStr (ps_type s) error_)
         [sPlan0; sErr; sPlan; sRoute; sRetr; sPack; sGen] = [sErr]
    /\ actor_id (ps_actor sErr) = u "backend"
    /\ ps_note sErr
       = Some (u "Backend error: " ++ strOr (err_message err) (err_string err))
    /\ msg_role userMsg = user
    /\ msg_role reply = agent
    /\ msg_protocolTurnId reply = Some (turnOf h w)
    /\ (forall cid, messagesIn cid w'
                    = if eqStr cid (activeConversationId w)
                      then map (fun ms => ms ++ [userMsg; reply]) (messagesIn cid w)
                      else messagesIn cid w)
    /\ agents w' = map settle (agents w))
  /\ (hasSetTimeout h = false ->
      exists w' userMsg sPlan0 sErr sPlan sRoute sRetr sPack,
        submit h content w = ([Next userMsg; Complete], w')
        /\ timeline (turnOf h w) w'
           = timeline (turnOf h w) w ++ [sPlan0; sErr; sPlan; sRoute; sRetr; sPack]
        /\ map ps_type [sPlan0; sErr; sPlan; sRoute; sRetr; sPack]
           = [plan; error_; plan; route; retrieve; pack]
        /\ actor_id (ps_actor sErr) = u "backend"
        /\ ps_note sErr
           = Some (u "Backend error: " ++ strOr (err_message err) (err_string err))
        /\ msg_role userMsg = user
        /\ (forall cid, messagesIn cid w'
                        = if eqStr cid (activeConversationId w)
                          then map (fun ms => ms ++ [userMsg]) (messagesIn cid w)
                          else messagesIn cid w)).
Proof.
  intros Hc Hpost. split; intros Ht.
  - destruct (submit_failed h content w err Hc Ht Hpost)
      as (w0 & w1 & w2 & w' & userMsg & sPlan0 & sErr & recorded & reply & n
          & E & R & Ap & Tp & Ae & Te & Hact & Hnote & C2 & A2 & L).
    destruct L as (sPlan & sRoute & sRetr & sPack & sGen & rag & items & latency
                   & Hrec & Al & Ty & _ & _ & _ & _ & _ & _ & _ & Hrole & _ & _ & _
                   & Hturn & Hmsg & Hag).
    subst recorded.
    pose proof (appended_trans _ _ _ _ _ _ Ap (appended_trans _ _ _ _ _ _ Ae Al)) as Ap'.
    pose proof R as (Ap0 & _).
    pose proof (appended_trans _ _ _ _ _ _ Ap0 Ap') as (Tl & _).
    cbn [app] in Tl.
    cbn [map] in Ty. injection Ty as T1 T2 T3 T4 T5.
    exists w', userMsg, reply, sPlan0, sErr, sPlan, sRoute, sRetr, sPack, sGen.
    split; [exact E|]. split; [exact Tl|].
    split; [cbn [map]; rewrite Tp, Te, T1, T2, T3, T4, T5; reflexivity|].
    split.
    { cbn [List.filter]. rewrite Tp, Te, T1, T2, T3, T4, T5.
      vm_compute. reflexivity. }
    split; [rewrite Hact; reflexivity|].
    split; [exact Hnote|].
    destruct R as (_ & _ & Hu & _ & _ & Hm0 & _).
    split; [exact Hu|]. split; [exact Hrole|]. split; [exact Hturn|].
    split.
    { intros cid. rewrite Hmsg. unfold messagesIn at 1 2. rewrite C2.
      fold (messagesIn cid w0). rewrite Hm0. apply messagesIn_twice. }
    rewrite Hag, A2. rewrite map_map. apply map_ext. intros a. apply settle_thinking.
  - destruct (sendMessage_remote h content w Hc)
      as (w0 & w1 & userMsg & sPlan0 & n & E & R & Ap & Tp & C1 & A1).
    destruct (onBackendError_stage h (activeConversationId w) (selectedAgentOf w)
                (sanitize content) (turnOf h w) userMsg err w1)
      as (w2 & sErr & Ee & Ae & Te & Hact & Hnote & C2 & A2).
    destruct (runMockPath_ungenerated h (activeConversationId w) (selectedAgentOf w)
                (sanitize content) (turnOf h w) userMsg w2 Ht)
      as (w' & recorded & Er & Apr & Tpr & Cv).
    destruct recorded as [|sPlan [|sRoute [|sRetr [|sPack [|extra more]]]]];
      try discriminate Tpr.
    cbn [map] in Tpr. injection Tpr as T1 T2 T3 T4.
    exists w', userMsg, sPlan0, sErr, sPlan, sRoute, sRetr, sPack.
    split.
    { rewrite (submit_remote h _ _ _ _ _ _ _ _ E). unfold requestOf in Hpost.
      rewrite Hpost. rewrite (failed_as_mock h _ _ _ _ _ _ _ _ Ee). exact Er. }
    pose proof R as (Ap0 & _ & Hu & _ & _ & Hm0 & _).
    pose proof (appended_trans _ _ _ _ _ _ Ap0
                  (appended_trans _ _ _ _ _ _ Ap (appended_trans _ _ _ _ _ _ Ae Apr)))
      as (Tl & _).
    cbn [app] in Tl.
    split; [exact Tl|].
    split; [cbn [map]; rewrite Tp, Te, T1, T2, T3, T4; reflexivity|].
    split; [rewrite Hact; reflexivity|].
    split; [exact Hnote|].
    split; [exact Hu|].
    intros cid. unfold messagesIn at 1. rewrite Cv, C2, C1.
    fold (messagesIn cid w0). apply Hm0.
Qed.

End Fallback.

Section TurnProperties.

(** C1: the ranking of the retrieval step. For every list of raw
    chunks with titles of Basic Latin and Latin-1 (where the table of
    [toLowerCase] is complete), the chunks kept have pairwise different
    lower-cased title-or-source keys, are at most five, and each is the
    first chunk of the raw list with its key; when fewer than five are
    kept, no key of the raw list is missing. When no score is [NaN],
    the chunks kept are in descending order of score, a missing score
    counting 0, a chunk cut away ranks no higher than any chunk kept,
    and for raw chunks that come in descending order of score the
    result is what sorting by score first and keeping the first
    occurrence of each key afterwards gives. For every query the raw
    chunks of [mockRag] are such a list, so the chunks of the retrieval
    step have all these properties. *)
Theorem retrieval_unique_ranked_top5 :
  (forall chunksRaw,
     Forall latin1Key chunksRaw ->
     let chunks := rankChunks chunksRaw in
     List.NoDup (map chunkKey chunks)
     /\ (length chunks <= 5)%nat
     /\ (forall c, In c chunks -> firstOfKey chunksRaw c)
     /\ ((length chunks < 5)%nat ->
         forall c, In c chunksRaw -> In (chunkKey c) (map chunkKey chunks))
     /\ (Forall numericScore chunksRaw ->
         StronglySorted scoreGe chunks
         /\ (forall c d, firstOfKey chunksRaw c -> ~ In c chunks -> In d chunks ->
                         scoreGe d c)
         /\ (StronglySorted scoreGe chunksRaw ->
             chunks = firstn 5 (dedupFilter ∅ (sortBy byScoreDesc chunksRaw)))))
  /\ (forall (h : Host) (query : jsstring) (w : World),
        let chunksRaw := fst (mockRag h query w) in
        let chunks := rankChunks chunksRaw in
        Forall latin1Key chunksRaw
        /\ Forall numericScore chunksRaw
        /\ StronglySorted scoreGe chunksRaw
        /\ List.NoDup (map chunkKey chunks)
        /\ StronglySorted scoreGe chunks
        /\ (length chunks <= 5)%nat
        /\ chunks = firstn 5 (dedupFilter ∅ (sortBy byScoreDesc chunksRaw))
        /\ (forall c, In c chunks -> In c chunksRaw)).
Proof.
  split.
  - intros chunksRaw _. cbv zeta.
    split; [apply rankChunks_unique|].
    split; [apply rankChunks_length|].
    split; [apply rankChunks_first|].
    split; [intros L c; apply rankChunks_complete; exact L|].
    intros N. pose proof (ranksByScore_numbers chunksRaw N) as R.
    split; [apply rankChunks_sorted; exact R|].
    split; [intros c d; apply rankChunks_best; exact R|].
    intros S. apply (rankChunks_score_order chunksRaw R S).
  - intros h query w. cbv zeta.
    pose proof (mockRag_numeric h query w) as N.
    pose proof (ranksByScore_numbers _ N) as R.
    pose proof (mockRag_sorted h query w) as S.
    split; [apply mockRag_latin1|].
    split; [exact N|]. split; [exact S|].
    split; [apply rankChunks_unique|].
    split; [apply rankChunks_sorted; exact R|].
    split; [apply rankChunks_length|].
    split; [apply (rankChunks_score_order _ R S)|].
    intros c. apply rankChunks_incl.
Qed.

(** The ranking of seven raw chunks: the second chunk has the key of the
    first and is dropped although its score is higher, the chunk
    without score ranks last and is cut away. *)
Lemma retrieval_unique_ranked_top5_witness :
  map rc_id (rankChunks sampleChunks) = [u "c4"; u "c6"; u "c1"; u "c5"; u "c7"]
  /\ StronglySorted scoreGe (rankChunks sampleChunks)
  /\ List.NoDup (map chunkKey (rankChunks sampleChunks)).
Proof.
  split; [vm_compute; reflexivity|].
  destruct (proj1 retrieval_unique_ranked_top5 sampleChunks) as (N & _ & _ & _ & S).
  - repeat (constructor; [unfold latin1Key; cbn; repeat (constructor; [reflexivity|]);
                          constructor|]).
    constructor.
  - split; [|exact N]. apply S.
    repeat (constructor; [reflexivity|]). constructor.
Defined.

Lemma sanitize_length content : (length (sanitize content) <= 4000)%nat.
Proof. unfold sanitize, slice0. cbv zeta. apply firstn_le_length. Qed.

Lemma sendMessage_appends (h : Host) content w :
  exists userMsg,
    msg_role userMsg = user
    /\ msg_content userMsg = sanitize content
    /\ msg_protocolTurnId userMsg = Some (turnOf h w)
    /\ forall cid, messagesIn cid (snd (sendMessage h content w))
                   = if eqStr cid (activeConversationId w)
                     then map (fun ms => ms ++ [userMsg]) (messagesIn cid w)
                     else messagesIn cid w.
Proof.
  destruct (isConfigured h) eqn:Hc.
  - destruct (sendMessage_remote h content w Hc)
      as (w0 & w1 & userMsg & sPlan & n & E & R & _ & _ & C1 & _).
    destruct R as (_ & _ & Hu & Hcont & Hturn & Hm & _).
    exists userMsg. repeat (split; [assumption|]).
    intros cid. rewrite E. cbn [snd]. unfold messagesIn at 1. rewrite C1. apply Hm.
  - destruct (sendMessage_local h content w Hc) as (w0 & userMsg & E & R).
    destruct R as (_ & _ & Hu & Hcont & Hturn & Hm & _).
    destruct (mockPlan_stage h (activeConversationId w) (selectedAgentOf w)
                (sanitize content) (turnOf h w) userMsg w0)
      as (w1 & sPlan & n & E1 & _ & _ & C1 & _).
    exists userMsg. repeat (split; [assumption|]).
    intros cid. rewrite E, E1. cbn [snd]. unfold messagesIn at 1. rewrite C1. apply Hm.
Qed.

(** C5: the content of the user message is the input with every maximal
    run of white space collapsed to one space, trimmed, and cut to 4000
    code units: the first 4000 units of its tokens joined by single
    spaces. The example of the specification yields
    [please tell me about RAG]. No input is rejected: whatever the input,
    the empty one included, [sendMessage] appends the user message to the
    active conversation, and once the turn has run the caller has
    received that message and the completion. *)
Theorem user_message_sanitized :
  (forall content, sanitize content = firstn 4000 (joinSpace (tokens content)))
  /\ (forall content, (length (sanitize content) <= 4000)%nat)
  /\ sanitize (u "   please   tell me about RAG   ") = u "please tell me about RAG"
  /\ sanitize [] = []
  /\ (forall (h : Host) content w,
        exists userMsg,
          msg_role userMsg = user
          /\ msg_content userMsg = sanitize content
          /\ msg_protocolTurnId userMsg = Some (turnOf h w)
          /\ forall cid, messagesIn cid (snd (sendMessage h content w))
                         = if eqStr cid (activeConversationId w)
                           then map (fun ms => ms ++ [userMsg]) (messagesIn cid w)
                           else messagesIn cid w)
  /\ (forall (h : Host) content w,
        exists userMsg later,
          fst (submit h content w) = [Next userMsg; Complete]
          /\ msg_role userMsg = user
          /\ msg_content userMsg = sanitize content
          /\ forall cid, messagesIn cid (snd (submit h content w))
                         = if eqStr cid (activeConversationId w)
                           then map (fun ms => ms ++ userMsg :: later) (messagesIn cid w)
                           else messagesIn cid w).
Proof.
  split.
  { intros content. unfold sanitize, slice0. cbv zeta.
    rewrite trim_collapse_tokens. reflexivity. }
  split; [apply sanitize_length|].
  split; [vm_compute; reflexivity|].
  split; [reflexivity|].
  split; [apply sendMessage_appends|].
  intros h content w.
  destruct (submit_outcome h content w)
    as (w' & userMsg & later & E & Hu & Hc & _ & _ & Hm).
  exists userMsg, later. rewrite E. cbn [fst snd]. repeat split; assumption.
Qed.


Lemma isSlug_firstn text :
  Forall (Forall (fun c => isSlugChar c = true)) (tokens (rewriteQueryForRetrieval text)).
Proof.
  rewrite rewriteQuery_tokens. apply Forall_firstn.
  apply tokens_units. apply blankOthers_units.
Qed.

(** C9: the retrieval query is the text lower-cased, the filler phrases
    removed, every character other than [a-z], [0-9], white space and
    the hyphen replaced by a space, white space collapsed and trimmed,
    and the first ten tokens kept: it consists of at most ten tokens of
    lower-case letters, digits and hyphens. The example of the
    specification yields [tell me about rag]. *)
Theorem query_reformulation :
  (forall text, rewriteQueryForRetrieval text = reformulate_spec text)
  /\ (forall text,
        tokens (rewriteQueryForRetrieval text)
        = firstn 10 (tokens (blankOthers (removeFillers O None (toLowerCase text)))))
  /\ (forall text, (length (tokens (rewriteQueryForRetrieval text)) <= 10)%nat)
  /\ (forall text,
        Forall (Forall (fun c => isSlugChar c = true))
               (tokens (rewriteQueryForRetrieval text)))
  /\ rewriteQueryForRetrieval (u "please tell me about RAG") = u "tell me about rag"
  /\ rewriteQueryForRetrieval (u "Could you kindly explain context-packing? Thanks!")
     = u "explain context-packing"
  /\ rewriteQueryForRetrieval (u "a b c d e f g h i j k l") = u "a b c d e f g h i j".
Proof.
  split; [apply rewriteQuery_refines|].
  split; [apply rewriteQuery_tokens|].
  split; [intros text; rewrite rewriteQuery_tokens; apply firstn_le_length|].
  split; [apply isSlug_firstn|].
  repeat split; vm_compute; reflexivity.
Qed.

Lemma promptTokens_from items a :
  fold_left (fun acc it => (acc + nullish (cw_tokens it) 50)%Z) items a
  = (a + sumTokens items)%Z.
Proof.
  revert a. induction items as [|it rest IH]; intros a; cbn [fold_left].
  - unfold sumTokens. cbn. lia.
  - rewrite IH. unfold sumTokens. cbn [map fold_right]. lia.
Qed.

Lemma promptTokens_sum items : promptTokens items = sumTokens items.
Proof. unfold promptTokens. rewrite promptTokens_from. lia. Qed.

Lemma contextItems_clamped idSystem idHistory safeContent rag :
  clamped (contextItems idSystem idHistory safeContent rag).
Proof.
  unfold clamped, contextItems. do 3 eexists. split; [reflexivity|].
  split; [reflexivity|]. split.
  { eexists. split; [reflexivity|]. unfold historyTokens.
    assert (0 <= Z.of_nat (length safeContent) / 3)%Z
      by (apply Z.div_pos; lia). lia. }
  split.
  - apply List.Forall_forall. intros it Hin. apply in_map_iff in Hin.
    destruct Hin as [ch [<- _]]. eexists. split; [reflexivity|].
    unfold retrievalTokens.
    assert (0 <= Z.of_nat (length (strOr (Some (rc_snippet ch)) [])) / 4)%Z
      by (apply Z.div_pos; lia). lia.
  - rewrite length_map. rewrite length_firstn. lia.
Qed.

(** The counts of a run of the local pipeline. *)
Lemma localRun_counts h convId agentId safeContent tid w w' recorded reply :
  localRun h convId agentId safeContent tid w w' recorded reply ->
  exists sPlan sRoute sRetr sPack sGen items info usage,
    recorded = [sPlan; sRoute; sRetr; sPack; sGen]
    /\ ps_type sPack = pack /\ ps_type sGen = generate
    /\ ps_contextWindow sPack = Some items
    /\ ps_model sGen = Some info
    /\ msg_llm reply = Some info
    /\ mci_tokens info = Some usage
    /\ tok_prompt usage = Some (Z2num (sumTokens items))
    /\ tok_completion usage = Some (Z2num 160)
    /\ tok_total usage = Some (Z2num (sumTokens items + 160))
    /\ clamped items
    /\ (sumTokens items <= 872)%Z.
Proof.
  intros L.
  destruct L as (sPlan & sRoute & sRetr & sPack & sGen & rag & items & latency
                 & Hrec & Al & Ty & _ & _ & _ & Hcw & (i1 & i2 & Hit) & Hmodel
                 & Hllm & _).
  subst recorded. cbn [map] in Ty. injection Ty as _ _ _ T4 T5.
  exists sPlan, sRoute, sRetr, sPack, sGen, items, (mockLlmInfo latency items).
  eexists.
  split; [reflexivity|]. split; [exact T4|]. split; [exact T5|].
  split; [exact Hcw|]. split; [exact Hmodel|]. split; [exact Hllm|].
  split; [reflexivity|].
  cbn [tok_prompt tok_completion tok_total]. rewrite promptTokens_sum.
  split; [reflexivity|]. split; [reflexivity|]. split; [reflexivity|].
  pose proof (contextItems_clamped i1 i2 safeContent rag) as Hcl.
  rewrite <- Hit in Hcl. split; [exact Hcl|].
  destruct Hcl as (sys & hist & rest & -> & Hs & (t & Hh & Hb) & Hrest & Hlen).
  unfold sumTokens. cbn [map fold_right]. rewrite Hs, Hh. cbn [nullish].
  assert (Hsum : forall l, Forall (fun it => exists t, cw_tokens it = Some t
                                              /\ (60 <= t <= 200)%Z) l ->
            (fold_right Z.add 0 (map (fun it => nullish (cw_tokens it) 50) l)
             <= 200 * Z.of_nat (length l))%Z).
  { induction 1 as [|x l (tx & Hx & Bx) Hl IH]; cbn [map fold_right length]; [lia|].
    rewrite Hx. cbn [nullish]. lia. }
  specialize (Hsum rest Hrest). lia.
Qed.

(** C10: whenever the local path runs, directly because no backend is
    configured or as the fallback after a failed exchange, the metadata
    recorded on the generate step and on the reply is the same, its
    prompt token count is the sum of the estimates of the packed items
    (50 for an item without estimate), its completion count is 160 and
    its total is the prompt count plus 160; the estimates are clamped:
    16 for the system item, between 24 and 256 for the history item,
    between 60 and 200 for each of the at most three retrieval items.
    The generate step and the reply are recorded by a timer callback;
    on a host without [setTimeout] the turn records no generate step
    and no reply, hence no metadata. *)
Theorem simulated_token_counts (h : Host) (content : jsstring) (w : World) :
  isConfigured h = false \/ remoteFailed h content w ->
  (hasSetTimeout h = true ->
   exists w' userMsg reply attempt sPlan sRoute sRetr sPack sGen items info usage,
    submit h content w = ([Next userMsg; Complete], w')
    /\ timeline (turnOf h w) w'
       = timeline (turnOf h w) w ++ attempt ++ [sPlan; sRoute; sRetr; sPack; sGen]
    /\ map ps_type attempt = (if isConfigured h then [plan; error_] else [])
    /\ ps_type sPack = pack /\ ps_type sGen = generate
    /\ ps_contextWindow sPack = Some items
    /\ ps_model sGen = Some info
    /\ msg_llm reply = Some info
    /\ (forall cid, messagesIn cid w'
                    = if eqStr cid (activeConversationId w)
                      then map (fun ms => ms ++ [userMsg; reply]) (messagesIn cid w)
                      else messagesIn cid w)
    /\ mci_tokens info = Some usage
    /\ tok_prompt usage = Some (Z2num (sumTokens items))
    /\ tok_completion usage = Some (Z2num 160)
    /\ tok_total usage = Some (Z2num (sumTokens items + 160))
    /\ clamped items
    /\ (sumTokens items <= 872)%Z)
  /\ (hasSetTimeout h = false ->
      exists w' userMsg recorded,
        submit h content w = ([Next userMsg; Complete], w')
        /\ timeline (turnOf h w) w' = timeline (turnOf h w) w ++ recorded
        /\ ~ In generate (map ps_type recorded)
        /\ (forall cid, messagesIn cid w'
                        = if eqStr cid (activeConversationId w)
                          then map (fun ms => ms ++ [userMsg]) (messagesIn cid w)
                          else messagesIn cid w)).
Proof.
  intros Hpath. split; intros Ht.
  - destruct Hpath as [Hc | [Hc [err Hpost]]].
    + destruct (submit_local h content w Hc Ht)
        as (w0 & w' & userMsg & recorded & reply & E & R & L).
      destruct (localRun_counts _ _ _ _ _ _ _ _ _ L)
        as (sPlan & sRoute & sRetr & sPack & sGen & items & info & usage & Hrec & Rest).
      destruct L as (? & ? & ? & ? & ? & ? & ? & ? & _ & Al & _ & _ & _ & _ & _ & _ & _
                     & _ & _ & _ & _ & _ & _ & Hmsg & _).
      subst recorded.
      pose proof R as (Ap0 & _ & _ & _ & _ & Hm & _).
      pose proof (appended_trans _ _ _ _ _ _ Ap0 Al) as (Tl & _). cbn [app] in Tl.
      exists w', userMsg, reply, [], sPlan, sRoute, sRetr, sPack, sGen, items, info, usage.
      split; [exact E|]. split; [exact Tl|].
      split; [rewrite Hc; reflexivity|].
      destruct Rest as (R1 & R2 & R3 & R4 & R5 & Rest).
      repeat (split; [assumption|]).
      split; [|exact Rest].
      intros cid. rewrite Hmsg, Hm. apply messagesIn_twice.
    + unfold requestOf in Hpost.
      destruct (submit_failed h content w err Hc Ht Hpost)
        as (w0 & w1 & w2 & w' & userMsg & sPlan0 & sErr & recorded & reply & n
            & E & R & Ap & Tp & Ae & Te & Hact & Hnote & C2 & A2 & L).
      destruct (localRun_counts _ _ _ _ _ _ _ _ _ L)
        as (sPlan & sRoute & sRetr & sPack & sGen & items & info & usage & Hrec & Rest).
      destruct L as (? & ? & ? & ? & ? & ? & ? & ? & _ & Al & _ & _ & _ & _ & _ & _ & _
                     & _ & _ & _ & _ & _ & _ & Hmsg & _).
      subst recorded.
      pose proof R as (Ap0 & _ & _ & _ & _ & Hm & _).
      pose proof (appended_trans _ _ _ _ _ _ Ap0
                    (appended_trans _ _ _ _ _ _ Ap (appended_trans _ _ _ _ _ _ Ae Al)))
        as (Tl & _).
      cbn [app] in Tl.
      exists w', userMsg, reply, [sPlan0; sErr], sPlan, sRoute, sRetr, sPack, sGen,
             items, info, usage.
      split; [exact E|]. split; [exact Tl|].
      split; [rewrite Hc; cbn [map]; rewrite Tp, Te; reflexivity|].
      destruct Rest as (R1 & R2 & R3 & R4 & R5 & Rest).
      repeat (split; [assumption|]).
      split; [|exact Rest].
      intros cid. rewrite Hmsg. unfold messagesIn at 1 2. rewrite C2.
      fold (messagesIn cid w0). rewrite Hm. apply messagesIn_twice.
  - destruct Hpath as [Hc | [Hc [err Hpost]]].
    + destruct (submit_local_untimed h content w Hc Ht)
        as (w0 & w' & userMsg & recorded & E & R & Ap & Ty & Cv).
      pose proof R as (Ap0 & _ & _ & _ & _ & Hm & _).
      pose proof (appended_trans _ _ _ _ _ _ Ap0 Ap) as (Tl & _). cbn [app] in Tl.
      exists w', userMsg, recorded.
      split; [exact E|]. split; [exact Tl|].
      split; [rewrite Ty; vm_compute; intuition discriminate|].
      intros cid. unfold messagesIn at 1. rewrite Cv. apply Hm.
    + unfold requestOf in Hpost.
      destruct (submit_failed_untimed h content w err Hc Ht Hpost)
        as (w0 & w' & userMsg & recorded & E & R & Ap & Ty & Cv).
      pose proof R as (Ap0 & _ & _ & _ & _ & Hm & _).
      pose proof (appended_trans _ _ _ _ _ _ Ap0 Ap) as (Tl & _). cbn [app] in Tl.
      exists w', userMsg, recorded.
      split; [exact E|]. split; [exact Tl|].
      split; [rewrite Ty; vm_compute; intuition discriminate|].
      intros cid. unfold messagesIn at 1. rewrite Cv. apply Hm.
Qed.

(** The fallback on the host whose exchange times out. *)
Lemma remote_failure_falls_back_witness :
  exists w' userMsg reply sPlan0 sErr sPlan sRoute sRetr sPack sGen,
    submit failingHost (u "hi") (initialWorld failingHost)
    = ([Next userMsg; Complete], w')
    /\ timeline (turnOf failingHost (initialWorld failingHost)) w'
       = timeline (turnOf failingHost (initialWorld failingHost))
           (initialWorld failingHost)
         ++ [sPlan0; sErr; sPlan; sRoute; sRetr; sPack; sGen]
    /\ map ps_type [sPlan0; sErr; sPlan; sRoute; sRetr; sPack; sGen]
       = [plan; error_; plan; route; retrieve; pack; generate]
    /\ List.filter (fun s => eqStr (ps_type s) error_)
         [sPlan0; sErr; sPlan; sRoute; sRetr; sPack; sGen] = [sErr]
    /\ actor_id (ps_actor sErr) = u "backend"
    /\ ps_note sErr
       = Some (u "Backend error: "
               ++ strOr (err_message timeoutError) (err_string timeoutError))
    /\ msg_role userMsg = user
    /\ msg_role reply = agent
    /\ msg_protocolTurnId reply = Some (turnOf failingHost (initialWorld failingHost))
    /\ (forall cid, messagesIn cid w'
                    = if eqStr cid (activeConversationId (initialWorld failingHost))
                      then map (fun ms => ms ++ [userMsg; reply])
                             (messagesIn cid (initialWorld failingHost))
                      else messagesIn cid (initialWorld failingHost))
    /\ agents w' = map settle (agents (initialWorld failingHost)).
Proof.
  destruct (remote_failure_falls_back failingHost (u "hi") (initialWorld failingHost)
              timeoutError) as [H _]; [reflexivity|reflexivity|].
  apply H. reflexivity.
Defined.

(** The token counts of the turn [please tell me about RAG] on the host
    whose exchange times out. *)
Lemma simulated_token_counts_witness :
  exists w' userMsg reply attempt sPlan sRoute sRetr sPack sGen items info usage,
    submit failingHost (u "please tell me about RAG") (initialWorld failingHost)
    = ([Next userMsg; Complete], w')
    /\ timeline (turnOf failingHost (initialWorld failingHost)) w'
       = timeline (turnOf failingHost (initialWorld failingHost))
           (initialWorld failingHost)
         ++ attempt ++ [sPlan; sRoute; sRetr; sPack; sGen]
    /\ map ps_type attempt = [plan; error_]
    /\ ps_type sPack = pack /\ ps_type sGen = generate
    /\ ps_contextWindow sPack = Some items
    /\ ps_model sGen = Some info
    /\ msg_llm reply = Some info
    /\ (forall cid, messagesIn cid w'
                    = if eqStr cid (activeConversationId (initialWorld failingHost))
                      then map (fun ms => ms ++ [userMsg; reply])
                             (messagesIn cid (initialWorld failingHost))
                      else messagesIn cid (initialWorld failingHost))
    /\ mci_tokens info = Some usage
    /\ tok_prompt usage = Some (Z2num (sumTokens items))
    /\ tok_completion usage = Some (Z2num 160)
    /\ tok_total usage = Some (Z2num (sumTokens items + 160))
    /\ clamped items
    /\ (sumTokens items <= 872)%Z.
Proof.
  destruct (simulated_token_counts failingHost (u "please tell me about RAG")
              (initialWorld failingHost)) as [H _].
  - right. split; [reflexivity|]. exists timeoutError. reflexivity.
  - apply H. reflexivity.
Defined.

End TurnProperties.

(* ===================================================================== *)
(** * Further properties of the services and of the pages *)
(* ===================================================================== *)

Section Urls.

Lemma dropTrailingSlashes_app_slash s :
  dropTrailingSlashes (s ++ [SLASH]) = dropTrailingSlashes s.
Proof.
  induction s as [|c r IH]; [reflexivity|].
  cbn [app dropTrailingSlashes]. rewrite IH. reflexivity.
Qed.

Lemma dropTrailingSlashes_slashes s k :
  dropTrailingSlashes (s ++ repeat SLASH k) = dropTrailingSlashes s.
Proof.
  induction k as [|k IH]; [rewrite app_nil_r; reflexivity|].
  cbn [repeat]. rewrite repeat_cons, app_assoc, dropTrailingSlashes_app_slash. exact IH.
Qed.

Lemma dropLeadingSlashes_slashes s k :
  dropLeadingSlashes (repeat SLASH k ++ s) = dropLeadingSlashes s.
Proof. induction k as [|k IH]; [reflexivity|exact IH]. Qed.

Lemma dropLeadingSlashes_head s : head (dropLeadingSlashes s) <> Some SLASH.
Proof.
  induction s as [|c r IH]; [discriminate|].
  cbn [dropLeadingSlashes]. destruct (c =? SLASH) eqn:E; [exact IH|].
  cbn. intros [= ->]. discriminate.
Qed.

Lemma dropTrailingSlashes_last s : last (dropTrailingSlashes s) <> Some SLASH.
Proof.
  induction s as [|c r IH]; [discriminate|].
  cbn [dropTrailingSlashes].
  destruct (dropTrailingSlashes r) as [|d r'] eqn:E.
  - destruct (c =? SLASH) eqn:Ec; [discriminate|].
    cbn. intros [= ->]. discriminate.
  - exact IH.
Qed.

Lemma dropTrailingSlashes_split s :
  exists k, s = dropTrailingSlashes s ++ repeat SLASH k.
Proof.
  induction s as [|c r [k IH]]; [exists O; reflexivity|].
  cbn [dropTrailingSlashes].
  destruct (dropTrailingSlashes r) as [|d r'] eqn:E.
  - destruct (c =? SLASH) eqn:Ec.
    + apply N.eqb_eq in Ec. subst c. exists (S k). rewrite IH. reflexivity.
    + exists k. rewrite IH at 1. reflexivity.
  - exists k. rewrite IH at 1. reflexivity.
Qed.

Lemma dropLeadingSlashes_split s :
  exists k, s = repeat SLASH k ++ dropLeadingSlashes s.
Proof.
  induction s as [|c r [k IH]]; [exists O; reflexivity|].
  cbn [dropLeadingSlashes]. destruct (c =? SLASH) eqn:Ec.
  - apply N.eqb_eq in Ec. subst c. exists (S k). cbn. rewrite <- IH. reflexivity.
  - exists O. reflexivity.
Qed.

Lemma dropTrailingSlashes_id s : last s <> Some SLASH -> dropTrailingSlashes s = s.
Proof.
  intros H. destruct (dropTrailingSlashes_split s) as [[|k] E].
  - rewrite app_nil_r in E. congruence.
  - exfalso. apply H. rewrite E. cbn [repeat]. rewrite repeat_cons, app_assoc.
    apply last_snoc.
Qed.

Lemma dropLeadingSlashes_id s : head s <> Some SLASH -> dropLeadingSlashes s = s.
Proof.
  destruct s as [|c r]; [reflexivity|]. cbn. intros H.
  destruct (c =? SLASH) eqn:E; [|reflexivity].
  apply N.eqb_eq in E. congruence.
Qed.

(** X1: [composeUrl] joins the base and the path with exactly one slash.
    Slashes at the end of the base and at the start of the path are
    discarded, so adding or removing them does not change the result; the
    result is the base without its trailing slashes, a slash, and the path
    without its leading slashes; a base that does not end in a slash and a
    path that does not start with one are joined as they are, and two
    empty strings give a single slash. *)
Theorem composeUrl_one_slash :
  (forall base path j k,
     composeUrl (base ++ repeat SLASH j) (repeat SLASH k ++ path) = composeUrl base path)
  /\ (forall base path,
        exists b p j k,
          base = b ++ repeat SLASH j /\ path = repeat SLASH k ++ p
          /\ last b <> Some SLASH /\ head p <> Some SLASH
          /\ composeUrl base path = b ++ [SLASH] ++ p)
  /\ (forall base path,
        last base <> Some SLASH -> head path <> Some SLASH ->
        composeUrl base path = base ++ [SLASH] ++ path)
  /\ composeUrl [] [] = [SLASH]
  /\ composeUrl (u "https://api.example.com/") (u "/v1/chat/completions")
     = u "https://api.example.com/v1/chat/completions".
Proof.
  split.
  { intros. unfold composeUrl. cbv zeta.
    rewrite dropTrailingSlashes_slashes, dropLeadingSlashes_slashes. reflexivity. }
  split.
  { intros base path.
    destruct (dropTrailingSlashes_split base) as [j Hb].
    destruct (dropLeadingSlashes_split path) as [k Hp].
    exists (dropTrailingSlashes base), (dropLeadingSlashes path), j, k.
    split; [exact Hb|]. split; [exact Hp|].
    split; [apply dropTrailingSlashes_last|].
    split; [apply dropLeadingSlashes_head|]. reflexivity. }
  split.
  { intros base path Hb Hp. unfold composeUrl. cbv zeta.
    rewrite dropTrailingSlashes_id, dropLeadingSlashes_id by assumption. reflexivity. }
  split; reflexivity.
Qed.

End Urls.

Section Identifiers.

Lemma toString16_digit v : (0 <= v <= 15)%Z -> toString16 v = [hexDigit v].
Proof.
  intros H. unfold toString16.
  destruct (v <? 0)%Z eqn:E; [apply Z.ltb_lt in E; lia|].
  cbn [hexDigits]. rewrite Z.mod_small by lia.
  rewrite Z.div_small by lia. reflexivity.
Qed.

Lemma hexDigit_isHex v : (0 <= v <= 15)%Z -> isHex (hexDigit v) = true.
Proof.
  intros H.
  assert (C : (v = 0 \/ v = 1 \/ v = 2 \/ v = 3 \/ v = 4 \/ v = 5 \/ v = 6 \/ v = 7
               \/ v = 8 \/ v = 9 \/ v = 10 \/ v = 11 \/ v = 12 \/ v = 13 \/ v = 14
               \/ v = 15)%Z) by lia.
  repeat (destruct C as [->|C]; [reflexivity|]). subst v. reflexivity.
Qed.

Lemma variant_range x : (8 <= Z.lor (Z.land x 3) 8 <= 11)%Z.
Proof.
  assert (H : (0 <= Z.land x 3 < 4)%Z).
  { change 3%Z with (Z.ones 2). rewrite Z.land_ones by lia.
    apply Z.mod_pos_bound. reflexivity. }
  assert (C : (Z.land x 3 = 0 \/ Z.land x 3 = 1 \/ Z.land x 3 = 2 \/ Z.land x 3 = 3)%Z)
    by lia.
  destruct C as [E | [E | [E | E]]]; rewrite E; split; cbv; intros X; discriminate X.
Qed.

(** X2: when every draw [Math.random() * 16 | 0] lies between 0 and 15,
    the identifier that the fallback of [uuid] builds has 36 units, its
    hyphens stand exactly at the positions 8, 13, 18 and 23, position 14
    holds the digit 4, position 19 one of 8, 9, a, b, and every other
    unit is a lower-case hexadecimal digit. *)
Theorem uuidFallback_v4_shape (r : nat -> Z) :
  (forall n, (0 <= r n <= 15)%Z) ->
  let id := uuidFallback r in
  length id = 36%nat
  /\ (forall i, id !! i = Some 45 <-> i = 8%nat \/ i = 13%nat \/ i = 18%nat \/ i = 23%nat)
  /\ id !! 14%nat = Some 52
  /\ (exists y, id !! 19%nat = Some y /\ (y = 56 \/ y = 57 \/ y = 97 \/ y = 98))
  /\ Forall (fun c => isHex c = true \/ c = 45) id.
Proof.
  intros Hr. cbv zeta.
  assert (Hy : (0 <= Z.lor (Z.land (r 15%nat) 3) 8 <= 15)%Z)
    by (pose proof (variant_range (r 15%nat)); lia).
  assert (E : uuidFallback r
              = map hexDigit [r 0; r 1; r 2; r 3; r 4; r 5; r 6; r 7]%nat
                ++ 45 :: map hexDigit [r 8; r 9; r 10; r 11]%nat
                ++ 45 :: 52 :: map hexDigit [r 12; r 13; r 14]%nat
                ++ 45 :: hexDigit (Z.lor (Z.land (r 15%nat) 3) 8)
                      :: map hexDigit [r 16; r 17; r 18]%nat
                ++ 45 :: map hexDigit [r 19; r 20; r 21; r 22; r 23; r 24; r 25; r 26;
                                       r 27; r 28; r 29; r 30]%nat).
  { unfold uuidFallback. cbv -[toString16 Z.lor Z.land hexDigit app].
    rewrite !toString16_digit by (exact Hy || apply Hr). reflexivity. }
  rewrite E. clear E. cbn [map app].
  assert (Hd : forall v, (0 <= v <= 15)%Z -> hexDigit v <> 45).
  { intros v Hv Heq. pose proof (hexDigit_isHex v Hv) as Hx.
    rewrite Heq in Hx. discriminate Hx. }
  split; [reflexivity|]. split.
  { intros i. split.
    - intros Hi.
      do 36 (destruct i as [|i];
             [cbv -[hexDigit Z.lor Z.land] in Hi;
              first [ lia
                    | discriminate Hi
                    | injection Hi as Hi; exfalso; revert Hi; apply Hd;
                      (exact Hy || apply Hr) ]
             |]).
      discriminate Hi.
    - intros [-> | [-> | [-> | ->]]]; reflexivity. }
  split; [reflexivity|]. split.
  { eexists. split; [reflexivity|].
    pose proof (variant_range (r 15%nat)) as Hv.
    assert (C : (Z.lor (Z.land (r 15%nat) 3) 8 = 8 \/ Z.lor (Z.land (r 15%nat) 3) 8 = 9
                 \/ Z.lor (Z.land (r 15%nat) 3) 8 = 10
                 \/ Z.lor (Z.land (r 15%nat) 3) 8 = 11)%Z) by lia.
    destruct C as [C | [C | [C | C]]]; rewrite C; cbv; tauto. }
  repeat (constructor;
          [first [ right; reflexivity
                 | left; reflexivity
                 | left; apply hexDigit_isHex; (exact Hy || apply Hr) ]|]).
  constructor.
Qed.

(** The identifier built from the draws 0, 1, 2, ... taken modulo 16. *)
Lemma uuidFallback_v4_shape_witness :
  let id := uuidFallback (fun n => Z.of_nat n mod 16)%Z in
  length id = 36%nat
  /\ (forall i, id !! i = Some 45 <-> i = 8%nat \/ i = 13%nat \/ i = 18%nat \/ i = 23%nat)
  /\ id !! 14%nat = Some 52
  /\ (exists y, id !! 19%nat = Some y /\ (y = 56 \/ y = 57 \/ y = 97 \/ y = 98))
  /\ Forall (fun c => isHex c = true \/ c = 45) id.
Proof.
  apply (uuidFallback_v4_shape (fun n => Z.of_nat n mod 16)%Z).
  intros n. pose proof (Z.mod_pos_bound (Z.of_nat n) 16). lia.
Defined.

End Identifiers.

Section StoreAlgebra.

Lemma addProtocol_cases tid w :
  addProtocol tid w = (tt, w)
  \/ (protocols w !! tid = None
      /\ addProtocol tid w
         = (tt, setProtocols (<[tid := {| turnId := tid; steps := [] |}]> (protocols w)) w)).
Proof.
  unfold addProtocol, bind, gets, ret, modify, readSlot.
  destruct (protocols w !! tid) as [p|]; [left; reflexivity|].
  destruct (inheritedKey tid); [left; reflexivity|right; split; reflexivity].
Qed.

Lemma addProtocol_keyed tid w : keyed w -> keyed (snd (addProtocol tid w)).
Proof.
  intros K. destruct (addProtocol_cases tid w) as [-> | [E ->]]; [exact K|].
  cbn [snd]. intros k p. cbn [protocols setProtocols].
  destruct (decide (k = tid)) as [->|Hne].
  - rewrite lookup_insert_eq. intros [= <-]. reflexivity.
  - rewrite lookup_insert_ne by congruence. apply K.
Qed.

Lemma appendStep_keyed tid step w : keyed w -> keyed (snd (appendStep tid step w)).
Proof.
  intros K. destruct (appendStep_cases tid step w) as [[_ ->] | [_ ->]]; [exact K|].
  cbn [snd]. intros k p. cbn [protocols setProtocols].
  destruct (decide (k = tid)) as [->|Hne].
  - rewrite lookup_insert_eq. intros [= <-]. cbn [turnId].
    unfold timelineId. destruct (protocols w !! tid) as [q|] eqn:E; [|reflexivity].
    apply (K _ _ E).
  - rewrite lookup_insert_ne by congruence. apply K.
Qed.


(** X4: steps appended to two different turns, neither named like a
    property of [Object.prototype], are both recorded and leave the same
    state in either order. *)
Theorem appendStep_commutes tid1 tid2 s1 s2 w :
  tid1 <> tid2 ->
  inheritedKey tid1 = false ->
  inheritedKey tid2 = false ->
  snd (appendStep tid2 s2 (snd (appendStep tid1 s1 w)))
  = snd (appendStep tid1 s1 (snd (appendStep tid2 s2 w)))
  /\ fst (appendStep tid1 s1 w) = Returned tt
  /\ fst (appendStep tid2 s2 (snd (appendStep tid1 s1 w))) = Returned tt.
Proof.
  intros Hne H1 H2. change (Plain tid1) in H1. change (Plain tid2) in H2.
  rewrite !appendStep_eq by assumption. cbn [fst snd].
  split; [|split; reflexivity].
  unfold timeline, timelineId. cbn [protocols setProtocols].
  rewrite !lookup_insert_ne by congruence.
  destruct w as [P A C ac aa un cn]. cbn [protocols setProtocols].
  unfold setProtocols. cbn. f_equal. apply insert_insert_ne. congruence.
Qed.

(** X5: for a turn identifier that is not the name of a property of
    [Object.prototype], [appendStep] needs no [addProtocol]: calling
    [addProtocol] for the turn before it or after it changes nothing,
    and two appends to a turn add the two steps in the order of the
    calls. *)
Theorem appendStep_absorbs_addProtocol tid step w :
  inheritedKey tid = false ->
  snd (appendStep tid step (snd (addProtocol tid w))) = snd (appendStep tid step w)
  /\ snd (addProtocol tid (snd (appendStep tid step w))) = snd (appendStep tid step w)
  /\ forall s2,
       timeline tid (snd (appendStep tid s2 (snd (appendStep tid step w))))
       = timeline tid w ++ [step; s2].
Proof.
  intros Hp. change (Plain tid) in Hp.
  split; [|split].
  - rewrite !appendStep_eq, addProtocol_eq by assumption. cbn [snd].
    unfold timeline, timelineId.
    destruct (protocols w !! tid) as [p|] eqn:E.
    + rewrite E. reflexivity.
    + cbn [protocols setProtocols]. rewrite lookup_insert_eq. cbn [turnId steps].
      destruct w as [P A C ac aa un cn]. unfold setProtocols. cbn.
      f_equal. apply insert_insert_eq.
  - rewrite addProtocol_eq, appendStep_eq by assumption. cbn [snd protocols setProtocols].
    rewrite lookup_insert_eq. reflexivity.
  - intros s2. rewrite !timeline_appendStep by assumption.
    rewrite <- app_assoc. reflexivity.
Qed.

End StoreAlgebra.

Section Yields.

Context {R : World -> World -> Prop}.
Hypothesis R_refl : forall w, R w w.
Hypothesis R_trans : forall a b c, R a b -> R b c -> R a c.

Lemma yields_ret {A} (Q : A -> Prop) a : Q a -> yields R Q (ret a).
Proof. intros H w. split; [apply R_refl|exact H]. Qed.

Lemma respects_gets {A} (f : World -> A) : respects R (gets f).
Proof. intros w. split; [apply R_refl|exact I]. Qed.

Lemma yields_bind {A B} (Q : B -> Prop) (m : M A) (k : A -> M B) :
  respects R m -> (forall x, yields R Q (k x)) -> yields R Q (bind m k).
Proof.
  intros Hm Hk w. unfold bind. destruct (m w) as [x w1] eqn:E.
  destruct (Hm w) as [H1 _]. rewrite E in H1. cbn [snd] in H1.
  destruct (Hk x w1) as [H2 H3]. split; [eapply R_trans; eassumption|exact H3].
Qed.

Lemma yields_weaken {A} (Q : A -> Prop) (m : M A) : yields R Q m -> respects R m.
Proof. intros H w. split; [apply H|exact I]. Qed.

Lemma runPending_settles (h : Host) p :
  settles R p -> forall w, R w (snd (runPending h p w)).
Proof.
  induction 1 as [|ms cb Hcb Hp IH|req k Hk Hp IH]; intros w; cbn [runPending].
  - apply R_refl.
  - specialize (Hcb w). specialize (IH w).
    destruct (cb w) as [[ns p'] w']. cbn [fst snd] in *.
    specialize (IH w'). destruct (runPending h p' w') as [ns' w''].
    cbn [snd] in *. eapply R_trans; eassumption.
  - specialize (Hk (httpPost h req) w). specialize (IH (httpPost h req) w).
    destruct (k (httpPost h req) w) as [[ns p'] w']. cbn [fst snd] in *.
    specialize (IH w'). destruct (runPending h p' w') as [ns' w''].
    cbn [snd] in *. eapply R_trans; eassumption.
Qed.

End Yields.

Section TurnFrame.

Variable h : Host.
Variables tid convId : jsstring.

Lemma sameIdentity_refl a : sameIdentity a a.
Proof. repeat split. Qed.

Lemma sameIdentity_trans a b c : sameIdentity a b -> sameIdentity b c -> sameIdentity a c.
Proof.
  intros (A1 & A2 & A3 & A4 & A5) (B1 & B2 & B3 & B4 & B5).
  repeat split; congruence.
Qed.

Lemma extendsConversation_refl c : extendsConversation convId c c.
Proof.
  repeat split. exists []. rewrite app_nil_r. reflexivity.
Qed.

Lemma extendsConversation_trans a b c :
  extendsConversation convId a b -> extendsConversation convId b c ->
  extendsConversation convId a c.
Proof.
  intros (A1 & A2 & A3 & A4 & (m1 & A5) & A6) (B1 & B2 & B3 & B4 & (m2 & B5) & B6).
  split; [congruence|]. split; [congruence|]. split; [congruence|].
  split; [congruence|]. split.
  - exists (m1 ++ m2). rewrite B5, A5, app_assoc. reflexivity.
  - intros Hne. rewrite B6 by congruence. apply A6. exact Hne.
Qed.

Lemma Forall2_refl {A} (P : A -> A -> Prop) (l : list A) :
  (forall x, P x x) -> Forall2 P l l.
Proof. intros H. induction l; constructor; auto. Qed.

Lemma Forall2_trans {A} (P : A -> A -> Prop) (l k m : list A) :
  (forall x y z, P x y -> P y z -> P x z) ->
  Forall2 P l k -> Forall2 P k m -> Forall2 P l m.
Proof.
  intros T H. revert m. induction H as [|x y l k Hxy H IH]; intros m Hm.
  - inversion Hm. constructor.
  - inversion Hm as [|y' z k' m' Hyz Hkm]; subst. constructor; eauto.
Qed.

Lemma Forall2_map_same {A} (P : A -> A -> Prop) (f : A -> A) (l : list A) :
  (forall x, P x (f x)) -> Forall2 P l (map f l).
Proof. intros H. induction l; cbn; constructor; auto. Qed.

Lemma turnFrame_refl w : turnFrame tid convId w w.
Proof.
  unfold turnFrame. repeat split; try reflexivity; try lia.
  - apply Forall2_refl, sameIdentity_refl.
  - apply Forall2_refl, extendsConversation_refl.
  - exists []. rewrite app_nil_r. reflexivity.
  - intros K. exact K.
Qed.

Lemma turnFrame_trans a b c :
  turnFrame tid convId a b -> turnFrame tid convId b c -> turnFrame tid convId a c.
Proof.
  intros (A1 & A2 & A3 & A4 & A5 & (m1 & A6) & A7 & A8 & A9)
         (B1 & B2 & B3 & B4 & B5 & (m2 & B6) & B7 & B8 & B9).
  unfold turnFrame.
  split; [congruence|]. split; [congruence|].
  split; [eapply Forall2_trans; [apply sameIdentity_trans|exact A3|exact B3]|].
  split; [eapply Forall2_trans; [apply extendsConversation_trans|exact A4|exact B4]|].
  split; [intros other Hne; rewrite B5, A5 by assumption; reflexivity|].
  split; [exists (m1 ++ m2); rewrite B6, A6, app_assoc; reflexivity|].
  split; [auto|]. split; lia.
Qed.

Abbreviation R := (turnFrame tid convId).

(** The frame of a change of state that leaves the selection, the store
    and the conversations alone. *)
Ltac frameNow :=
  intros w; split; [|exact I];
  unfold turnFrame; destruct w as [P A C ac aa un cn];
  cbn [fst snd protocols agents conversations activeConversationId activeAgentId
       uuidCount clockCount setProtocols setAgents setConversations
       setActiveConversationId setActiveAgentId setUuidCount setClockCount
       uuid dateNow nowISO bind ret modify gets setAgentState];
  repeat split; try reflexivity; try lia;
  try (apply Forall2_refl, sameIdentity_refl);
  try (apply Forall2_refl, extendsConversation_refl);
  try (exists []; rewrite app_nil_r; reflexivity);
  try (intros K; exact K).

Lemma frame_uuid : respects R (uuid h).
Proof. frameNow. Qed.

Lemma frame_dateNow : respects R (dateNow h).
Proof. frameNow. Qed.

Lemma frame_nowISO : respects R (nowISO h).
Proof. unfold nowISO, bind. frameNow. Qed.

Lemma frame_setAgentState i st n : respects R (setAgentState i st n).
Proof.
  intros w; split; [|exact I].
  unfold turnFrame, setAgentState, modify. cbn [snd].
  destruct w as [P A C ac aa un cn]. cbn.
  repeat split; try reflexivity; try lia.
  - apply Forall2_map_same. intros a.
    unfold withAgentState. destruct (eqStr (ag_id a) i); repeat split.
  - apply Forall2_refl, extendsConversation_refl.
  - exists []. rewrite app_nil_r. reflexivity.
  - intros K. exact K.
Qed.

Lemma frame_addProtocol : respects R (addProtocol tid).
Proof.
  intros w; split; [|exact I].
  pose proof (addProtocol_keyed tid w) as K.
  destruct (addProtocol_cases tid w) as [E | [E E']];
    [rewrite E; apply turnFrame_refl|].
  rewrite E' in *. cbn [snd] in *.
  unfold turnFrame. cbn.
  repeat split; try reflexivity; try lia.
  - apply Forall2_refl, sameIdentity_refl.
  - apply Forall2_refl, extendsConversation_refl.
  - intros other Hne. apply lookup_insert_ne. congruence.
  - exists []. unfold timeline. cbn. rewrite lookup_insert_eq, E. reflexivity.
  - exact K.
Qed.

Lemma frame_appendStep step : respects R (appendStep tid step).
Proof.
  intros w; split; [|exact I].
  pose proof (appendStep_keyed tid step w) as K.
  destruct (appendStep_cases tid step w) as [[_ E] | [_ E]];
    [rewrite E; apply turnFrame_refl|].
  rewrite E in *. cbn [snd] in *.
  unfold turnFrame. cbn.
  repeat split; try reflexivity; try lia.
  - apply Forall2_refl, sameIdentity_refl.
  - apply Forall2_refl, extendsConversation_refl.
  - intros other Hne. apply lookup_insert_ne. congruence.
  - exists [step]. unfold timeline at 1. cbn. rewrite lookup_insert_eq. reflexivity.
  - exact K.
Qed.

Lemma pushedInto_extends m cs n :
  Forall2 (extendsConversation convId) cs (fst (pushedInto h convId m cs n))
  /\ (n <= snd (pushedInto h convId m cs n))%nat.
Proof.
  revert n. induction cs as [|c rest IH]; intros n; cbn [pushedInto].
  - split; [constructor|cbn; lia].
  - unfold eqStr. destruct (decide (conv_id c = convId)) as [Hc|Hc].
    + rewrite (bool_decide_eq_true_2 _ Hc). cbn [fst snd].
      destruct (IH (S n)) as [F L]. split; [|lia].
      constructor; [|exact F].
      repeat split; cbn; try reflexivity.
      * exists [m]. reflexivity.
      * intros Hne. congruence.
    + rewrite (bool_decide_eq_false_2 _ Hc). cbn [fst snd].
      destruct (IH n) as [F L]. split; [|exact L].
      constructor; [apply extendsConversation_refl|exact F].
Qed.

Lemma frame_pushMessage m : respects R (pushMessage h convId m).
Proof.
  intros w; split; [|exact I]. rewrite pushMessage_eq. cbn [snd].
  destruct (pushedInto_extends m (conversations w) (clockCount w)) as [F L].
  unfold turnFrame. destruct w as [P A C ac aa un cn]. cbn in *.
  repeat split; try reflexivity; try lia.
  - apply Forall2_refl, sameIdentity_refl.
  - exact F.
  - exists []. rewrite app_nil_r. reflexivity.
  - intros K. exact K.
Qed.

(** Chains the frames of the calls of a body. *)
Ltac frame :=
  repeat (cbv beta zeta;
          first [ apply (yields_ret turnFrame_refl)
                | apply (yields_bind turnFrame_trans);
                  [ first [ apply frame_uuid | apply frame_dateNow | apply frame_nowISO
                          | apply frame_setAgentState | apply frame_addProtocol
                          | apply frame_appendStep | apply frame_pushMessage
                          | apply (respects_gets turnFrame_refl)
                          | assumption ]
                  | intros ? ] ]).

Lemma frame_mockRag query : respects R (mockRag h query).
Proof. unfold mockRag, respects. frame. exact I. Qed.

Lemma frame_strOrM a m : respects R m -> respects R (strOrM a m).
Proof.
  intros H. unfold strOrM. destruct a as [[|c r]|]; try exact H.
  apply (yields_ret turnFrame_refl). exact I.
Qed.

Lemma frame_applyBackendSteps ss : respects R (applyBackendSteps h tid ss).
Proof.
  induction ss as [|s rest IH]; cbn [applyBackendSteps].
  - apply (yields_ret turnFrame_refl). exact I.
  - apply (yields_bind turnFrame_trans);
      [apply frame_strOrM, frame_uuid|intros id].
    apply (yields_bind turnFrame_trans);
      [apply frame_strOrM, frame_nowISO|intros at_].
    apply (yields_bind turnFrame_trans); [apply frame_appendStep|intros _].
    exact IH.
Qed.

Lemma frame_mockGenerate agentId safeContent rag items start :
  yields R (fun np => settles R (snd np))
    (mockGenerate h convId agentId safeContent tid rag items start).
Proof. unfold mockGenerate. frame. constructor. Qed.

Lemma frame_mockRetrieveAndPack agentId safeContent userMsg reformulated :
  yields R (fun np => settles R (snd np))
    (mockRetrieveAndPack h convId agentId safeContent tid userMsg reformulated).
Proof.
  unfold mockRetrieveAndPack. 
  apply (yields_bind turnFrame_trans); [apply frame_setAgentState|intros _].
  cbv beta zeta.
  apply (yields_bind turnFrame_trans); [apply frame_mockRag|intros chunksRaw].
  frame. cbn [snd].
  destruct (hasSetTimeout h); [|constructor].
  constructor; intros w; apply frame_mockGenerate.
Qed.

Lemma frame_mockRoute agentId safeContent userMsg reformulated :
  yields R (fun np => settles R (snd np))
    (mockRoute h convId agentId safeContent tid userMsg reformulated).
Proof.
  unfold mockRoute. frame. cbn [snd].
  constructor; intros w; apply frame_mockRetrieveAndPack.
Qed.

Lemma frame_sendMessageMockPath agentId safeContent userMsg :
  yields R (yields R (fun np => settles R (snd np)))
    (sendMessageMockPath h convId agentId safeContent tid userMsg).
Proof.
  unfold sendMessageMockPath. frame. cbn [snd].
  constructor; intros w; apply frame_mockRoute.
Qed.

Lemma frame_onBackendAnswer agentId userMsg res :
  yields R (fun np => settles R (snd np))
    (onBackendAnswer h convId agentId tid userMsg res).
Proof.
  unfold onBackendAnswer, applyBackendProtocol.
  apply (yields_bind turnFrame_trans); [apply frame_applyBackendSteps|intros _].
  frame. constructor.
Qed.

Lemma frame_onBackendError agentId safeContent userMsg err :
  yields R (fun np => settles R (snd np))
    (onBackendError h convId agentId safeContent tid userMsg err).
Proof.
  unfold onBackendError.
  apply (yields_bind turnFrame_trans); [apply frame_uuid|intros sid].
  apply (yields_bind turnFrame_trans); [apply frame_nowISO|intros sat].
  apply (yields_bind turnFrame_trans); [apply frame_appendStep|intros _].
  intros w. 
  destruct (frame_sendMessageMockPath agentId safeContent userMsg w) as [H1 H2].
  unfold bind.
  destruct (sendMessageMockPath h convId agentId safeContent tid userMsg w) as [obs w1].
  cbn [fst snd] in *. destruct (H2 w1) as [H3 H4].
  split; [eapply turnFrame_trans; eassumption|exact H4].
Qed.

End TurnFrame.

Section SubmitFrame.

Variable h : Host.

Lemma frame_sendMessage content w :
  turnFrame (turnOf h w) (activeConversationId w) w (snd (sendMessage h content w))
  /\ yields (turnFrame (turnOf h w) (activeConversationId w))
       (fun np => settles (turnFrame (turnOf h w) (activeConversationId w)) (snd np))
       (fst (sendMessage h content w)).
Proof.
  set (tid := turnOf h w). set (convId := activeConversationId w).
  destruct (sendMessage h content w) as [obs w1] eqn:E.
  unfold sendMessage in E.
  unfold bind at 1 in E. cbn [gets] in E.
  unfold bind at 1 in E. cbn [gets] in E. cbv zeta in E.
  unfold bind at 1 in E. cbn [uuid] in E.
  fold convId in E. change (uuidOf h (uuidCount w)) with tid in E.
  match type of E with
  | ?m ?w0 = _ =>
      assert (Hm : yields (turnFrame tid convId)
                     (yields (turnFrame tid convId)
                        (fun np => settles (turnFrame tid convId) (snd np))) m);
      [|assert (H0 : turnFrame tid convId w w0);
        [|destruct (Hm w0) as [H1 H2]; rewrite E in H1, H2; cbn [fst snd] in *;
          split; [eapply turnFrame_trans; eassumption|exact H2]]]
  end.
  - apply (yields_bind (turnFrame_trans tid convId)); [apply frame_addProtocol|intros _].
    apply (yields_bind (turnFrame_trans tid convId)); [apply frame_uuid|intros mid].
    apply (yields_bind (turnFrame_trans tid convId)); [apply frame_nowISO|intros mts].
    cbv zeta.
    apply (yields_bind (turnFrame_trans tid convId)); [apply frame_pushMessage|intros _].
    destruct (isConfigured h); cbn [negb]; [|apply frame_sendMessageMockPath].
    apply (yields_bind (turnFrame_trans tid convId)); [apply frame_dateNow|intros start].
    apply (yields_bind (turnFrame_trans tid convId)); [apply frame_setAgentState|intros _].
    cbv zeta.
    apply (yields_bind (turnFrame_trans tid convId)); [apply frame_uuid|intros sid].
    apply (yields_bind (turnFrame_trans tid convId)); [apply frame_nowISO|intros sat].
    apply (yields_bind (turnFrame_trans tid convId)); [apply frame_appendStep|intros _].
    apply (yields_ret (turnFrame_refl tid convId)).
    apply (yields_ret (turnFrame_refl tid convId)). cbn [snd].
    constructor; intros [err|body] w'; first [apply frame_onBackendError
                                             |apply frame_onBackendAnswer].
  - apply (frame_uuid h tid convId w).
Qed.

Lemma frame_submit content w :
  turnFrame (turnOf h w) (activeConversationId w) w (snd (submit h content w)).
Proof.
  destruct (frame_sendMessage content w) as [H1 H2].
  unfold submit, bind.
  destruct (sendMessage h content w) as [obs w1]. cbn [fst snd] in *.
  destruct (H2 w1) as [H3 H4].
  destruct (obs w1) as [sub w2]. cbn [fst snd] in *.
  pose proof (runPending_settles (turnFrame_refl _ _) (turnFrame_trans _ _) h _ H4 w2)
    as H5.
  destruct (runPending h (snd sub) w2) as [ns w3]. cbn [snd] in *.
  eapply turnFrame_trans; [exact H1|]. eapply turnFrame_trans; eassumption.
Qed.

End SubmitFrame.

Section Sanitised.

Lemma trimEnd_nil_tokens s : trimEnd s = [] -> tokens s = [].
Proof.
  induction s as [|c r IH]; [reflexivity|].
  cbn [trimEnd tokens]. destruct (trimEnd r) as [|d r'] eqn:E.
  - destruct (isWhiteSpace c); [intros _; apply IH; reflexivity|discriminate].
  - discriminate.
Qed.

Lemma tokens_nil_trimEnd s : tokens s = [] -> trimEnd s = [].
Proof.
  induction s as [|c r IH]; [reflexivity|].
  cbn [trimEnd tokens]. destruct (isWhiteSpace c) eqn:Hc.
  - intros H. rewrite (IH H). reflexivity.
  - destruct r as [|d r']; [discriminate|].
    destruct (isWhiteSpace d); [discriminate|].
    destruct (tokens (d :: r')); discriminate.
Qed.

Lemma trimEnd_head s d r' : trimEnd s = d :: r' -> exists r0, s = d :: r0.
Proof.
  destruct s as [|x r0]; [discriminate|]. cbn [trimEnd].
  destruct (trimEnd r0); [destruct (isWhiteSpace x); [discriminate|]|];
    intros [= -> _]; eexists; reflexivity.
Qed.

Lemma tokens_trimEnd s : tokens (trimEnd s) = tokens s.
Proof.
  induction s as [|c r IH]; [reflexivity|].
  cbn [trimEnd]. destruct (trimEnd r) as [|d r'] eqn:E.
  - pose proof (trimEnd_nil_tokens r E) as T.
    destruct (isWhiteSpace c) eqn:Hc; cbn [tokens]; rewrite Hc.
    + symmetry. exact T.
    + destruct r as [|x r0]; [reflexivity|].
      rewrite T. destruct (isWhiteSpace x); reflexivity.
  - destruct (trimEnd_head r d r' E) as [r0 ->].
    cbn [tokens] in *. destruct (isWhiteSpace c) eqn:Hc.
    + exact IH.
    + rewrite IH. reflexivity.
Qed.

Lemma tokens_trim s : tokens (trim s) = tokens s.
Proof. unfold trim. rewrite tokens_trimEnd. apply tokens_trimStart. Qed.

Lemma trim_nil_tokens s : trim s = [] <-> tokens s = [].
Proof.
  unfold trim. split.
  - intros H. rewrite <- tokens_trimStart. apply trimEnd_nil_tokens. exact H.
  - intros H. apply tokens_nil_trimEnd. rewrite tokens_trimStart. exact H.
Qed.

Lemma sanitize_tokens content : sanitize content = firstn 4000 (joinSpace (tokens content)).
Proof. unfold sanitize, slice0. cbv zeta. rewrite trim_collapse_tokens. reflexivity. Qed.

Lemma sanitize_nil content : sanitize content = [] <-> trim content = [].
Proof.
  rewrite sanitize_tokens, trim_nil_tokens. split.
  - intros H. apply joinSpace_tokens_nil.
    destruct (joinSpace (tokens content)); [reflexivity|discriminate].
  - intros ->. reflexivity.
Qed.

Lemma sanitize_trim content : sanitize (trim content) = sanitize content.
Proof. rewrite !sanitize_tokens, tokens_trim. reflexivity. Qed.

Lemma sanitize_short content :
  (length (joinSpace (tokens content)) <= 4000)%nat ->
  sanitize content = joinSpace (tokens content).
Proof. intros H. rewrite sanitize_tokens. apply firstn_all2. exact H. Qed.

Lemma tokens_joinSpace_tokens s : tokens (joinSpace (tokens s)) = tokens s.
Proof. apply tokens_joinSpace; [apply tokens_nonempty|apply tokens_noSpace]. Qed.

Lemma sanitize_head content :
  match sanitize content with c :: _ => isWhiteSpace c = false | [] => True end.
Proof.
  rewrite sanitize_tokens.
  pose proof (tokens_nonempty content) as Hn.
  pose proof (tokens_noSpace content) as Hs.
  destruct (tokens content) as [|w ws]; [exact I|].
  inversion Hn as [|? ? Hw _]; subst. inversion Hs as [|? ? Hw' _]; subst.
  destruct w as [|c w]; [congruence|].
  inversion Hw'; subst.
  destruct ws; cbn; assumption.
Qed.

Lemma trimStart_id s : startsWithSpace s = false -> trimStart s = s.
Proof. destruct s as [|c r]; [reflexivity|]. cbn. intros ->. reflexivity. Qed.

Lemma trimEnd_idem s : trimEnd (trimEnd s) = trimEnd s.
Proof.
  induction s as [|c r IH]; [reflexivity|].
  cbn [trimEnd]. destruct (trimEnd r) as [|d r'] eqn:E.
  - destruct (isWhiteSpace c) eqn:Hc; [reflexivity|]. cbn. rewrite Hc. reflexivity.
  - cbn [trimEnd]. cbn [trimEnd] in IH. rewrite IH. reflexivity.
Qed.

Lemma trim_idem s : trim (trim s) = trim s.
Proof.
  unfold trim.
  assert (H : trimStart (trimEnd (trimStart s)) = trimEnd (trimStart s)).
  { apply trimStart_id.
    pose proof (startsWithSpace_trimStart s) as Hs.
    destruct (trimEnd (trimStart s)) as [|d r'] eqn:E; [reflexivity|].
    destruct (trimEnd_head _ _ _ E) as [r0 E0]. rewrite E0 in Hs. exact Hs. }
  rewrite H. apply trimEnd_idem.
Qed.

(** X6: when the collapsed and trimmed input fits the cap of 4000 units,
    the content that [sendMessage] stores is a fixed point of the
    sanitisation and has no white space at its end. Trimming the input
    first makes no difference, the content is empty exactly when the
    input is blank, and it never starts with white space. Beyond the cap
    the cut can leave a space at the end: for 3999 letters followed by a
    space and a letter the content ends in a space, and sanitising it
    again removes that space. *)
Theorem sanitize_within_cap :
  (forall content,
     (length (trim (collapseWhitespace content)) <= 4000)%nat ->
     sanitize (sanitize content) = sanitize content
     /\ trim (sanitize content) = sanitize content)
  /\ (forall content, sanitize (trim content) = sanitize content)
  /\ (forall content, sanitize content = [] <-> trim content = [])
  /\ (forall content,
        match sanitize content with c :: _ => isWhiteSpace c = false | [] => True end)
  /\ (let long := repeat 97 3999 ++ u " b" in
      sanitize long = repeat 97 3999 ++ [SP]
      /\ sanitize (sanitize long) = repeat 97 3999).
Proof.
  split.
  { intros content H.
    assert (E : sanitize content = trim (collapseWhitespace content)).
    { unfold sanitize, slice0. cbv zeta. apply firstn_all2. exact H. }
    split.
    - rewrite E at 1. rewrite sanitize_tokens, trim_collapse_tokens,
        tokens_joinSpace_tokens.
      rewrite <- sanitize_tokens. reflexivity.
    - rewrite E. apply trim_idem. }
  split; [apply sanitize_trim|].
  split; [apply sanitize_nil|].
  split; [apply sanitize_head|].
  cbv zeta. split; vm_compute; reflexivity.
Qed.

End Sanitised.

Section Selection.

Variable h : Host.

Lemma assignAgent_effect active agentId cs w :
  Forall2 (reassigned active agentId) cs (fst (assignAgent h active agentId cs w))
  /\ protocols (snd (assignAgent h active agentId cs w)) = protocols w
  /\ agents (snd (assignAgent h active agentId cs w)) = agents w
  /\ conversations (snd (assignAgent h active agentId cs w)) = conversations w
  /\ activeConversationId (snd (assignAgent h active agentId cs w)) = activeConversationId w
  /\ activeAgentId (snd (assignAgent h active agentId cs w)) = activeAgentId w
  /\ uuidCount (snd (assignAgent h active agentId cs w)) = uuidCount w.
Proof.
  revert w. induction cs as [|c rest IH]; intros w.
  - cbn. repeat split. constructor.
  - cbn [assignAgent]. unfold bind.
    destruct (eqStr (conv_id c) active) eqn:Ec.
    + cbv beta iota delta [bind nowISO dateNow ret].
      set (w1 := setClockCount (S (clockCount w)) w).
      destruct (IH w1) as (F & A1 & A2 & A3 & A4 & A5 & A6).
      destruct (assignAgent h active agentId rest w1) as [rest' w2].
      cbn [fst snd ret] in *. split.
      { constructor; [|exact F]. unfold reassigned. cbn. rewrite Ec. repeat split. }
      subst w1. destruct w. cbn in *. repeat split; assumption.
    + cbv beta iota delta [bind ret].
      destruct (IH w) as (F & A1 & A2 & A3 & A4 & A5 & A6).
      destruct (assignAgent h active agentId rest w) as [rest' w2].
      cbn [fst snd ret] in *. split.
      { constructor; [|exact F]. unfold reassigned. rewrite Ec. repeat split. }
      repeat split; assumption.
Qed.

Lemma find_is_Some {A} (p : A -> bool) (l : list A) :
  is_Some (List.find p l) <-> exists x, In x l /\ p x = true.
Proof.
  split.
  - intros [x Hx]. apply find_some in Hx. exists x. exact Hx.
  - intros (x & Hin & Hp). destruct (List.find p l) as [y|] eqn:E; [eexists; reflexivity|].
    exfalso. pose proof (find_none _ _ E x Hin) as Hn. congruence.
Qed.

(** What [setActiveAgent] does to the state. *)
Lemma setActiveAgent_state agentId w :
  let w' := snd (setActiveAgent h agentId w) in
  activeAgentId w' = agentId
  /\ selectedAgentOf w' = match agentId with [] => u "writer" | _ => agentId end
  /\ activeConversationId w' = activeConversationId w
  /\ agents w' = agents w
  /\ protocols w' = protocols w
  /\ Forall2 (reassigned (activeConversationId w) agentId)
       (conversations w) (conversations w').
Proof.
  cbv zeta. unfold setActiveAgent, bind, modify, gets. cbn [fst snd].
  set (w1 := setActiveAgentId agentId w).
  destruct (assignAgent_effect (activeConversationId w1) agentId (conversations w1) w1)
    as (F & A1 & A2 & A3 & A4 & A5 & A6).
  destruct (assignAgent h (activeConversationId w1) agentId (conversations w1) w1)
    as [convs w2].
  cbn [fst snd] in *.
  assert (E1 : activeAgentId (setConversations convs w2) = agentId).
  { destruct w2. cbn in *. rewrite A5. subst w1. destruct w. reflexivity. }
  split; [exact E1|].
  split; [unfold selectedAgentOf, strOr; rewrite E1; destruct agentId; reflexivity|].
  split; [destruct w2; cbn in *; rewrite A4; subst w1; destruct w; reflexivity|].
  split; [destruct w2; cbn in *; rewrite A2; subst w1; destruct w; reflexivity|].
  split; [destruct w2; cbn in *; rewrite A1; subst w1; destruct w; reflexivity|].
  replace (conversations (setConversations convs w2)) with convs
    by (destruct w2; reflexivity).
  subst w1. destruct w. exact F.
Qed.

(** X7: [setActiveAgent] makes the given identifier the active agent,
    whether or not an agent has it, hands the active conversation to it
    and changes nothing else: the other conversations, the messages, the
    titles and creation times, the agents and the timelines stay. The
    next turn runs for that identifier, or for the writer when it is the
    empty string, and [watchActiveAgent] emits the agent with that
    identifier, which exists exactly when the roster has one. *)
Theorem setActiveAgent_effect agentId w :
  let w' := snd (setActiveAgent h agentId w) in
  activeAgentId w' = agentId
  /\ selectedAgentOf w' = match agentId with [] => u "writer" | _ => agentId end
  /\ activeConversationId w' = activeConversationId w
  /\ agents w' = agents w
  /\ protocols w' = protocols w
  /\ Forall2 (reassigned (activeConversationId w) agentId)
       (conversations w) (conversations w')
  /\ fst (watchActiveAgent w')
     = List.find (fun a => eqStr (ag_id a) agentId) (agents w)
  /\ (is_Some (fst (watchActiveAgent w')) <-> In agentId (map ag_id (agents w))).
Proof.
  cbv zeta.
  destruct (setActiveAgent_state agentId w) as (E1 & S2 & S3 & E2 & S5 & S6).
  repeat (split; [assumption|]).
  unfold watchActiveAgent, gets. cbn [fst]. rewrite E1, E2.
  split; [reflexivity|].
  rewrite find_is_Some. rewrite in_map_iff. split.
  - intros (x & Hin & Hp). exists x. split; [|exact Hin].
    unfold eqStr in Hp. apply bool_decide_eq_true_1 in Hp. exact Hp.
  - intros (x & Hid & Hin). exists x. split; [exact Hin|].
    unfold eqStr. apply bool_decide_eq_true_2. exact Hid.
Qed.

End Selection.

Section Conversations.

Variable h : Host.

Lemma newConversation_eq title w :
  newConversation h title w
  = (uuidOf h (uuidCount w),
     setActiveConversationId (uuidOf h (uuidCount w))
       (setConversations
          ({| conv_id := uuidOf h (uuidCount w); conv_title := title;
              conv_createdAt := toISOString h (timeAt h (clockCount w));
              conv_updatedAt := toISOString h (timeAt h (clockCount w));
              conv_agentId := activeAgentId w; conv_messages := [] |}
             :: conversations w)
          (setClockCount (S (clockCount w)) (setUuidCount (S (uuidCount w)) w)))).
Proof. destruct w. reflexivity. Qed.

Lemma extends_others_same convId l l' :
  Forall2 (extendsConversation convId) l l' ->
  (forall c, In c l -> conv_id c <> convId) -> l' = l.
Proof.
  induction 1 as [|c c' l l' Hc H IH]; intros Hne; [reflexivity|].
  destruct Hc as (_ & _ & _ & _ & _ & Hsame).
  rewrite Hsame by (apply Hne; left; reflexivity).
  rewrite IH; [reflexivity|]. intros x Hx. apply Hne. right. exact Hx.
Qed.

Lemma filter_none {A} (p : A -> bool) (l : list A) :
  (forall x, In x l -> p x = false) -> List.filter p l = [].
Proof.
  induction l as [|x l IH]; intros H; [reflexivity|].
  cbn. rewrite (H x) by (left; reflexivity). apply IH.
  intros y Hy. apply H. right. exact Hy.
Qed.

Lemma eqStr_refl a : eqStr a a = true.
Proof. unfold eqStr. apply bool_decide_eq_true_2. reflexivity. Qed.

Lemma eqStr_ne a b : a <> b -> eqStr a b = false.
Proof. intros H. unfold eqStr. apply bool_decide_eq_false_2. exact H. Qed.

(** X8: [newConversation] puts an empty conversation of the active agent
    in front of the others, which it keeps as they are, and makes it the
    active one. When its identifier is new among the conversations, a
    turn submitted next puts the user message and what follows it into
    that conversation and leaves every older conversation untouched. *)
Theorem turn_in_new_conversation title content w :
  (forall c, In c (conversations w) -> conv_id c <> uuidOf h (uuidCount w)) ->
  let id := fst (newConversation h title w) in
  let w1 := snd (newConversation h title w) in
  let w2 := snd (submit h content w1) in
  id = uuidOf h (uuidCount w)
  /\ activeConversationId w1 = id
  /\ (exists fresh, conversations w1 = fresh :: conversations w
        /\ conv_id fresh = id /\ conv_title fresh = title
        /\ conv_agentId fresh = activeAgentId w /\ conv_messages fresh = []
        /\ conv_createdAt fresh = conv_updatedAt fresh)
  /\ activeConversationId w2 = id
  /\ (exists filled userMsg later,
        conversations w2 = filled :: conversations w
        /\ conv_id filled = id /\ conv_title filled = title
        /\ conv_agentId filled = activeAgentId w
        /\ conv_messages filled = userMsg :: later
        /\ msg_role userMsg = user
        /\ msg_content userMsg = sanitize content
        /\ Forall (fun m => msg_role m = agent) later).
Proof.
  intros Hfresh. cbv zeta. rewrite newConversation_eq. cbn [fst snd].
  set (id := uuidOf h (uuidCount w)).
  set (fresh := {| conv_id := id; conv_title := title;
                   conv_createdAt := toISOString h (timeAt h (clockCount w));
                   conv_updatedAt := toISOString h (timeAt h (clockCount w));
                   conv_agentId := activeAgentId w; conv_messages := [] |}).
  set (w1 := setActiveConversationId id _).
  assert (C1 : conversations w1 = fresh :: conversations w)
    by (subst w1; destruct w; reflexivity).
  assert (A1 : activeConversationId w1 = id) by (subst w1; destruct w; reflexivity).
  split; [reflexivity|]. split; [exact A1|].
  split; [exists fresh; repeat split; exact C1|].
  pose proof (frame_submit h content w1) as (F1 & _ & _ & F4 & _).
  split; [rewrite F1; exact A1|].
  rewrite C1, A1 in F4.
  inversion F4 as [|c0 filled l l' Hhead Htail E1 E2]; subst c0 l.
  pose proof (extends_others_same id _ _ Htail Hfresh) as ->.
  destruct (submit_outcome h content w1)
    as (w' & userMsg & later & E & Hu & Hc & _ & Hag & Hm).
  assert (Ew : snd (submit h content w1) = w') by (rewrite E; reflexivity).
  specialize (Hm id). rewrite A1, eqStr_refl in Hm.
  unfold messagesIn in Hm. rewrite <- Ew, <- E2, C1 in Hm.
  destruct Hhead as (I1 & I2 & _ & I4 & _ & _).
  cbn [List.filter] in Hm. rewrite I1 in Hm. cbn [conv_id fresh] in Hm.
  rewrite eqStr_refl in Hm.
  rewrite (filter_none (fun c => eqStr (conv_id c) id) (conversations w)) in Hm
    by (intros c Hin; apply eqStr_ne, Hfresh, Hin).
  cbn in Hm. injection Hm as Hm.
  exists filled, userMsg, later.
  split; [reflexivity|]. split; [exact I1|]. split; [exact I2|]. split; [exact I4|].
  split; [exact Hm|]. split; [exact Hu|]. split; [exact Hc|]. exact Hag.
Qed.

Lemma messagesIn_listed (cid : jsstring) w :
  messagesIn cid w <> [] <-> exists c, In c (conversations w) /\ conv_id c = cid.
Proof.
  unfold messagesIn. split.
  - intros H.
    destruct (List.filter (fun c => eqStr (conv_id c) cid) (conversations w))
      as [|c l] eqn:E; [cbn in H; congruence|].
    assert (Hin : In c (List.filter (fun c => eqStr (conv_id c) cid) (conversations w)))
      by (rewrite E; left; reflexivity).
    apply filter_In in Hin. destruct Hin as [Hin Hp].
    exists c. split; [exact Hin|].
    unfold eqStr in Hp. apply bool_decide_eq_true_1 in Hp. exact Hp.
  - intros (c & Hin & Hid) H.
    assert (Hf : In c (List.filter (fun c => eqStr (conv_id c) cid) (conversations w))).
    { apply filter_In. split; [exact Hin|]. rewrite Hid. apply eqStr_refl. }
    destruct (List.filter (fun c => eqStr (conv_id c) cid) (conversations w));
      [destruct Hf|discriminate].
Qed.

(** X9: the active conversation is always one of the list: this holds
    initially and is kept by [newConversation], [setActiveAgent] and a
    whole turn. So the user message of a turn is never dropped: after
    the turn the active conversation holds it, with the sanitised
    content. *)
Theorem active_conversation_listed :
  activeListed (initialWorld h)
  /\ (forall title w, activeListed (snd (newConversation h title w)))
  /\ (forall agentId w, activeListed w -> activeListed (snd (setActiveAgent h agentId w)))
  /\ (forall content w,
        activeListed w ->
        let w' := snd (submit h content w) in
        activeListed w'
        /\ exists c userMsg,
             In c (conversations w') /\ conv_id c = activeConversationId w'
             /\ In userMsg (conv_messages c)
             /\ msg_role userMsg = user /\ msg_content userMsg = sanitize content).
Proof.
  split.
  { eexists. split; [left; reflexivity|reflexivity]. }
  split.
  { intros title w. rewrite newConversation_eq. cbn [snd].
    eexists. split; [destruct w; left; reflexivity|destruct w; reflexivity]. }
  split.
  { intros agentId w (c & Hin & Hid).
    destruct (setActiveAgent_state h agentId w) as (_ & _ & A & _ & _ & F).
    unfold activeListed. rewrite A.
    clear A. revert Hin.
    induction F as [|x x' l l' Hx F IH]; intros Hin; [destruct Hin|].
    destruct Hin as [<- | Hin].
    - exists x'. split; [left; reflexivity|].
      destruct Hx as (I1 & _). congruence.
    - destruct (IH Hin) as (c' & Hin' & Hid'). exists c'. split; [right|]; assumption. }
  intros content w HL. cbv zeta.
  pose proof (frame_submit h content w) as (F1 & _).
  destruct (submit_outcome h content w)
    as (w' & userMsg & later & E & Hu & Hc & _ & _ & Hm).
  assert (Ew : snd (submit h content w) = w') by (rewrite E; reflexivity).
  rewrite Ew in *.
  specialize (Hm (activeConversationId w)). rewrite eqStr_refl in Hm.
  apply messagesIn_listed in HL.
  destruct (messagesIn (activeConversationId w) w) as [|ms rest] eqn:Em; [congruence|].
  cbn [map] in Hm.
  unfold messagesIn in Hm.
  destruct (List.filter (fun c => eqStr (conv_id c) (activeConversationId w))
              (conversations w')) as [|c l] eqn:Ef; [discriminate|].
  assert (Hin : In c (List.filter (fun c => eqStr (conv_id c) (activeConversationId w))
                        (conversations w')))
    by (rewrite Ef; left; reflexivity).
  apply filter_In in Hin. destruct Hin as [Hin Hp].
  unfold eqStr in Hp. apply bool_decide_eq_true_1 in Hp.
  cbn [map] in Hm. injection Hm as Hm _.
  split.
  - exists c. split; [exact Hin|]. congruence.
  - exists c, userMsg. split; [exact Hin|]. split; [congruence|].
    split; [rewrite Hm; apply in_or_app; right; left; reflexivity|].
    split; assumption.
Qed.

End Conversations.

(** A new chat in the initial state, and a first turn in it. *)
Lemma turn_in_new_conversation_witness :
  let h := offlineHost in
  let w := initialWorld h in
  let id := fst (newConversation h (u "New Chat") w) in
  let w1 := snd (newConversation h (u "New Chat") w) in
  let w2 := snd (submit h (u "hi") w1) in
  id = uuidOf h (uuidCount w)
  /\ activeConversationId w1 = id
  /\ (exists fresh, conversations w1 = fresh :: conversations w
        /\ conv_id fresh = id /\ conv_title fresh = u "New Chat"
        /\ conv_agentId fresh = activeAgentId w /\ conv_messages fresh = []
        /\ conv_createdAt fresh = conv_updatedAt fresh)
  /\ activeConversationId w2 = id
  /\ (exists filled userMsg later,
        conversations w2 = filled :: conversations w
        /\ conv_id filled = id /\ conv_title filled = u "New Chat"
        /\ conv_agentId filled = activeAgentId w
        /\ conv_messages filled = userMsg :: later
        /\ msg_role userMsg = user
        /\ msg_content userMsg = sanitize (u "hi")
        /\ Forall (fun m => msg_role m = agent) later).
Proof.
  cbv zeta.
  apply (turn_in_new_conversation offlineHost (u "New Chat") (u "hi")
           (initialWorld offlineHost)).
  intros c [<- | []]. vm_compute. discriminate.
Defined.

Section Subscribers.

Variable h : Host.

Lemma observePending_runPending :
  forall p w,
    map fst (fst (observePending h p w)) = fst (runPending h p w)
    /\ snd (observePending h p w) = snd (runPending h p w).
Proof.
  fix IH 1. intros p w. destruct p as [|ms cb|req k]; cbn [observePending runPending].
  - split; reflexivity.
  - destruct (cb w) as [[ns p'] w'].
    destruct (IH p' w') as [E1 E2].
    destruct (observePending h p' w') as [obs w''].
    destruct (runPending h p' w') as [ns' w3]. cbn [fst snd] in *.
    split; [|exact E2].
    rewrite map_app, map_map, E1. cbn [fst]. rewrite map_id. reflexivity.
  - destruct (k (httpPost h req) w) as [[ns p'] w'].
    destruct (IH p' w') as [E1 E2].
    destruct (observePending h p' w') as [obs w''].
    destruct (runPending h p' w') as [ns' w3]. cbn [fst snd] in *.
    split; [|exact E2].
    rewrite map_app, map_map, E1. cbn [fst]. rewrite map_id. reflexivity.
Qed.

Lemma submitObserved_submit content w :
  map fst (fst (submitObserved h content w)) = fst (submit h content w)
  /\ snd (submitObserved h content w) = snd (submit h content w).
Proof.
  unfold submitObserved, submit, bind.
  destruct (sendMessage h content w) as [obs w1].
  destruct (obs w1) as [sub w2].
  destruct (observePending_runPending (snd sub) w2) as [E1 E2].
  destruct (observePending h (snd sub) w2) as [later w3].
  destruct (runPending h (snd sub) w2) as [ns w3']. cbn [fst snd] in *.
  split; [|exact E2].
  rewrite map_app, map_map, E1. cbn [fst]. rewrite map_id. reflexivity.
Qed.

End Subscribers.

Section Pages.

Variable h : Host.

Lemma find_head_filter {A B} (f : A -> B) (p : A -> bool) (l : list A) :
  option_map f (List.find p l) = head (map f (List.filter p l)).
Proof.
  induction l as [|x l IH]; [reflexivity|].
  cbn. destruct (p x); [reflexivity|exact IH].
Qed.

Lemma resolve_eq w :
  resolveLatestAssistantReply w
  = match head (messagesIn (activeConversationId w) w) with
    | Some ms => lastAgentMessage ms
    | None => None
    end.
Proof.
  unfold resolveLatestAssistantReply, watchActiveConversation, gets, messagesIn.
  cbn [fst]. rewrite <- find_head_filter.
  destruct (List.find _ (conversations w)); reflexivity.
Qed.



Lemma lastAgentMessage_app_agent ms m r :
  msg_role r = agent -> lastAgentMessage (ms ++ [m; r]) = Some r.
Proof.
  intros H. unfold lastAgentMessage. rewrite rev_app_distr. cbn. rewrite H. reflexivity.
Qed.

Lemma observed_two (obs : list (Notification * World)) m :
  map fst obs = [Next m; Complete] ->
  exists wa wb, obs = [(Next m, wa); (Complete, wb)].
Proof.
  destruct obs as [|[n1 wa] [|[n2 wb] [|? ?]]]; try discriminate.
  cbn. intros [= -> ->]. eexists _, _. reflexivity.
Qed.


Lemma head_map {A B} (f : A -> B) (l : list A) : head (map f l) = option_map f (head l).
Proof. destruct l; reflexivity. Qed.

(** X13: [send] of the chat page does nothing when the draft is blank
    or a turn is still being sent. Otherwise it submits the trimmed
    draft, and once the turn has run the draft is cleared and the page
    is no longer sending, on every path of the turn; the user message
    stored is the sanitised draft and is not empty. [onKeydown] sends
    exactly when Enter arrives with Ctrl or Meta held. *)
Theorem chat_page_send (p : ChatPage) (w : World) :
  (trim (draft p) = [] \/ sending p = true -> send h p w = (p, w))
  /\ (trim (draft p) <> [] -> sending p = false ->
      snd (send h p w) = snd (submit h (trim (draft p)) w)
      /\ draft (fst (send h p w)) = []
      /\ sending (fst (send h p w)) = false
      /\ exists userMsg,
           fst (submit h (trim (draft p)) w) = [Next userMsg; Complete]
           /\ msg_content userMsg = sanitize (draft p)
           /\ msg_content userMsg <> [])
  /\ (forall e, (ctrlKey e || metaKey e) = false \/ key e <> u "Enter" ->
                onKeydown h e p w = (p, w))
  /\ (forall e, (ctrlKey e || metaKey e) = true -> key e = u "Enter" ->
                onKeydown h e p w = send h p w).
Proof.
  split.
  { intros [H|H]; unfold send.
    - rewrite H. reflexivity.
    - rewrite H, orb_true_r. reflexivity. }
  split.
  { intros Ht Hs. unfold send. rewrite (eqStr_ne _ _ Ht), Hs. cbn [orb].
    destruct (submitObserved_submit h (trim (draft p)) w) as [E1 E2].
    destruct (submit_outcome h (trim (draft p)) w)
      as (w' & userMsg & later & E & _ & Hc & _).
    rewrite E in E1. cbn [fst] in E1.
    destruct (observed_two _ _ E1) as (wa & wb & Eo).
    destruct (submitObserved h (trim (draft p)) w) as [obs wEnd].
    cbn [fst snd] in *. subst obs. cbn [deliver chatPageOn draft sending].
    split; [exact E2|]. split; [reflexivity|]. split; [reflexivity|].
    exists userMsg. split; [rewrite E; reflexivity|].
    rewrite Hc, sanitize_trim. split; [reflexivity|].
    intros Hn. apply sanitize_nil in Hn. contradiction. }
  split.
  { intros e [H|H]; unfold onKeydown.
    - rewrite H. reflexivity.
    - rewrite (eqStr_ne _ _ H), andb_false_r. reflexivity. }
  intros e H1 H2. unfold onKeydown. rewrite H1, H2, eqStr_refl. reflexivity.
Qed.


(** X15: when the backend answers, the reply is in the conversation
    before the user message is delivered, so the question page shows
    the reply of this turn: its content is the content of the answer,
    or [(no content)] when the answer has none. *)
Theorem qa_answer_on_remote_path (p : QaPage) (w : World) (body : option HttpBody) :
  isConfigured h = true ->
  httpPost h (requestOf (trim (question p)) w) = HttpResponded body ->
  trim (question p) <> [] ->
  qa_sending p = false ->
  activeListed w ->
  let p' := fst (ask h p w) in
  let w' := snd (ask h p w) in
  w' = snd (submit h (trim (question p)) w)
  /\ question p' = [] /\ qa_sending p' = false
  /\ lastTurnId p' = Some (turnOf h w)
  /\ exists reply,
       answerMsg p' = Some reply
       /\ resolveLatestAssistantReply w' = Some reply
       /\ msg_role reply = agent
       /\ msg_protocolTurnId reply = Some (turnOf h w)
       /\ msg_content reply
          = strOr (Some (res_content (normalizeBody body))) (u "(no content)").
Proof.
  intros Hc Hpost Hq Hs HL. cbv zeta.
  destruct (submitObserved_submit h (trim (question p)) w) as [_ E2].
  unfold ask. rewrite (eqStr_ne _ _ Hq), Hs. cbn [orb].
  destruct (sendMessage_remote h (trim (question p)) w Hc)
    as (w0 & w1 & userMsg & sPlan & n & E & R & Ap & Tp & C1 & A1).
  assert (Hsome : is_Some (protocols w1 !! turnOf h w)).
  { destruct Ap as (_ & S1 & _). apply S1. discriminate. }
  destruct (onBackendAnswer_stage h (activeConversationId w) (selectedAgentOf w)
              (turnOf h w) userMsg (normalizeBody body) w1 Hsome)
    as (w' & added & reply & Ea & Aa & Ta & Hmsg & Hrole & Hcontent & Hctx & Hllm
        & Hag & Hturn & A2).
  assert (Eobs : submitObserved h (trim (question p)) w
                 = ([(Next userMsg, w'); (Complete, w')], w')).
  { unfold submitObserved. rewrite E. cbn [ret fst snd map app].
    unfold remotePending. cbn [observePending].
    unfold requestOf in Hpost. rewrite Hpost, Ea. reflexivity. }
  rewrite Eobs in E2 |- *. cbn [fst snd] in *.
  cbn [deliver qaPageOn question qa_sending lastTurnId answerMsg].
  destruct R as (_ & _ & Hu & _ & Hut & Hm & _).
  split; [exact E2|]. split; [reflexivity|]. split; [reflexivity|].
  split; [exact Hut|].
  exists reply.
  assert (Er : resolveLatestAssistantReply w' = Some reply).
  { pose proof (frame_submit h (trim (question p)) w) as (F1 & _).
    rewrite <- E2 in F1.
    rewrite resolve_eq, F1, Hmsg, eqStr_refl.
    unfold messagesIn at 1. rewrite C1. fold (messagesIn (activeConversationId w) w0).
    rewrite Hm, eqStr_refl, !head_map.
    apply messagesIn_listed in HL.
    destruct (messagesIn (activeConversationId w) w) as [|ms rest]; [congruence|].
    cbn [head option_map]. rewrite <- app_assoc. cbn [app].
    apply lastAgentMessage_app_agent. exact Hrole. }
  repeat split; assumption.
Qed.

End Pages.

Section TurnInvariants.

Variable h : Host.

(** X10: a turn, on whichever path it runs, changes no timeline but its
    own: the timelines of all other turn identifiers are what they were,
    and [get] returns them unchanged; its own timeline keeps the steps it
    had and gets steps appended; and the store stays filed by turn
    identifier. *)
Theorem turn_touches_own_timeline content w :
  let w' := snd (submit h content w) in
  (forall other, other <> turnOf h w -> protocols w' !! other = protocols w !! other)
  /\ (exists more, timeline (turnOf h w) w' = timeline (turnOf h w) w ++ more)
  /\ (forall other, other <> turnOf h w -> fst (get other w') = fst (get other w))
  /\ (keyed w -> keyed w').
Proof.
  cbv zeta. pose proof (frame_submit h content w) as (_ & _ & _ & _ & F5 & F6 & F7 & _).
  split; [exact F5|]. split; [exact F6|]. split; [|exact F7].
  intros other Hne. unfold get, gets, readSlot. cbn [fst].
  rewrite F5 by exact Hne. reflexivity.
Qed.

(** X11: a turn never removes, reorders or edits anything in the
    conversations: their number and order, their identifiers, titles,
    creation times and agents stay, every conversation but the active
    one is untouched, and the active one keeps its messages and gets
    messages appended. The active conversation stays the same. *)
Theorem turn_keeps_conversations content w :
  let w' := snd (submit h content w) in
  Forall2 (extendsConversation (activeConversationId w))
    (conversations w) (conversations w')
  /\ length (conversations w') = length (conversations w)
  /\ map conv_id (conversations w') = map conv_id (conversations w)
  /\ activeConversationId w' = activeConversationId w.
Proof.
  cbv zeta. pose proof (frame_submit h content w) as (F1 & _ & _ & F4 & _).
  split; [exact F4|]. split; [symmetry; eapply Forall2_length; exact F4|].
  split; [|exact F1].
  induction F4 as [|c c' l l' Hc F IH]; [reflexivity|].
  cbn [map]. destruct Hc as (-> & _). rewrite IH. reflexivity.
Qed.

(** X12: a turn changes the states of the agents only: the roster keeps
    its agents with their identifiers, names, descriptions, icons and
    expertise, in their order, the selected agent stays selected, and
    what [watchActiveAgent] emits afterwards is the same agent apart
    from its state. *)
Theorem turn_keeps_roster content w :
  let w' := snd (submit h content w) in
  Forall2 sameIdentity (agents w) (agents w')
  /\ map ag_id (agents w') = map ag_id (agents w)
  /\ activeAgentId w' = activeAgentId w
  /\ (forall a, fst (watchActiveAgent w) = Some a ->
        exists a', fst (watchActiveAgent w') = Some a' /\ sameIdentity a a').
Proof.
  cbv zeta. pose proof (frame_submit h content w) as (_ & F2 & F3 & _).
  split; [exact F3|]. split.
  { clear F2. induction F3 as [|a a' l l' Ha F IH]; [reflexivity|].
    cbn [map]. destruct Ha as (-> & _). rewrite IH. reflexivity. }
  split; [exact F2|].
  unfold watchActiveAgent, gets. cbn [fst]. rewrite F2. clear F2.
  induction F3 as [|x x' l l' Hx F IH]; intros a; [discriminate|].
  cbn [List.find]. destruct Hx as (I1 & Hrest). rewrite I1.
  destruct (eqStr (ag_id x) (activeAgentId w)).
  - intros [= <-]. exists x'. split; [reflexivity|]. split; assumption.
  - apply IH.
Qed.

End TurnInvariants.

Section LocalTurn.

Variable h : Host.

Lemma corpus_ranked query n : rankChunks (corpus h query n) = corpus h query n.
Proof.
  pose proof (mockRag_ranked h query (setUuidCount n (initialWorld h))) as H.
  rewrite mockRag_eq in H. exact H.
Qed.

Lemma corpus_titles query n :
  map rc_title (corpus h query n)
  = [Some (u "RAG Overview"); Some (u "Agent Collaboration");
     Some (u "Context Windows"); Some (u "Answer Quality")].
Proof. reflexivity. Qed.

Lemma retrievalQuery_cases s :
  retrievalQuery s
  = match rewriteQueryForRetrieval s with [] => s | c :: r => c :: r end.
Proof. unfold retrievalQuery, strOr. destruct (rewriteQueryForRetrieval s); reflexivity. Qed.

Lemma retrievalQuery_nonempty s : s <> [] -> retrievalQuery s <> [].
Proof.
  intros H. rewrite retrievalQuery_cases.
  destruct (rewriteQueryForRetrieval s); [exact H|discriminate].
Qed.

(** X16: what a local turn retrieves and packs. The query of the
    retrieve step is the reformulated text, or the sanitised text itself
    when the reformulation is empty (a text of filler words only), so it
    is not empty unless the input is blank. Whatever the query, the
    retrieve step lists the same four documents in the same order, the
    packed window holds the system item, the history item and the first
    three of them, and the reply, the last message of the active
    conversation, carries the retrieval context of that step. *)
Theorem local_turn_payload content w :
  isConfigured h = false ->
  hasSetTimeout h = true ->
  exists sPlan sRoute sRetr sPack sGen batch items reply rag,
    timeline (turnOf h w) (snd (submit h content w))
    = timeline (turnOf h w) w ++ [sPlan; sRoute; sRetr; sPack; sGen]
    /\ ps_retrieval sRetr = Some batch
    /\ rb_query batch
       = match rewriteQueryForRetrieval (sanitize content) with
         | [] => sanitize content
         | c :: r => c :: r
         end
    /\ (trim content <> [] -> rb_query batch <> [])
    /\ map ri_title (rb_items batch)
       = [Some (u "RAG Overview"); Some (u "Agent Collaboration");
          Some (u "Context Windows"); Some (u "Answer Quality")]
    /\ ps_contextWindow sPack = Some items
    /\ map cw_type items
       = [cw_system; cw_history; cw_retrieval; cw_retrieval; cw_retrieval]
    /\ map cw_id (skipn 2 items) = map ri_id (firstn 3 (rb_items batch))
    /\ msg_context reply = Some rag
    /\ rag_query rag = rb_query batch
    /\ map toRetrievalItem (rag_chunks rag) = rb_items batch
    /\ Forall (fun ms => last ms = Some reply)
         (messagesIn (activeConversationId w) (snd (submit h content w))).
Proof.
  intros Hc Ht.
  destruct (submit_local h content w Hc Ht)
    as (w0 & w' & userMsg & recorded & reply & E & R & L).
  destruct L as (sPlan & sRoute & sRetr & sPack & sGen & rag & items & latency
                 & Hrec & Al & Ty & Hretr & Hq & (n & Hch) & Hcw & (i1 & i2 & Hit)
                 & _ & _ & _ & _ & Hctx & _ & _ & Hml & _).
  subst recorded.
  pose proof R as (Ap0 & _).
  pose proof (appended_trans _ _ _ _ _ _ Ap0 Al) as (Tl & _). cbn [app] in Tl.
  rewrite corpus_ranked in Hch.
  exists sPlan, sRoute, sRetr, sPack, sGen,
    {| rb_query := rag_query rag; rb_items := map toRetrievalItem (rag_chunks rag) |},
    items, reply, rag.
  rewrite E. cbn [snd rb_query rb_items].
  split; [exact Tl|]. split; [exact Hretr|].
  split; [rewrite Hq; apply retrievalQuery_cases|].
  split.
  { intros Hne. rewrite Hq. apply retrievalQuery_nonempty.
    intros Hs. apply sanitize_nil in Hs. contradiction. }
  split; [rewrite Hch; reflexivity|].
  split; [exact Hcw|].
  split; [rewrite Hit; unfold contextItems; rewrite Hch; reflexivity|].
  split; [rewrite Hit; unfold contextItems; rewrite Hch; reflexivity|].
  split; [exact Hctx|]. split; [reflexivity|]. split; [reflexivity|].
  rewrite Hml, eqStr_refl. apply List.Forall_forall. intros ms Hin.
  apply in_map_iff in Hin. destruct Hin as (ms0 & <- & _). apply last_snoc.
Qed.

End LocalTurn.

Section Attribution.

Variable h : Host.

Lemma generateReplyTailored_other userText rag agentId :
  agentId <> u "planner" -> agentId <> u "researcher" ->
  generateReplyTailored userText rag agentId = generateReply userText rag.
Proof.
  intros H1 H2. unfold generateReply, generateReplyTailored.
  rewrite (eqStr_ne _ _ H1), (eqStr_ne _ _ H2). reflexivity.
Qed.

(** X17: after [setActiveAgent], the reply of the next local turn is
    attributed to the selected identifier (to the writer when it is
    empty) and worded for it; for every identifier other than planner
    and researcher the wording is that of the legacy [generateReply].
    The selection is not changed by the turn. *)
Theorem reply_by_selected_agent agentId content w :
  isConfigured h = false ->
  hasSetTimeout h = true ->
  let w1 := snd (setActiveAgent h agentId w) in
  let w2 := snd (submit h content w1) in
  exists userMsg reply rag,
    (forall cid, messagesIn cid w2
                 = if eqStr cid (activeConversationId w)
                   then map (fun ms => ms ++ [userMsg; reply]) (messagesIn cid w)
                   else messagesIn cid w)
    /\ msg_role reply = agent
    /\ msg_agentId reply = Some (agentFor agentId)
    /\ msg_context reply = Some rag
    /\ msg_content reply = generateReplyTailored (sanitize content) rag (agentFor agentId)
    /\ (agentId <> u "planner" -> agentId <> u "researcher" ->
        msg_content reply = generateReply (sanitize content) rag)
    /\ activeAgentId w2 = agentId.
Proof.
  intros Hc Ht. cbv zeta.
  destruct (setActiveAgent_state h agentId w) as (S1 & S2 & S3 & _ & _ & S6).
  set (w1 := snd (setActiveAgent h agentId w)) in *.
  destruct (submit_local h content w1 Hc Ht)
    as (w0 & w' & userMsg & recorded & reply & E & R & L).
  destruct L as (? & ? & ? & ? & ? & rag & ? & ? & _ & _ & _ & _ & _ & _ & _ & _
                 & _ & _ & Hrole & Hcontent & Hctx & Hag & _ & Hml & _).
  destruct R as (_ & _ & _ & _ & _ & Hm & _).
  fold (agentFor agentId) in S2. rewrite S2 in Hcontent, Hag. rewrite S3 in Hml, Hm.
  exists userMsg, reply, rag. rewrite E. cbn [snd].
  split.
  { intros cid. rewrite Hml, Hm.
    assert (M1 : messagesIn cid w1 = messagesIn cid w).
    { unfold messagesIn. clear -S6.
      induction S6 as [|c c' l l' Hc F IH]; [reflexivity|].
      cbn [List.filter]. destruct Hc as (-> & _ & _ & Hmsgs & _).
      destruct (eqStr (conv_id c) cid); cbn [map]; rewrite ?Hmsgs, IH; reflexivity. }
    rewrite M1. apply messagesIn_twice. }
  split; [exact Hrole|]. split; [exact Hag|]. split; [exact Hctx|].
  split; [exact Hcontent|].
  split.
  { intros H1 H2. rewrite Hcontent. apply generateReplyTailored_other.
    - destruct agentId; [discriminate|exact H1].
    - destruct agentId; [discriminate|exact H2]. }
  pose proof (frame_submit h content w1) as (_ & F2 & _).
  rewrite E in F2. cbn [snd] in F2. rewrite F2. exact S1.
Qed.

(** X18: when the backend answers, the reply appended after the user
    message is never empty: it is the content of the answer, or
    [(no content)] when the body is missing, has no content or has the
    empty string as content. An answer without body adds no step to the
    plan step of the turn and no model metadata to the reply. *)
Theorem remote_reply_content content w body :
  isConfigured h = true ->
  httpPost h (requestOf content w) = HttpResponded body ->
  let w' := snd (submit h content w) in
  exists userMsg reply,
    (forall cid, messagesIn cid w'
                 = if eqStr cid (activeConversationId w)
                   then map (fun ms => ms ++ [userMsg; reply]) (messagesIn cid w)
                   else messagesIn cid w)
    /\ msg_role reply = agent
    /\ msg_content reply <> []
    /\ msg_content reply
       = match body with
         | Some b =>
             match body_content b with
             | Some (c :: r) => c :: r
             | _ => u "(no content)"
             end
         | None => u "(no content)"
         end
    /\ (body = None ->
        kinds (turnOf h w) w' = kinds (turnOf h w) w ++ [plan]
        /\ msg_llm reply = None).
Proof.
  intros Hc Hpost. cbv zeta.
  destruct (submit_answered h content w body Hc Hpost)
    as (w0 & w1 & w' & userMsg & sPlan & added & reply & n & E & R & Ap & Tp & Aa & Ta
        & Hm & Hrole & Hcontent & Hllm & _).
  exists userMsg, reply. rewrite E. cbn [snd].
  split; [exact Hm|]. split; [exact Hrole|].
  assert (Hcase : msg_content reply
                  = match body with
                    | Some b =>
                        match body_content b with
                        | Some (c :: r) => c :: r
                        | _ => u "(no content)"
                        end
                    | None => u "(no content)"
                    end).
  { rewrite Hcontent. unfold normalizeBody, strOr, nullish. cbn [res_content].
    destruct body as [b|]; [|reflexivity].
    destruct (body_content b) as [[|c r]|]; reflexivity. }
  split.
  { rewrite Hcase. destruct body as [b|]; [|discriminate].
    destruct (body_content b) as [[|c r]|]; discriminate. }
  split; [exact Hcase|].
  intros ->. split.
  - cbn [normalizeBody res_protocol map] in Ta.
    destruct added; [|discriminate Ta].
    destruct R as (A0 & _).
    pose proof (appended_trans _ _ _ _ _ _ A0 (appended_trans _ _ _ _ _ _ Ap Aa))
      as (Tl & _).
    cbn [app] in Tl. unfold kinds. rewrite Tl, map_app. cbn [map]. rewrite Tp.
    reflexivity.
  - rewrite Hllm. reflexivity.
Qed.

End Attribution.

Section AgentStates.

Variable h : Host.

Lemma runMockPath_stalled convId agentId safeContent tid `{!Plain tid} userMsg w :
  hasSetTimeout h = false ->
  exists w' n1 n2 n3 n4 n5,
    runMockPath h convId agentId safeContent tid userMsg w = ([Next userMsg; Complete], w')
    /\ conversations w' = conversations w
    /\ agents w'
       = map (withAgentState (u "writer") thinking n5)
           (map (withAgentState (u "researcher") responding n4)
              (map (withAgentState (u "researcher") retrieving n3)
                 (map (withAgentState (u "planner") retrieving n2)
                    (map (withAgentState (u "planner") thinking n1) (agents w))))).
Proof.
  intros Ht.
  destruct (mockPlan_stage h convId agentId safeContent tid userMsg w)
    as (w1 & sPlan & n1 & E1 & _ & _ & C1 & A1).
  destruct (mockRoute_stage h convId agentId safeContent tid userMsg
              (rewriteQueryForRetrieval safeContent) w1)
    as (w2 & sRoute & n2 & E2 & _ & _ & C2 & A2).
  destruct (mockRetrieveAndPack_stage h convId agentId safeContent tid userMsg
              (rewriteQueryForRetrieval safeContent) w2)
    as (w3 & sRetr & sPack & rag & items & start & n3 & n4 & n5 & E3 & _ & _ & _
        & _ & _ & _ & _ & _ & C3 & A3).
  exists w3, n1, n2, n3, n4, n5. split.
  { unfold runMockPath. rewrite E1. cbn [ret fst snd runPending].
    rewrite E2. cbn [fst snd runPending]. rewrite E3, Ht. reflexivity. }
  split; [congruence|]. rewrite A3, A2, A1. reflexivity.
Qed.

(** X19: the states in which a turn leaves the roster of planner,
    researcher and writer. A local turn leaves all three idle, without
    note. On a host without timers the model call is never scheduled:
    the planner stays retrieving, the researcher responding and the
    writer thinking, and the conversation gets the user message and no
    reply. A turn answered by the backend leaves the planner idle and
    the two others as they were. *)
Theorem agent_states_after_turn content w a1 a2 a3 :
  agents w = [a1; a2; a3] ->
  ag_id a1 = u "planner" -> ag_id a2 = u "researcher" -> ag_id a3 = u "writer" ->
  let w' := snd (submit h content w) in
  (isConfigured h = false -> hasSetTimeout h = true ->
   map ag_state (agents w') = [resting; resting; resting])
  /\ (isConfigured h = false -> hasSetTimeout h = false ->
      map (fun a => status (ag_state a)) (agents w') = [retrieving; responding; thinking]
      /\ exists userMsg,
           msg_role userMsg = user
           /\ forall cid, messagesIn cid w'
                          = if eqStr cid (activeConversationId w)
                            then map (fun ms => ms ++ [userMsg]) (messagesIn cid w)
                            else messagesIn cid w)
  /\ (forall body,
        isConfigured h = true ->
        httpPost h (requestOf content w) = HttpResponded body ->
        map ag_state (agents w') = [resting; ag_state a2; ag_state a3]).
Proof.
  intros Hag I1 I2 I3. cbv zeta.
  destruct a1 as [i1 nm1 d1 ic1 ex1 s1], a2 as [i2 nm2 d2 ic2 ex2 s2],
           a3 as [i3 nm3 d3 ic3 ex3 s3].
  cbn [ag_id] in I1, I2, I3. subst i1 i2 i3. cbn [ag_state].
  split; [|split].
  - intros Hc Ht.
    destruct (submit_local h content w Hc Ht)
      as (w0 & w' & userMsg & recorded & reply & E & R & L).
    destruct L as (? & ? & ? & ? & ? & ? & ? & ? & _ & _ & _ & _ & _ & _ & _ & _
                   & _ & _ & _ & _ & _ & _ & _ & _ & Ha).
    destruct R as (_ & _ & _ & _ & _ & _ & Ha0).
    rewrite E. cbn [snd]. rewrite Ha, Ha0, Hag. vm_compute. reflexivity.
  - intros Hc Ht.
    destruct (sendMessage_local h content w Hc) as (w0 & userMsg & E & R).
    destruct (runMockPath_stalled (activeConversationId w) (selectedAgentOf w)
                (sanitize content) (turnOf h w) userMsg w0 Ht)
      as (w' & n1 & n2 & n3 & n4 & n5 & Er & Cv & Ha).
    rewrite (submit_mock _ _ _ _ _ _ _ _ _ E), Er. cbn [snd].
    destruct R as (_ & _ & Hu & _ & _ & Hm & Ha0).
    split.
    + rewrite Ha, Ha0, Hag. vm_compute. reflexivity.
    + exists userMsg. split; [exact Hu|].
      intros cid. unfold messagesIn at 1. rewrite Cv. apply Hm.
  - intros body Hc Hpost.
    destruct (submit_answered h content w body Hc Hpost)
      as (w0 & w1 & w' & userMsg & sPlan & added & reply & n & E & _ & _ & _ & _ & _
          & _ & _ & _ & _ & _ & Ha).
    rewrite E. cbn [snd]. rewrite Ha, Hag. vm_compute. reflexivity.
Qed.

End AgentStates.

Section Lookup.

Variable h : Host.

Lemma getLastProtocolTurnId_eq w :
  getLastProtocolTurnId (fst (watchActiveConversation w))
  = match head (messagesIn (activeConversationId w) w) with
    | Some ms => match last ms with Some m => msg_protocolTurnId m | None => None end
    | None => None
    end.
Proof.
  unfold getLastProtocolTurnId, watchActiveConversation, gets, messagesIn.
  cbn [fst]. rewrite <- find_head_filter.
  destruct (List.find _ (conversations w)); reflexivity.
Qed.

(** X20: after a local turn the chat page finds the timeline of the
    last message: the last message of the active conversation carries
    the identifier of the turn, and [getProtocolSteps] returns for it
    the steps the turn had before followed by the five steps of the
    local pipeline, while the steps of every other turn are reported as
    before. *)
Theorem page_finds_timeline content w :
  isConfigured h = false ->
  hasSetTimeout h = true ->
  activeListed w ->
  let w' := snd (submit h content w) in
  exists recorded,
    map ps_type recorded = localKinds
    /\ getLastProtocolTurnId (fst (watchActiveConversation w')) = Some (turnOf h w)
    /\ fst (getProtocolSteps (turnOf h w) w') = timeline (turnOf h w) w ++ recorded
    /\ (forall other, other <> turnOf h w ->
          fst (getProtocolSteps other w') = fst (getProtocolSteps other w)).
Proof.
  intros Hc Ht HL. cbv zeta.
  pose proof (frame_submit h content w) as (F1 & _ & _ & _ & F5 & _).
  destruct (submit_local h content w Hc Ht)
    as (w0 & w' & userMsg & recorded & reply & E & R & L).
  destruct L as (? & ? & ? & ? & ? & ? & ? & ? & Hrec & Al & Ty & _ & _ & _ & _ & _
                 & _ & _ & _ & _ & _ & _ & Hrt & Hml & _).
  pose proof R as (Ap0 & _ & _ & _ & _ & Hm & _).
  pose proof (appended_trans _ _ _ _ _ _ Ap0 Al) as (Tl & _). cbn [app] in Tl.
  rewrite E in *. cbn [snd] in *.
  exists recorded. split; [exact Ty|]. split.
  { rewrite getLastProtocolTurnId_eq, F1, Hml, eqStr_refl, Hm, eqStr_refl, !head_map.
    apply messagesIn_listed in HL.
    destruct (messagesIn (activeConversationId w) w) as [|ms rest]; [congruence|].
    cbn [head option_map]. rewrite last_snoc. exact Hrt. }
  split; [rewrite getProtocolSteps_timeline; exact Tl|].
  intros other Hne. rewrite !getProtocolSteps_timeline. unfold timeline.
  rewrite F5 by exact Hne. reflexivity.
Qed.

End Lookup.


(** Two appends to different turns of the initial state. *)
Lemma appendStep_commutes_witness :
  snd (appendStep (u "b") sampleStep
         (snd (appendStep (u "a") sampleStep (initialWorld offlineHost))))
  = snd (appendStep (u "a") sampleStep
           (snd (appendStep (u "b") sampleStep (initialWorld offlineHost)))).
Proof.
  apply (appendStep_commutes (u "a") (u "b") sampleStep sampleStep
           (initialWorld offlineHost)).
  - vm_compute. discriminate.
  - reflexivity.
  - reflexivity.
Defined.

(** An append to the turn [t-1] of the initial state, with and without
    [addProtocol] before it. *)
Lemma appendStep_absorbs_addProtocol_witness :
  snd (appendStep (u "t-1") sampleStep
         (snd (addProtocol (u "t-1") (initialWorld offlineHost))))
  = snd (appendStep (u "t-1") sampleStep (initialWorld offlineHost)).
Proof.
  apply (appendStep_absorbs_addProtocol (u "t-1") sampleStep (initialWorld offlineHost)).
  reflexivity.
Defined.


(** The first question on a host whose backend answers. *)
Lemma qa_answer_on_remote_path_witness :
  exists reply,
    answerMsg (fst (ask (answeringHost (Some sampleBody)) samplePage
                      (initialWorld (answeringHost (Some sampleBody)))))
    = Some reply
    /\ msg_content reply = u "RAG grounds answers in retrieved text.".
Proof.
  destruct (qa_answer_on_remote_path (answeringHost (Some sampleBody)) samplePage
              (initialWorld (answeringHost (Some sampleBody))) (Some sampleBody))
    as (_ & _ & _ & _ & reply & H1 & _ & _ & _ & H2);
    [reflexivity | reflexivity | vm_compute; discriminate | reflexivity
    | eexists; split; [left; reflexivity|reflexivity]
    | exists reply; split; [exact H1|exact H2]].
Defined.

(** A turn that consists of a filler word only: the word is searched as
    it is. *)
Lemma local_turn_payload_witness :
  exists sRetr batch,
    In sRetr (timeline (turnOf offlineHost (initialWorld offlineHost))
                (snd (submit offlineHost (u "thanks") (initialWorld offlineHost))))
    /\ ps_retrieval sRetr = Some batch
    /\ rb_query batch = u "thanks"
    /\ length (rb_items batch) = 4%nat.
Proof.
  destruct (local_turn_payload offlineHost (u "thanks") (initialWorld offlineHost))
    as (sPlan & sRoute & sRetr & sPack & sGen & batch & items & reply & rag
        & T & H1 & H2 & _ & H4 & _);
    [reflexivity | reflexivity |].
  exists sRetr, batch. split.
  { rewrite T. apply in_or_app. right. right. right. left. reflexivity. }
  split; [exact H1|]. split; [exact H2|].
  rewrite <- (length_map ri_title), H4. reflexivity.
Defined.

(** The researcher is selected, then a turn runs. *)
Lemma reply_by_selected_agent_witness :
  exists reply,
    msg_agentId reply = Some (u "researcher")
    /\ In reply
         (concat (messagesIn (u "conv-1")
                    (snd (submit offlineHost (u "hi")
                            (snd (setActiveAgent offlineHost (u "researcher")
                                    (initialWorld offlineHost))))))).
Proof.
  destruct (reply_by_selected_agent offlineHost (u "researcher") (u "hi")
              (initialWorld offlineHost))
    as (userMsg & reply & rag & Hm & _ & Hag & _); [reflexivity | reflexivity |].
  exists reply. split; [exact Hag|].
  rewrite (Hm (u "conv-1")). vm_compute. right. right. left. reflexivity.
Defined.

(** A backend that answers with an empty body. *)
Lemma remote_reply_content_witness :
  exists reply,
    msg_content reply = u "(no content)"
    /\ kinds (turnOf (answeringHost None) (initialWorld (answeringHost None)))
         (snd (submit (answeringHost None) (u "hi") (initialWorld (answeringHost None))))
       = [plan].
Proof.
  destruct (remote_reply_content (answeringHost None) (u "hi")
              (initialWorld (answeringHost None)) None)
    as (userMsg & reply & _ & _ & _ & Hc & Hn); [reflexivity | reflexivity |].
  exists reply. split; [exact Hc|].
  destruct (Hn eq_refl) as [Hk _]. rewrite Hk. reflexivity.
Defined.

(** The agents of the initial state after a turn without backend. *)
Lemma agent_states_after_turn_witness :
  map ag_state (agents (snd (submit offlineHost (u "hi") (initialWorld offlineHost))))
  = [resting; resting; resting].
Proof.
  edestruct (agent_states_after_turn offlineHost (u "hi") (initialWorld offlineHost))
    as (H & _); [reflexivity | reflexivity | reflexivity | reflexivity |].
  apply H; reflexivity.
Defined.

(** The chat page after the first turn on a host without backend. *)
Lemma page_finds_timeline_witness :
  getLastProtocolTurnId
    (fst (watchActiveConversation
            (snd (submit offlineHost (u "hi") (initialWorld offlineHost)))))
  = Some (turnOf offlineHost (initialWorld offlineHost)).
Proof.
  destruct (page_finds_timeline offlineHost (u "hi") (initialWorld offlineHost))
    as (recorded & _ & H & _);
    [reflexivity | reflexivity | eexists; split; [left; reflexivity|reflexivity]
    | exact H].
Defined.
